(** * memory-mcp: a shallow embedding of the vector store, the extraction
    pipeline, the episode life cycle and the encoder supervisor.

    Sources embedded here:
    - [src/src/vector/store.py]   (encoder pool, [VectorStore])
    - [src/src/memory/manager.py] ([MemoryManager])

    Conventions.  A Python [str] is a list of Unicode code points, a [dict]
    with a fixed set of keys is a record, [None] is [option], an exception
    is the [Raised] outcome of a state-passing computation.  The embedding
    engine (ChromaDB), the sentence encoder, [uuid4] and the wall clock are
    outside the repository: they appear as explicit inputs.

    Numbers.  A [datetime] is an integer count of microseconds, so that
    comparisons of time stamps are exact.  A confidence is a rational: the
    rule table only produces the values 0.5 to 1.0 in steps of 0.1, on which
    the comparison with the threshold 0.85 is the same in floating point.

    Concurrency.  The body of [_init_process_pool] runs under one lock, so
    a run of the supervisor is a sequence of whole calls, interleaved with
    the end of the warm-up task; what a wait or the platform does is an
    input of the call. *)

From Stdlib Require Import String Ascii DecimalString.
From Stdlib Require Import List NArith ZArith QArith Bool Lia.
From Stdlib Require Import Permutation Sorted.
Import ListNotations.
Close Scope Q_scope.

Set Implicit Arguments.
Set Warnings "-register-all".

(** ** Python text *)

Definition char := N.
Definition str := list char.

(** Source literals are written as UTF-8 string literals and decoded to code
    points, so that lengths and slices count characters as Python does. *)
Fixpoint utf8_decode (bs : list N) : str :=
  match bs with
  | [] => []
  | b0 :: t =>
    if (b0 <? 128)%N then b0 :: utf8_decode t
    else if (b0 <? 224)%N then
      match t with
      | b1 :: t1 => ((b0 - 192) * 64 + (b1 - 128))%N :: utf8_decode t1
      | _ => []
      end
    else if (b0 <? 240)%N then
      match t with
      | b1 :: b2 :: t2 =>
        ((b0 - 224) * 4096 + (b1 - 128) * 64 + (b2 - 128))%N :: utf8_decode t2
      | _ => []
      end
    else
      match t with
      | b1 :: b2 :: b3 :: t3 =>
        ((b0 - 240) * 262144 + (b1 - 128) * 4096 + (b2 - 128) * 64 + (b3 - 128))%N
          :: utf8_decode t3
      | _ => []
      end
  end.

Definition py (s : string) : str :=
  utf8_decode (map N_of_ascii (list_ascii_of_string s)).

Definition newline : char := 10%N.
Definition backtick : char := 96%N.

Fixpoint str_eqb (a b : str) : bool :=
  match a, b with
  | [], [] => true
  | x :: a', y :: b' => (x =? y)%N && str_eqb a' b'
  | _, _ => false
  end.

(** [s.startswith(p)] *)
Fixpoint startswith (p s : str) : bool :=
  match p, s with
  | [], _ => true
  | x :: p', y :: s' => (x =? y)%N && startswith p' s'
  | _ :: _, [] => false
  end.

(** [sub in s] *)
Fixpoint contains (sub s : str) : bool :=
  startswith sub s ||
  match s with
  | [] => false
  | _ :: s' => contains sub s'
  end.

(** [x in xs] for a list or a set of strings *)
Definition mem (x : str) (xs : list str) : bool := existsb (str_eqb x) xs.

(** [str.isspace] on one character: the Unicode white space of CPython. *)
Definition py_isspace (c : char) : bool :=
  ((9 <=? c) && (c <=? 13) || (28 <=? c) && (c <=? 32) || (c =? 133) || (c =? 160)
   || (c =? 5760) || (8192 <=? c) && (c <=? 8202) || (c =? 8232) || (c =? 8233)
   || (c =? 8239) || (c =? 8287) || (c =? 12288))%N.

Fixpoint lstrip (s : str) : str :=
  match s with
  | c :: s' => if py_isspace c then lstrip s' else s
  | [] => []
  end.

Definition rstrip (s : str) : str := rev (lstrip (rev s)).

(** [s.strip()] *)
Definition strip (s : str) : str := rstrip (lstrip s).

(** [sep.join(parts)] *)
Fixpoint join (sep : str) (parts : list str) : str :=
  match parts with
  | [] => []
  | [p] => p
  | p :: rest => p ++ sep ++ join sep rest
  end.

(** [xs[-n:]] for [n > 0] *)
Definition last_n (A : Type) (n : nat) (xs : list A) : list A :=
  skipn (length xs - n) xs.

(** [str(n)] for an integer *)
Definition str_of_Z (z : Z) : str :=
  map N_of_ascii (list_ascii_of_string (NilZero.string_of_int (Z.to_int z))).

(** ** Time *)

(** A [datetime] is its number of microseconds since the epoch, an ISO
    time stamp written by [isoformat] is the [datetime] it reads back as. *)
Definition Time := Z.
Definition microseconds_per_second : Z := 1000000.
Definition minutes (n : Z) : Z := n * 60 * microseconds_per_second.
Definition days_span (n : Z) : Z := n * 24 * 3600 * microseconds_per_second.

(** ** The embedding engine at its boundary *)

Definition Vector := list Z.

Inductive meta_value :=
| MStr (s : str)
| MInt (n : Z)
| MTime (t : Time).

Definition meta_value_eqb (a b : meta_value) : bool :=
  match a, b with
  | MStr x, MStr y => str_eqb x y
  | MInt x, MInt y => (x =? y)%Z
  | MTime x, MTime y => (x =? y)%Z
  | _, _ => false
  end.

(** A metadata [dict], in insertion order. *)
Definition metadata := list (str * meta_value).

Fixpoint meta_get (k : str) (md : metadata) : option meta_value :=
  match md with
  | [] => None
  | (k', v) :: md' => if str_eqb k k' then Some v else meta_get k md'
  end.

Record Doc := mkDoc {
  doc_id : str;
  doc_embedding : Vector;
  doc_content : str;
  doc_metadata : metadata
}.

(** A collection keeps its records in insertion order. *)
Definition Collection := list Doc.

(** The [where] filters the repository builds: exact match, [$ne], [$and]. *)
Inductive Where :=
| WEq (k : str) (v : meta_value)
| WNe (k : str) (v : meta_value)
| WAnd (ws : list Where).

Fixpoint where_matches (w : Where) (md : metadata) : bool :=
  match w with
  | WEq k v =>
    match meta_get k md with
    | Some v' => meta_value_eqb v v'
    | None => false
    end
  | WNe k v =>
    match meta_get k md with
    | Some v' => negb (meta_value_eqb v v')
    | None => true
    end
  | WAnd ws => forallb (fun w' => where_matches w' md) ws
  end.

Definition where_opt_matches (w : option Where) (md : metadata) : bool :=
  match w with
  | None => true
  | Some w' => where_matches w' md
  end.

Definition has_id (i : str) (d : Doc) : bool := str_eqb i (doc_id d).

Definition coll_ids (c : Collection) : list str := map doc_id c.

(** [collection.add]: the engine ignores a record whose id is already
    present. *)
Definition coll_add (c : Collection) (d : Doc) : Collection :=
  if existsb (has_id (doc_id d)) c then c else c ++ [d].

(** [collection.get(where=..., limit=...)]: a metadata scan. *)
Definition coll_get_where (c : Collection) (w : option Where) (limit : nat) : list Doc :=
  firstn limit (filter (fun d => where_opt_matches w (doc_metadata d)) c).

(** [collection.get(ids=[i])] *)
Definition coll_get_id (c : Collection) (i : str) : option Doc :=
  find (has_id i) c.

(** What a call can end in: a value, or a raised exception. *)
Inductive Exn :=
| RuntimeError (msg : str)
| ValueError
| OSError
| EngineError (msg : str)
| TypeError
| AttributeError.

(** [str(e)]: the text of the exception.  The exceptions named without a
    text are raised by the reading of dates and files and by the platform;
    their texts do not matter to the code and are left empty. *)
Definition exn_text (e : Exn) : str :=
  match e with
  | RuntimeError msg => msg
  | EngineError msg => msg
  | ValueError => []
  | OSError => []
  | TypeError => []
  | AttributeError => []
  end.

Inductive outcome (A : Type) :=
| Returned (a : A)
| Raised (e : Exn).

Arguments Returned {A} a.
Arguments Raised {A} e.

(** One search hit, [{"id", "content", "metadata"}] plus ["distance"] when
    distances were asked for. *)
Record Item := mkItem {
  item_id : str;
  item_content : str;
  item_metadata : metadata;
  item_distance : option Z
}.

Definition item_of_doc (d : Doc) : Item :=
  mkItem (doc_id d) (doc_content d) (doc_metadata d) None.

(** ** [VectorStore] *)

(** [str.split()]: runs of white space separate, empty pieces are dropped. *)
Fixpoint split_aux (cur : str) (s : str) : list str :=
  match s with
  | [] => match cur with [] => [] | _ => [rev cur] end
  | c :: s' =>
    if py_isspace c
    then match cur with [] => split_aux [] s' | _ => rev cur :: split_aux [] s' end
    else split_aux (c :: cur) s'
  end.

Definition split_whitespace (s : str) : list str := split_aux [] s.

(** A candidate of the keyword search with its ["_score"]. *)
Definition Scored := (Item * nat)%type.

(** [list.sort(key=score, reverse=True)]: descending and stable. *)
Fixpoint insert_desc (x : Scored) (l : list Scored) : list Scored :=
  match l with
  | [] => [x]
  | y :: l' => if snd x <? snd y then y :: insert_desc x l' else x :: l
  end.

Definition sort_desc (l : list Scored) : list Scored := fold_right insert_desc [] l.

Module VectorStore.
Section WithEngine.

(** The outcome of [encode_text(text)] when the store calls it. *)
Variable encoder : str -> outcome Vector.

(** [collection.query]: the hits with their distances, or the engine's error. *)
Variable nearest : Collection -> Vector -> nat -> option Where -> outcome (list (Doc * Z)).

(** [str.lower] *)
Variable lower : str -> str.

Definition add (c : Collection) (i content : str) (md : metadata) : outcome Collection :=
  match encoder content with
  | Raised e => Raised e
  | Returned v => Returned (coll_add c (mkDoc i v content md))
  end.

Definition get (c : Collection) (i : str) : option Item :=
  option_map item_of_doc (coll_get_id c i).

Definition type_and_status (entity_type status : str) : Where :=
  WAnd [WEq (py "type") (MStr entity_type); WEq (py "status") (MStr status)].

Definition get_by_type (c : Collection) (entity_type : str) (limit : nat) (status : str)
  : list Item :=
  map item_of_doc (coll_get_where c (Some (type_and_status entity_type status)) limit).

Definition keywords_of (query : str) : list str :=
  map strip (filter (fun w => 2 <=? List.length (strip w)) (split_whitespace query)).

Definition score (keywords : list str) (content : str) : nat :=
  List.length (filter (fun kw => contains (lower kw) (lower content)) keywords).

Definition scored_items (keywords : list str) (docs : list Doc) : list Scored :=
  flat_map (fun d =>
    let sc := score keywords (doc_content d) in
    if (0 <? sc) || (match keywords with [] => true | _ => false end)
    then [(item_of_doc d, sc)] else []) docs.

Definition _keyword_search (c : Collection) (query : str) (top_k : nat) (w : option Where)
  : list Item :=
  let keywords := keywords_of query in
  let results := coll_get_where c w (top_k * 10) in
  map fst (firstn top_k (sort_desc (scored_items keywords results))).

Definition is_index_integrity_error (error_msg : str) : bool :=
  contains (py "Error finding id") error_msg || contains (py "finding id") (lower error_msg).

Definition format_hit (include_distances : bool) (h : Doc * Z) : Item :=
  mkItem (doc_id (fst h)) (doc_content (fst h)) (doc_metadata (fst h))
         (if include_distances then Some (snd h) else None).

Definition _vector_search (c : Collection) (query : str) (top_k : nat) (w : option Where)
           (include_distances : bool) : outcome (list Item) :=
  match encoder query with
  | Raised e => Raised e
  | Returned v =>
    match nearest c v top_k w with
    | Raised e =>
      if is_index_integrity_error (exn_text e)
      then Returned (_keyword_search c query top_k w)
      else Raised e
    | Returned hits => Returned (map (format_hit include_distances) hits)
    end
  end.

Definition search (c : Collection) (query : str) (top_k : nat) (w : option Where)
           (include_distances : bool) : outcome (list Item) :=
  _vector_search c query top_k w include_distances.

End WithEngine.
End VectorStore.

(** ** [MemoryManager]: data *)

(** A cached message, [{"id", "role", "content", "timestamp", "episode_id"}]. *)
Record Message := mkMessage {
  m_id : str;
  m_role : str;
  m_content : str;
  m_timestamp : Time;
  m_episode_id : option str
}.

(** The active episode, [{"id", "title", "tags", "status", "created_at",
    "entity_ids"}]. *)
Record Episode := mkEpisode {
  ep_id : str;
  ep_title : str;
  ep_tags : list str;
  ep_status : str;
  ep_created_at : Time;
  ep_entity_ids : list str
}.

(** An entity candidate as [_detect_candidates] builds it. *)
Record Candidate := mkCandidate {
  cand_id : str;
  cand_type : str;
  extracted_content : str;
  source_snippet : str;
  confidence : Q;
  cand_status : str;
  detected_at : Time;
  detection_method : str
}.

(** A JSON document on disk either parses or does not. *)
Inductive file_content (A : Type) :=
| Parsed (a : A)
| Corrupt.

Arguments Parsed {A} a.
Arguments Corrupt {A}.

(** One line of [message_cache.jsonl], by what reading it back does: a
    line written by [cache_message]; a line that is not JSON
    ([JSONDecodeError]); an object without ["timestamp"] ([KeyError]); an
    object whose time stamp is text but no ISO date ([ValueError]); JSON
    that is not an object; an object whose time stamp is not text
    ([TypeError]); and any other object, whose time stamp reads as [t]. *)
Inductive cache_line :=
| LineMessage (m : Message)
| LineUndecodable (raw : str)
| LineNoTimestamp (raw : str)
| LineBadTimestamp (raw : str)
| LineNotObject (raw : str)
| LineTimestampNotText (raw : str)
| LineDated (raw : str) (t : Time).

Record Manager := mkManager {
  user_store : Collection;
  project_store : Collection;
  cache_file : option (list cache_line);
  pending_file : option (file_content (list Candidate));
  state_file : option (file_content (option Episode * list Message));
  current_episode : option Episode;
  current_messages : list Message;
  pending_entities : list Candidate;
  uuid_drawn : nat
}.

Definition set_user_store (c : Collection) (s : Manager) : Manager :=
  mkManager c (project_store s) (cache_file s) (pending_file s) (state_file s)
            (current_episode s) (current_messages s) (pending_entities s) (uuid_drawn s).

Definition set_project_store (c : Collection) (s : Manager) : Manager :=
  mkManager (user_store s) c (cache_file s) (pending_file s) (state_file s)
            (current_episode s) (current_messages s) (pending_entities s) (uuid_drawn s).

Definition set_cache_file (f : option (list cache_line)) (s : Manager) : Manager :=
  mkManager (user_store s) (project_store s) f (pending_file s) (state_file s)
            (current_episode s) (current_messages s) (pending_entities s) (uuid_drawn s).

Definition set_pending_file (f : option (file_content (list Candidate))) (s : Manager)
  : Manager :=
  mkManager (user_store s) (project_store s) (cache_file s) f (state_file s)
            (current_episode s) (current_messages s) (pending_entities s) (uuid_drawn s).

Definition set_state_file (f : option (file_content (option Episode * list Message)))
           (s : Manager) : Manager :=
  mkManager (user_store s) (project_store s) (cache_file s) (pending_file s) f
            (current_episode s) (current_messages s) (pending_entities s) (uuid_drawn s).

Definition set_current_episode (e : option Episode) (s : Manager) : Manager :=
  mkManager (user_store s) (project_store s) (cache_file s) (pending_file s) (state_file s)
            e (current_messages s) (pending_entities s) (uuid_drawn s).

Definition set_current_messages (ms : list Message) (s : Manager) : Manager :=
  mkManager (user_store s) (project_store s) (cache_file s) (pending_file s) (state_file s)
            (current_episode s) ms (pending_entities s) (uuid_drawn s).

Definition set_pending_entities (ps : list Candidate) (s : Manager) : Manager :=
  mkManager (user_store s) (project_store s) (cache_file s) (pending_file s) (state_file s)
            (current_episode s) (current_messages s) ps (uuid_drawn s).

Definition set_uuid_drawn (n : nat) (s : Manager) : Manager :=
  mkManager (user_store s) (project_store s) (cache_file s) (pending_file s) (state_file s)
            (current_episode s) (current_messages s) (pending_entities s) n.

(** Methods thread the manager and may raise: the manager they leave behind
    is kept in both cases. *)
Definition M (A : Type) : Type := Manager -> Manager * outcome A.

Definition ret (A : Type) (a : A) : M A := fun s => (s, Returned a).

Definition bind (A B : Type) (m : M A) (k : A -> M B) : M B :=
  fun s =>
    match m s with
    | (s', Returned a) => k a s'
    | (s', Raised e) => (s', Raised e)
    end.

Definition gets (A : Type) (f : Manager -> A) : M A := fun s => (s, Returned (f s)).

Definition modify (f : Manager -> Manager) : M unit := fun s => (f s, Returned tt).

Definition lift (A : Type) (o : outcome A) : M A := fun s => (s, o).

Notation "x <- m ;; k" := (bind m (fun x => k))
  (at level 61, m at next level, right associativity).
Notation "m ;;; k" := (bind m (fun _ => k))
  (at level 61, right associativity).

(** Class constants. *)
Definition USER_LEVEL_TYPES : list str := [py "Preference"; py "Concept"; py "Habit"].
Definition PROJECT_LEVEL_TYPES : list str :=
  [py "Decision"; py "Episode"; py "File"; py "Architecture"].
Definition AUTO_CONFIRM_THRESHOLD : Q := 85 # 100.
Definition STALE_EPISODE_MINUTES : Z := 30.

(** What the manager takes from outside the repository. *)
Record Env := mkEnv {
  encoder : str -> outcome Vector;        (* the outcome of [encode_text(text)] *)
  nearest : Collection -> Vector -> nat -> option Where -> outcome (list (Doc * Z));
  lower : str -> str;                     (* [str.lower] *)
  is_word : char -> bool;                 (* the class [\w] of [re] *)
  uuid4_hex8 : nat -> str                 (* [uuid4().hex[:8]] of the n-th draw *)
}.

Section ManagerMethods.

Variable env : Env.

Definition store_add (c : Collection) (i content : str) (md : metadata)
  : outcome Collection :=
  VectorStore.add (encoder env) c i content md.

Definition store_search (c : Collection) (query : str) (top_k : nat) (w : option Where)
  : outcome (list Item) :=
  VectorStore.search (encoder env) (nearest env) (lower env) c query top_k w false.

(** [uuid4().hex[:8]] *)
Definition uuid4 : M str :=
  fun s => (set_uuid_drawn (S (uuid_drawn s)) s, Returned (uuid4_hex8 env (uuid_drawn s))).

Definition _load_active_episode : M unit :=
  fun s =>
    match state_file s with
    | Some (Parsed (e, ms)) =>
      (set_current_messages ms (set_current_episode e s), Returned tt)
    | Some Corrupt => (s, Returned tt)
    | None => (s, Returned tt)
    end.

Definition _load_pending_entities : M unit :=
  fun s =>
    match pending_file s with
    | Some (Parsed ps) => (set_pending_entities ps s, Returned tt)
    | Some Corrupt => (set_pending_entities [] s, Returned tt)
    | None => (s, Returned tt)
    end.

Definition _save_pending_entities : M unit :=
  modify (fun s => set_pending_file (Some (Parsed (pending_entities s))) s).

Definition _save_active_episode : M unit :=
  modify (fun s => set_state_file (Some (Parsed (current_episode s, current_messages s))) s).

Definition role_label (role : str) : str :=
  if str_eqb role (py "user") then py "用户" else py "助手".

Definition _generate_summary (ep : Episode) (messages : list Message) : str :=
  match messages with
  | [] => ep_title ep
  | _ =>
    let recent := last_n 5 messages in
    join [newline]
         ((ep_title ep ++ py ":")
            :: map (fun msg => py "- " ++ role_label (m_role msg) ++ py ": "
                                  ++ firstn 100 (m_content msg)) recent)
  end.

Definition episode_metadata (ep : Episode) (messages : list Message) (now : Time)
  : metadata :=
  [ (py "title", MStr (ep_title ep));
    (py "tags", MStr (join (py ",") (ep_tags ep)));
    (py "status", MStr (py "completed"));
    (py "entity_ids", MStr (join (py ",") (ep_entity_ids ep)));
    (py "type", MStr (py "Episode"));
    (py "message_count", MInt (Z.of_nat (List.length messages)));
    (py "created_at", MTime (ep_created_at ep));
    (py "closed_at", MTime now) ].

Definition is_empty (A : Type) (l : list A) : bool :=
  match l with [] => true | _ => false end.

(** [if not summary: summary = self._generate_summary()] *)
Definition summary_or_generated (summary : option str) (ep : Episode)
           (messages : list Message) : str :=
  match summary with
  | Some t => if is_empty t then _generate_summary ep messages else t
  | None => _generate_summary ep messages
  end.

(** [close_episode(summary)]: the closed episode and its summary, or [None]. *)
Definition close_episode (summary : option str) (now : Time) : M (option (Episode * str)) :=
  cur <- gets current_episode ;;
  match cur with
  | None => ret None
  | Some ep =>
    messages <- gets current_messages ;;
    let summary' := summary_or_generated summary ep messages in
    let md := episode_metadata ep messages now in
    project <- gets project_store ;;
    project' <- lift (store_add project (ep_id ep) summary' md) ;;
    modify (set_project_store project') ;;;
    modify (set_current_episode None) ;;;
    modify (set_current_messages []) ;;;
    _save_active_episode ;;;
    ret (Some (ep, summary'))
  end.

Definition auto_summary (ep : Episode) (idle : Z) : str :=
  py "[自动关闭] " ++ ep_title ep ++ py " (闲置 "
     ++ str_of_Z (Z.quot idle (minutes 1)) ++ py " 分钟后自动归档)".

(** The time of the last activity: the last message, else the creation. *)
Definition last_activity (ep : Episode) (messages : list Message) : Time :=
  match rev messages with
  | last_msg :: _ => m_timestamp last_msg
  | [] => ep_created_at ep
  end.

Definition _close_stale_episode (now : Time) : M unit :=
  cur <- gets current_episode ;;
  match cur with
  | None => ret tt
  | Some ep =>
    messages <- gets current_messages ;;
    let idle := (now - last_activity ep messages)%Z in
    if (minutes STALE_EPISODE_MINUTES <=? idle)%Z
    then close_episode (Some (auto_summary ep idle)) now ;;; ret tt
    else ret tt
  end.

(** What [__init__] finds: the two collections and the three files. *)
Definition on_disk (user project : Collection) (cache : option (list cache_line))
           (pending : option (file_content (list Candidate)))
           (state : option (file_content (option Episode * list Message)))
           (drawn : nat) : Manager :=
  mkManager user project cache pending state None [] [] drawn.

Definition __init__ (now : Time) : M unit :=
  _load_active_episode ;;;
  _load_pending_entities ;;;
  _close_stale_episode now.

Definition start_episode (title : str) (tags : list str) (now : Time) : M Episode :=
  cur <- gets current_episode ;;
  match cur with
  | Some _ => close_episode None now ;;; ret tt
  | None => ret tt
  end ;;;
  u <- uuid4 ;;
  let ep := mkEpisode (py "ep_" ++ u) title tags (py "active") now [] in
  modify (set_current_episode (Some ep)) ;;;
  modify (set_current_messages []) ;;;
  _save_active_episode ;;;
  ret ep.

Definition entity_metadata (entity_type : str) (reason : option str)
           (related_ids : list str) (cur : option Episode) (now : Time) : metadata :=
  [ (py "type", MStr entity_type);
    (py "status", MStr (py "active"));
    (py "reason", MStr (match reason with Some r => r | None => [] end));
    (py "related_ids", MStr (join (py ",") related_ids));
    (py "episode_id", MStr (match cur with Some ep => ep_id ep | None => [] end));
    (py "created_at", MTime now) ].

Definition append_entity_id (i : str) (ep : Episode) : Episode :=
  mkEpisode (ep_id ep) (ep_title ep) (ep_tags ep) (ep_status ep) (ep_created_at ep)
            (ep_entity_ids ep ++ [i]).

(** The entity [add_entity] returns: [{"id", "type", "content", "metadata"}]. *)
Record Entity := mkEntity {
  ent_id : str;
  ent_type : str;
  ent_content : str;
  ent_metadata : metadata
}.

Definition add_entity (entity_type content : str) (reason : option str)
           (related_ids : list str) (now : Time) : M Entity :=
  u <- uuid4 ;;
  let entity_id := py "ent_" ++ u in
  cur <- gets current_episode ;;
  let md := entity_metadata entity_type reason related_ids cur now in
  (if mem entity_type USER_LEVEL_TYPES
   then
     c <- gets user_store ;;
     c' <- lift (store_add c entity_id content md) ;;
     modify (set_user_store c')
   else
     c <- gets project_store ;;
     c' <- lift (store_add c entity_id content md) ;;
     modify (set_project_store c')) ;;;
  match cur with
  | Some ep =>
    modify (set_current_episode (Some (append_entity_id entity_id ep))) ;;;
    _save_active_episode
  | None => ret tt
  end ;;;
  ret (mkEntity entity_id entity_type content md).

Definition without_candidate (candidate_id : str) (ps : list Candidate) : list Candidate :=
  filter (fun p => negb (str_eqb (cand_id p) candidate_id)) ps.

Definition confirm_entity (candidate_id entity_type content : str) (now : Time) : M Entity :=
  modify (fun s => set_pending_entities (without_candidate candidate_id (pending_entities s)) s) ;;;
  _save_pending_entities ;;;
  add_entity entity_type content None [] now.

Definition reject_candidate (candidate_id : str) : M unit :=
  modify (fun s => set_pending_entities (without_candidate candidate_id (pending_entities s)) s) ;;;
  _save_pending_entities.

End ManagerMethods.

(** ** Regular expressions of [re], as far as the repository uses them *)

(** A pattern is kept as its syntax tree.  [Chr] is any one-character
    item (a literal, [.], a class), [Rep] a quantifier with its bounds
    ([None]: no upper bound) and its greediness, [Group] a capturing
    group with its number, [Eos] the anchor [$]. *)
Inductive regex :=
| Chr (p : char -> bool)
| Eps
| Seq (a b : regex)
| Alt (a b : regex)
| Rep (greedy : bool) (lo : nat) (hi : option nat) (a : regex)
| Group (i : nat) (a : regex)
| Eos.

Definition captures := list (nat * str).

Definition or_else (A : Type) (x : option A) (y : unit -> option A) : option A :=
  match x with
  | Some v => Some v
  | None => y tt
  end.

(** One quantifier: [body] matches the quantified item once.  A greedy
    quantifier tries one more iteration before it stops, a lazy one stops
    before it tries one more; [i] counts the iterations done. *)
Fixpoint rep_loop (body : str -> captures -> (str -> captures -> option (str * captures))
                          -> option (str * captures))
         (greedy : bool) (lo : nat) (k : str -> captures -> option (str * captures))
         (fuel : nat) (i : nat) (s : str) (cs : captures) {struct fuel}
  : option (str * captures) :=
  match fuel with
  | O => if lo <=? i then k s cs else None
  | S fuel' =>
    if greedy
    then or_else (body s cs (fun s' cs' => rep_loop body greedy lo k fuel' (S i) s' cs'))
                 (fun _ => if lo <=? i then k s cs else None)
    else or_else (if lo <=? i then k s cs else None)
                 (fun _ => body s cs (fun s' cs' => rep_loop body greedy lo k fuel' (S i) s' cs'))
  end.

(** The backtracking matcher, in continuation-passing style: alternatives
    are tried left to right.  An unbounded quantifier iterates at most once
    per remaining character. *)
Fixpoint re_run (r : regex) (s : str) (cs : captures)
         (k : str -> captures -> option (str * captures)) {struct r}
  : option (str * captures) :=
  match r with
  | Chr p =>
    match s with
    | c :: s' => if p c then k s' cs else None
    | [] => None
    end
  | Eps => k s cs
  | Seq a b => re_run a s cs (fun s' cs' => re_run b s' cs' k)
  | Alt a b => or_else (re_run a s cs k) (fun _ => re_run b s cs k)
  | Group i a =>
    re_run a s cs
           (fun s' cs' => k s' ((i, firstn (List.length s - List.length s') s) :: cs'))
  | Eos =>
    match s with
    | [] => k s cs
    | [c] => if (c =? newline)%N then k s cs else None
    | _ => None
    end
  | Rep greedy lo hi a =>
    rep_loop (fun s' cs' k' => re_run a s' cs' k') greedy lo k
             (match hi with Some h => h | None => Nat.max lo (List.length s) end) 0 s cs
  end.

(** A match that starts at the head of [s]: what is left, and the groups. *)
Definition re_match (r : regex) (s : str) : option (str * captures) :=
  re_run r s [] (fun s' cs => Some (s', cs)).

Fixpoint capture (i : nat) (cs : captures) : str :=
  match cs with
  | [] => []
  | (j, t) :: cs' => if i =? j then t else capture i cs'
  end.

(** What [findall] yields per match: the group of a one-group pattern, or
    the tuple of groups. *)
Inductive re_found :=
| FoundStr (g : str)
| FoundTuple (gs : list str).

Definition found_of (ngroups : nat) (whole : str) (cs : captures) : re_found :=
  match ngroups with
  | 0 => FoundStr whole
  | 1 => FoundStr (capture 1 cs)
  | _ => FoundTuple (map (fun i => capture i cs) (seq 1 ngroups))
  end.

(** [re.findall(pattern, s)]: the matches from left to right, without overlap.
    After an empty match the scan moves on by one character. *)
Fixpoint findall_from (r : regex) (ngroups : nat) (fuel : nat) (s : str) : list re_found :=
  match fuel with
  | O => []
  | S fuel' =>
    match re_match r s with
    | Some (rest, cs) =>
      let whole := firstn (List.length s - List.length rest) s in
      found_of ngroups whole cs ::
        (if List.length rest <? List.length s
         then findall_from r ngroups fuel' rest
         else match s with
              | [] => []
              | _ :: s' => findall_from r ngroups fuel' s'
              end)
    | None =>
      match s with
      | [] => []
      | _ :: s' => findall_from r ngroups fuel' s'
      end
    end
  end.

Definition findall (r : regex) (ngroups : nat) (s : str) : list re_found :=
  findall_from r ngroups (S (List.length s)) s.

(** [re.sub(pattern, repl, s)] for a replacement without group references. *)
Fixpoint sub_from (r : regex) (repl : str) (fuel : nat) (s : str) : str :=
  match fuel with
  | O => s
  | S fuel' =>
    match re_match r s with
    | Some (rest, _) =>
      if List.length rest <? List.length s
      then repl ++ sub_from r repl fuel' rest
      else match s with
           | [] => repl
           | c :: s' => repl ++ c :: sub_from r repl fuel' s'
           end
    | None =>
      match s with
      | [] => []
      | c :: s' => c :: sub_from r repl fuel' s'
      end
    end
  end.

Definition re_sub (r : regex) (repl : str) (s : str) : str :=
  sub_from r repl (S (List.length s)) s.

(** [re.split('[...]', s)] on a one-character class: every separator cuts,
    empty pieces are kept. *)
Fixpoint split_on (sep : char -> bool) (cur : str) (s : str) : list str :=
  match s with
  | [] => [rev cur]
  | c :: s' => if sep c then rev cur :: split_on sep [] s' else split_on sep (c :: cur) s'
  end.

(** *** Pattern syntax *)

(** Lower case as [re.IGNORECASE] needs it for the literals below, whose
    letters are ASCII and are none of [i] and [k]. *)
Definition ascii_lower (c : char) : char :=
  if ((65 <=? c) && (c <=? 90))%N then (c + 32)%N else c.

(** A literal under [re.IGNORECASE]: [s] also matches the long s, U+017F. *)
Definition lit_char (p : char) : regex :=
  Chr (fun c => (ascii_lower c =? ascii_lower p)%N
                || ((ascii_lower p =? 115) && (c =? 383))%N).

Fixpoint lits (s : str) : regex :=
  match s with
  | [] => Eps
  | [c] => lit_char c
  | c :: s' => Seq (lit_char c) (lits s')
  end.

Definition lit (s : string) : regex := lits (py s).

(** [.]: any character but the newline *)
Definition dot : regex := Chr (fun c => negb (c =? newline)%N).

Fixpoint alts (rs : list regex) : regex :=
  match rs with
  | [] => Eps
  | [r] => r
  | r :: rs' => Alt r (alts rs')
  end.

Fixpoint seqs (rs : list regex) : regex :=
  match rs with
  | [] => Eps
  | [r] => r
  | r :: rs' => Seq r (seqs rs')
  end.

(** [(?:a|b|...)] over literals *)
Definition one_of (ws : list string) : regex := alts (map lit ws).

(** [r?] *)
Definition opt (r : regex) : regex := Rep true 0 (Some 1) r.

(** [.{lo,hi}] and [.{lo,hi}?] *)
Definition dots (lo hi : nat) : regex := Rep true lo (Some hi) dot.
Definition dots_lazy (lo hi : nat) : regex := Rep false lo (Some hi) dot.

(** ** The extraction pipeline *)

(** A compiled pattern: its syntax tree and its number of capturing groups. *)
Record Pattern := mkPattern {
  pat_regex : regex;
  pat_groups : nat
}.

Record Rule := mkRule {
  patterns : list Pattern;
  keywords : list str;
  min_confidence : Q
}.

Definition g1 (r : regex) : regex := Group 1 r.
Definition g2 (r : regex) : regex := Group 2 r.

Open Scope string_scope.

Definition file_extension : regex :=
  Seq (lit ".") (one_of ["ts"; "js"; "vue"; "py"; "java"; "go"]).

Definition decision_rule : Rule :=
  mkRule
    [ (* (?:我|我们)?(?:决定|确定|选择|采用|使用)(?:了)?(.{5,50}?)(?:方案|方式|方法|来|作为|进行)? *)
      mkPattern (seqs [opt (one_of ["我"; "我们"]);
                       one_of ["决定"; "确定"; "选择"; "采用"; "使用"];
                       opt (lit "了");
                       g1 (dots_lazy 5 50);
                       opt (one_of ["方案"; "方式"; "方法"; "来"; "作为"; "进行"])]) 1;
      (* (?:最终|最后)?(?:选择|采用|决定)(?:了)?(.{5,50}) *)
      mkPattern (seqs [opt (one_of ["最终"; "最后"]);
                       one_of ["选择"; "采用"; "决定"];
                       opt (lit "了");
                       g1 (dots 5 50)]) 1;
      (* (.{5,30}?)(?:是|作为)(?:最佳|最好|更好的)?(?:选择|方案) *)
      mkPattern (seqs [g1 (dots_lazy 5 30);
                       one_of ["是"; "作为"];
                       opt (one_of ["最佳"; "最好"; "更好的"]);
                       one_of ["选择"; "方案"]]) 1 ]
    [py "决定"; py "采用"; py "选择"; py "确定使用"; py "决策"; py "敲定"]
    (7 # 10).

Definition architecture_rule : Rule :=
  mkRule
    [ (* (?:采用|使用|基于)(.{5,50}?)(?:架构|设计|模式|结构) *)
      mkPattern (seqs [one_of ["采用"; "使用"; "基于"];
                       g1 (dots_lazy 5 50);
                       one_of ["架构"; "设计"; "模式"; "结构"]]) 1;
      (* (?:架构|设计|结构)(?:是|为|采用)(.{5,50}) *)
      mkPattern (seqs [one_of ["架构"; "设计"; "结构"];
                       one_of ["是"; "为"; "采用"];
                       g1 (dots 5 50)]) 1;
      (* (.{5,30}?)(?:分层|模块化|微服务|单体) *)
      mkPattern (seqs [g1 (dots_lazy 5 30);
                       one_of ["分层"; "模块化"; "微服务"; "单体"]]) 1 ]
    [py "架构"; py "设计模式"; py "分层"; py "模块"; py "组件结构"]
    (7 # 10).

Definition preference_rule : Rule :=
  mkRule
    [ (* (?:我|用户)?(?:喜欢|偏好|倾向于|更愿意)(.{5,50}) *)
      mkPattern (seqs [opt (one_of ["我"; "用户"]);
                       one_of ["喜欢"; "偏好"; "倾向于"; "更愿意"];
                       g1 (dots 5 50)]) 1;
      (* (?:prefer|偏好)(?:使用|用)?(.{5,50}) *)
      mkPattern (seqs [one_of ["prefer"; "偏好"];
                       opt (one_of ["使用"; "用"]);
                       g1 (dots 5 50)]) 1 ]
    [py "喜欢"; py "偏好"; py "倾向于"; py "prefer"; py "更喜欢"]
    (6 # 10).

Definition concept_rule : Rule :=
  mkRule
    [ (* (.{2,20}?)(?:是指|是什么|的意思是|定义为)(.{10,100}) *)
      mkPattern (seqs [g1 (dots_lazy 2 20);
                       one_of ["是指"; "是什么"; "的意思是"; "定义为"];
                       g2 (dots 10 100)]) 2;
      (* (?:什么是|解释一下)(.{2,20}) *)
      mkPattern (seqs [one_of ["什么是"; "解释一下"]; g1 (dots 2 20)]) 1;
      (* 我是(.{2,20}?)(?:，|,|。|$) *)
      mkPattern (seqs [lit "我是"; g1 (dots_lazy 2 20);
                       alts [lit "，"; lit ","; lit "。"; Eos]]) 1;
      (* 我叫(.{2,10}) *)
      mkPattern (seqs [lit "我叫"; g1 (dots 2 10)]) 1;
      (* 我的名字是(.{2,10}) *)
      mkPattern (seqs [lit "我的名字是"; g1 (dots 2 10)]) 1;
      (* (?:我|用户)是(.{2,30}?)(?:的|，|,|。|$) *)
      mkPattern (seqs [one_of ["我"; "用户"]; lit "是"; g1 (dots_lazy 2 30);
                       alts [lit "的"; lit "，"; lit ","; lit "。"; Eos]]) 1 ]
    [py "是什么"; py "什么是"; py "意思是"; py "定义"; py "概念"; py "解释"; py "我是"; py "我叫"]
    (5 # 10).

Definition habit_rule : Rule :=
  mkRule
    [ (* (?:我|用户)?(?:习惯|总是|一般会|通常|每次都)(.{5,50}) *)
      mkPattern (seqs [opt (one_of ["我"; "用户"]);
                       one_of ["习惯"; "总是"; "一般会"; "通常"; "每次都"];
                       g1 (dots 5 50)]) 1 ]
    [py "习惯"; py "总是"; py "一般会"; py "通常"; py "每次都"]
    (6 # 10).

Definition file_rule : Rule :=
  mkRule
    [ (* (.{5,50}\.(?:ts|js|vue|py|java|go))(?:文件)?(?:负责|处理|实现|包含)(.{5,50}) *)
      mkPattern (seqs [g1 (Seq (dots 5 50) file_extension);
                       opt (lit "文件");
                       one_of ["负责"; "处理"; "实现"; "包含"];
                       g2 (dots 5 50)]) 2;
      (* (?:在|修改|创建|查看)(.{5,50}\.(?:ts|js|vue|py|java|go)) *)
      mkPattern (seqs [one_of ["在"; "修改"; "创建"; "查看"];
                       g1 (Seq (dots 5 50) file_extension)]) 1 ]
    [py ".ts"; py ".js"; py ".vue"; py ".py"; py "文件负责"; py "文件处理"]
    (8 # 10).

Close Scope string_scope.

(** The rule table, in the order the [dict] is written. *)
Definition DETECTION_RULES : list (str * Rule) :=
  [ (py "Decision", decision_rule);
    (py "Architecture", architecture_rule);
    (py "Preference", preference_rule);
    (py "Concept", concept_rule);
    (py "Habit", habit_rule);
    (py "File", file_rule) ].

(** The bonus of a pattern match over a keyword match. *)
Definition PATTERN_BONUS : Q := 2 # 10.

Definition nonempty (s : str) : bool := negb (is_empty s).

(** The text a match contributes: the groups that are not empty, joined by
    one space, stripped. *)
Definition extract (m : re_found) : str :=
  match m with
  | FoundTuple gs => strip (join (py " ") (filter nonempty gs))
  | FoundStr g => strip g
  end.

(** The loop state of [_detect_candidates]: the candidates so far and the
    strings already extracted, both in order of insertion. *)
Record Detection := mkDetection {
  candidates : list Candidate;
  detected_contents : list str
}.

Section Detect.

Variable env : Env.
(** The number of [uuid4] draws before the call, and the clock. *)
Variable base : nat.
Variable now : Time.
Variable content : str.

Definition new_candidate (d : Detection) (entity_type extracted : str) (conf : Q)
           (method : str) : Candidate :=
  mkCandidate (py "cand_" ++ uuid4_hex8 env (base + List.length (candidates d)))
              entity_type (firstn 200 extracted) (firstn 300 content) conf
              (py "pending") now method.

Definition on_match (entity_type : str) (rule : Rule) (d : Detection) (m : re_found)
  : Detection :=
  let extracted := extract m in
  if nonempty extracted && (3 <? List.length extracted)
     && negb (mem extracted (detected_contents d))
  then mkDetection
         (candidates d ++ [new_candidate d entity_type extracted
                                         (min_confidence rule + PATTERN_BONUS)%Q
                                         (py "pattern")])
         (detected_contents d ++ [extracted])
  else d.

Definition on_pattern (entity_type : str) (rule : Rule) (d : Detection) (p : Pattern)
  : Detection :=
  fold_left (on_match entity_type rule) (findall (pat_regex p) (pat_groups p) content) d.

Definition is_sentence_end (c : char) : bool :=
  mem [c] [py "。"; py "！"; py "？"; [newline]].

Definition has_keyword (kws : list str) (text : str) : bool :=
  existsb (fun kw => contains kw text) kws.

(** The sentence the keyword loop stops at: the first one that holds a
    keyword and has more than 5 characters. *)
Definition first_keyword_sentence (rule : Rule) : option str :=
  find (fun sentence => has_keyword (keywords rule) sentence
                        && (5 <? List.length sentence))
       (split_on is_sentence_end [] content).

Definition on_keywords (entity_type : str) (rule : Rule) (d : Detection) : Detection :=
  if has_keyword (keywords rule) content
  then
    if negb (mem entity_type (map cand_type (candidates d)))
    then
      match first_keyword_sentence rule with
      | Some sentence =>
        if negb (mem sentence (detected_contents d))
        then mkDetection
               (candidates d ++ [new_candidate d entity_type sentence
                                               (min_confidence rule) (py "keyword")])
               (detected_contents d ++ [sentence])
        else d
      | None => d
      end
    else d
  else d.

Definition on_rule (d : Detection) (tr : str * Rule) : Detection :=
  on_keywords (fst tr) (snd tr) (fold_left (on_pattern (fst tr) (snd tr)) (patterns (snd tr)) d).

Definition detect (rules : list (str * Rule)) : Detection :=
  fold_left on_rule rules (mkDetection [] []).

Definition _detect_candidates : list Candidate := candidates (detect DETECTION_RULES).

End Detect.

(** ** [MemoryManager]: messages, routing, retrieval, maintenance *)

Definition any_char : regex := Chr (fun _ => true).

(** A literal character of a pattern compiled without flags. *)
Definition exact (c : char) : regex := Chr (fun x => (x =? c)%N).

Definition FENCE : str := [backtick; backtick; backtick].

(** [```[\w]*\n[\s\S]*?```] *)
Definition fenced_code (word : char -> bool) : regex :=
  Seq (exact backtick) (Seq (exact backtick) (Seq (exact backtick)
    (Seq (Rep true 0 None (Chr word))
    (Seq (exact newline)
    (Seq (Rep false 0 None any_char)
    (Seq (exact backtick) (Seq (exact backtick) (exact backtick)))))))).

(** [`[^`]+`] *)
Definition inline_code : regex :=
  Seq (exact backtick)
    (Seq (Rep true 1 None (Chr (fun c => negb (c =? backtick)%N)))
         (exact backtick)).

Definition FENCE_PLACEHOLDER : str := py "[代码块已省略]".
Definition INLINE_PLACEHOLDER : str := py "[代码]".
Definition TRUNCATION_MARKER : str := py "...[已截断]".

Definition truncate (max_length : nat) (cleaned : str) : str :=
  if max_length <? List.length cleaned
  then firstn max_length cleaned ++ TRUNCATION_MARKER
  else cleaned.

(** Two decimals of a confidence, as ["{:.2f}"] prints them. *)
Definition format_2f (q : Q) : str :=
  let h := ((Qnum q * 200 + Zpos (Qden q)) / (2 * Zpos (Qden q)))%Z in
  str_of_Z (h / 100) ++ py "."
    ++ (if (h mod 100 <? 10)%Z then py "0" else []) ++ str_of_Z (h mod 100).

(** What [recall] returns. *)
Record Recall := mkRecall {
  r_episodes : list Item;
  r_entities : list Item;
  r_current_episode : option Episode;
  r_recent_messages : list Message;
  r_note : option str
}.

(** What [cleanup_old_messages] returns. *)
Record CleanupReport := mkCleanupReport {
  cr_status : str;
  cr_days_kept : option Z;
  cr_removed : nat;
  cr_kept : nat
}.

Definition DEGRADED_NOTE : str :=
  py "向量编码器正在初始化中，当前使用关键词匹配（结果可能不够精确）".

Section ManagerMessages.

Variable env : Env.

Definition _clean_content (content : str) (max_length : nat) : str :=
  let cleaned := re_sub (fenced_code (is_word env)) FENCE_PLACEHOLDER content in
  let cleaned := re_sub inline_code INLINE_PLACEHOLDER cleaned in
  strip (truncate max_length cleaned).

Definition auto_reason (c : Candidate) : str :=
  py "自动确认 (置信度: " ++ format_2f (confidence c) ++ py ")".

(** One turn of the routing loop. *)
Definition route (now : Time) (candidate : Candidate) : M unit :=
  if Qle_bool AUTO_CONFIRM_THRESHOLD (confidence candidate)
  then add_entity env (cand_type candidate) (extracted_content candidate)
                  (Some (auto_reason candidate)) [] now ;;; ret tt
  else modify (fun s => set_pending_entities (pending_entities s ++ [candidate]) s).

Fixpoint route_all (now : Time) (cs : list Candidate) : M unit :=
  match cs with
  | [] => ret tt
  | c :: cs' => route now c ;;; route_all now cs'
  end.

(** [_detect_candidates] inside the manager: it draws one id per candidate. *)
Definition detect_candidates (content : str) (now : Time) : M (list Candidate) :=
  fun s =>
    let cs := _detect_candidates env (uuid_drawn s) now content in
    (set_uuid_drawn (uuid_drawn s + List.length cs) s, Returned cs).

Definition _detect_and_process_entities (content : str) (now : Time) : M unit :=
  cs <- detect_candidates content now ;;
  route_all now cs ;;;
  _save_pending_entities.

Definition append_line (l : cache_line) (f : option (list cache_line))
  : option (list cache_line) :=
  match f with
  | Some ls => Some (ls ++ [l])
  | None => Some [l]
  end.

Definition cache_message (role content : str) (now : Time) : M Message :=
  let cleaned_content := _clean_content content 2000 in
  u <- uuid4 env ;;
  cur <- gets current_episode ;;
  let message := mkMessage (py "msg_" ++ u) role cleaned_content now (option_map ep_id cur) in
  modify (fun s => set_cache_file (append_line (LineMessage message) (cache_file s)) s) ;;;
  modify (fun s => set_current_messages (current_messages s ++ [message]) s) ;;;
  (if str_eqb role (py "user") then _detect_and_process_entities content now else ret tt) ;;;
  _save_active_episode ;;;
  ret message.

Definition not_episode : Where := WNe (py "type") (MStr (py "Episode")).
Definition active_status : Where := WEq (py "status") (MStr (py "active")).

Definition recall (query : str) (top_k : nat) (include_deprecated : bool)
           (is_encoder_ready : bool) : M Recall :=
  let using_vector_search := is_encoder_ready in
  let entity_filter := if include_deprecated then None else Some active_status in
  let episode_filter := VectorStore.type_and_status (py "Episode") (py "completed") in
  let entity_filter_with_type :=
    if negb include_deprecated then WAnd [not_episode; active_status] else not_episode in
  project <- gets project_store ;;
  user <- gets user_store ;;
  project_entities <- lift (store_search env project query top_k (Some entity_filter_with_type)) ;;
  episodes <- lift (store_search env project query top_k (Some episode_filter)) ;;
  user_results <- lift (store_search env user query top_k entity_filter) ;;
  cur <- gets current_episode ;;
  messages <- gets current_messages ;;
  ret (mkRecall episodes (project_entities ++ user_results) cur (last_n 5 messages)
                (if negb using_vector_search then Some DEGRADED_NOTE else None)).

Definition search_by_type (entity_type : str) (query : option str) (top_k : nat)
  : M (list Item) :=
  store <- gets (if mem entity_type USER_LEVEL_TYPES then user_store else project_store) ;;
  let status := if str_eqb entity_type (py "Episode") then py "completed" else py "active" in
  match query with
  | Some (c :: q) =>
    lift (store_search env store (c :: q) top_k
                       (Some (VectorStore.type_and_status entity_type status)))
  | _ => ret (VectorStore.get_by_type store entity_type top_k status)
  end.

(** The reading loop of [cleanup_old_messages], with its two accumulators:
    the lines kept and the number removed.  The handler catches
    [JSONDecodeError] and [KeyError] only: a time stamp that is no ISO date
    raises [ValueError], and [msg["timestamp"]] on JSON that is not an
    object, or [fromisoformat] on a time stamp that is not text, raises
    [TypeError]. *)
Fixpoint sweep (cutoff : Time) (lines : list cache_line) (kept_messages : list cache_line)
         (removed_count : nat) : outcome (list cache_line * nat) :=
  match lines with
  | [] => Returned (kept_messages, removed_count)
  | LineMessage m :: rest =>
    if (cutoff <? m_timestamp m)%Z
    then sweep cutoff rest (kept_messages ++ [LineMessage m]) removed_count
    else sweep cutoff rest kept_messages (S removed_count)
  | LineUndecodable raw :: rest =>
    sweep cutoff rest (kept_messages ++ [LineUndecodable raw]) removed_count
  | LineNoTimestamp raw :: rest =>
    sweep cutoff rest (kept_messages ++ [LineNoTimestamp raw]) removed_count
  | LineBadTimestamp _ :: _ => Raised ValueError
  | LineNotObject _ :: _ => Raised TypeError
  | LineTimestampNotText _ :: _ => Raised TypeError
  | LineDated raw t :: rest =>
    if (cutoff <? t)%Z
    then sweep cutoff rest (kept_messages ++ [LineDated raw t]) removed_count
    else sweep cutoff rest kept_messages (S removed_count)
  end.

Definition cleanup_old_messages (days : Z) (now : Time) : M CleanupReport :=
  f <- gets cache_file ;;
  match f with
  | None => ret (mkCleanupReport (py "no_cache_file") None 0 0)
  | Some lines =>
    let cutoff := (now - days_span days)%Z in
    r <- lift (sweep cutoff lines [] 0) ;;
    modify (set_cache_file (Some (fst r))) ;;;
    ret (mkCleanupReport (py "cleaned") (Some days) (snd r) (List.length (fst r)))
  end.

End ManagerMessages.

(** ** The encoder supervisor ([_init_process_pool], [encode_text]) *)

Module Supervisor.

(** The warm-up task as its [Future] shows it. *)
Inductive Future :=
| Pending
| Succeeded
| Failed.

(** A [ProcessPoolExecutor]; [serial] tells the constructions apart. *)
Record Pool := mkPool {
  max_workers : nat;
  serial : nat
}.

(** The module globals, and two counters of history: the pools constructed
    and the warm-up tasks submitted so far. *)
Record State := mkState {
  _process_pool : option Pool;
  _warmup_future : option Future;
  _encoder_ready : bool;
  _encoder_loading : bool;
  spawned : nat;
  probes : nat
}.

Definition initial : State := mkState None None false false 0 0.

(** What the platform does when the first caller builds the pool. *)
Inductive Spawn :=
| SpawnOk
| ConstructorRaises
| SubmitRaises.

(** What [_warmup_future.result(timeout=60.0)] does for a caller that
    finds the warm-up unfinished. *)
Inductive Wait :=
| CompletesOk
| CompletesWithError
| TimesOut.

Definition is_encoder_ready (s : State) : bool := _encoder_ready s.
Definition is_encoder_loading (s : State) : bool := _encoder_loading s.

(** The done-callback [on_done] of the warm-up future, as one step: its two
    assignments together, which is what a thread sees that does not run
    in between them.  [Statements.callback_next] below takes them one by
    one. *)
Definition on_done (ok : bool) (s : State) : State :=
  mkState (_process_pool s) (_warmup_future s)
          (if ok then true else _encoder_ready s) false (spawned s) (probes s).

(** The warm-up task ends in the worker: the future is done, its callback runs. *)
Definition complete (ok : bool) (s : State) : State :=
  match _warmup_future s with
  | Some Pending =>
    on_done ok (mkState (_process_pool s) (Some (if ok then Succeeded else Failed))
                        (_encoder_ready s) (_encoder_loading s) (spawned s) (probes s))
  | _ => s
  end.

Definition WARMUP_FAILED : Exn := RuntimeError (py "编码器预热失败").
Definition ENCODE_FAILED : Exn := RuntimeError (py "编码失败").

(** [_init_process_pool()]: the whole body runs under [_pool_lock], so for
    the other callers a call is one step, and so it is taken here.  [sp]
    and [w] say what the platform and the wait do if the call gets to
    them.  The readers [is_encoder_ready] and [is_encoder_loading] and the
    callback take no lock: what they see between the assignments of a call
    is in [Statements.next] below. *)
Definition _init_process_pool (sp : Spawn) (w : Wait) (s : State) : State * outcome Pool :=
  match _process_pool s with
  | Some pool =>
    match _warmup_future s with
    | Some Pending =>
      match w with
      | CompletesOk =>
        let s1 := complete true s in
        (mkState (_process_pool s1) (_warmup_future s1) true false (spawned s1) (probes s1),
         Returned pool)
      | CompletesWithError =>
        let s1 := complete false s in
        (mkState (_process_pool s1) (_warmup_future s1) (_encoder_ready s1) false
                 (spawned s1) (probes s1),
         Raised WARMUP_FAILED)
      | TimesOut =>
        (mkState (_process_pool s) (_warmup_future s) (_encoder_ready s) false
                 (spawned s) (probes s),
         Raised WARMUP_FAILED)
      end
    | _ => (s, Returned pool)
    end
  | None =>
    match sp with
    | ConstructorRaises =>
      (mkState None (_warmup_future s) (_encoder_ready s) false (spawned s) (probes s),
       Raised OSError)
    | SubmitRaises =>
      (mkState (Some (mkPool 1 (spawned s))) (_warmup_future s) (_encoder_ready s) false
               (S (spawned s)) (probes s),
       Raised OSError)
    | SpawnOk =>
      let pool := mkPool 1 (spawned s) in
      (mkState (Some pool) (Some Pending) (_encoder_ready s) true
               (S (spawned s)) (S (probes s)),
       Returned pool)
    end
  end.

(** What the worker does with the job [encode_text] submits. *)
Inductive Job :=
| JobResult (v : Vector)
| JobRaises
| JobTimesOut.

(** [encode_text(text)]: the pool first, then the job on it.  The state is
    the one [_init_process_pool] leaves; the end of the warm-up is the
    separate step [complete]. *)
Definition encode_text (sp : Spawn) (w : Wait) (job : str -> Job) (text : str) (s : State)
  : State * outcome Vector :=
  match _init_process_pool sp w s with
  | (s', Raised e) => (s', Raised e)
  | (s', Returned _) =>
    match job text with
    | JobResult v => (s', Returned v)
    | JobRaises => (s', Raised ENCODE_FAILED)
    | JobTimesOut => (s', Raised ENCODE_FAILED)
    end
  end.

(** The steps of a run: a caller in [_init_process_pool], or the warm-up
    task ending on its own. *)
Inductive Event :=
| Call (sp : Spawn) (w : Wait)
| WarmupEnds (ok : bool).

Definition step (s : State) (e : Event) : State :=
  match e with
  | Call sp w => fst (_init_process_pool sp w s)
  | WarmupEnds ok => complete ok s
  end.

Definition run (evs : list Event) : State := fold_left step evs initial.

(** The warm-up is in flight: submitted and not done. *)
Definition in_flight (s : State) : bool :=
  match _warmup_future s with
  | Some Pending => true
  | _ => false
  end.

End Supervisor.

(** ** Concrete surroundings for the examples *)

Definition hex_digit (d : N) : char := if (d <? 10)%N then (48 + d)%N else (87 + d)%N.

Fixpoint hex_digits (width : nat) (n : N) : str :=
  match width with
  | O => []
  | S w => hex_digits w (n / 16) ++ [hex_digit (n mod 16)]
  end.

(** An id source that counts in hexadecimal. *)
Definition counting_uuid (n : nat) : str := hex_digits 8 (N.of_nat n).

(** [\w] on ASCII text. *)
Definition ascii_word (c : char) : bool :=
  ((48 <=? c) && (c <=? 57) || (65 <=? c) && (c <=? 90) || (97 <=? c) && (c <=? 122)
   || (c =? 95))%N.

Definition no_hits (c : Collection) (v : Vector) (k : nat) (w : option Where)
  : outcome (list (Doc * Z)) := Returned [].

(** The encoder answers every text. *)
Definition healthy_env : Env :=
  mkEnv (fun _ => Returned [0%Z]) no_hits (map ascii_lower) ascii_word counting_uuid.

(** The worker has crashed: every job on the pool raises. *)
Definition crashed_env : Env :=
  mkEnv (fun text =>
           snd (Supervisor.encode_text Supervisor.SpawnOk Supervisor.CompletesOk
                                       (fun _ => Supervisor.JobRaises) text
                                       Supervisor.initial))
        no_hits (map ascii_lower) ascii_word counting_uuid.

Definition empty_manager : Manager := on_disk [] [] None None None 0.

(** An episode created at time 0 that never saw a message. *)
Definition idle_episode : Episode :=
  mkEpisode (py "ep_0000cafe") (py "refactoring") [py "auto"] (py "active") 0%Z [].

(** The project directory as a crashed session leaves it: the recovery
    document holds [idle_episode] and no message. *)
Definition idle_disk : Manager :=
  on_disk [] [] None None (Some (Parsed (Some idle_episode, []))) 0.

(** A manager in the middle of [idle_episode]. *)
Definition busy_manager : Manager :=
  mkManager [] [] None None (Some (Parsed (Some idle_episode, []))) (Some idle_episode) [] [] 0.

(** A cached message whose time stamp lies [age] days before [now]. *)
Definition message_aged (now : Time) (age : Z) : Message :=
  mkMessage (py "msg_" ++ str_of_Z age) (py "user") (py "note") (now - days_span age)%Z None.

(** A manager whose message log is [lines]. *)
Definition with_log (lines : list cache_line) : Manager :=
  mkManager [] [] (Some lines) None None None [] [] 0.

(** The JSON text of a string that needs no escape. *)
Definition json_text (t : str) : str := [34%N] ++ t ++ [34%N].

(** The line [{"timestamp": "yesterday"}]: an object whose time stamp is
    text and no ISO date. *)
Definition undated_line : cache_line :=
  LineBadTimestamp
    (py "{" ++ json_text (py "timestamp") ++ py ": " ++ json_text (py "yesterday") ++ py "}").

(** What reading the date of a line raises past the handler of
    [cleanup_old_messages]. *)
Definition dating_error (l : cache_line) : option Exn :=
  match l with
  | LineBadTimestamp _ => Some ValueError
  | LineNotObject _ => Some TypeError
  | LineTimestampNotText _ => Some TypeError
  | _ => None
  end.

(** A line of the log can be dated, or is passed over by the handler. *)
Definition datable (l : cache_line) : bool :=
  match dating_error l with
  | Some _ => false
  | None => true
  end.

(** The lines [cleanup_old_messages] keeps: the dated ones later than the
    cutoff, and the lines its handler passes over. *)
Definition keeps (cutoff : Time) (l : cache_line) : bool :=
  match l with
  | LineMessage m => (cutoff <? m_timestamp m)%Z
  | LineDated _ t => (cutoff <? t)%Z
  | _ => true
  end.

(** The index and its documents are out of step: every query fails. *)
Definition desynced (c : Collection) (v : Vector) (k : nat) (w : option Where)
  : outcome (list (Doc * Z)) :=
  Raised (EngineError (py "Error finding id 42")).

Definition sample_doc (i content : string) : Doc :=
  mkDoc (py i) [0%Z] (py content)
        [(py "type", MStr (py "Decision")); (py "status", MStr (py "active"))].

Definition sample_collection : Collection :=
  [ sample_doc "ent_1" "Use Redis as the cache";
    sample_doc "ent_2" "nothing to see here";
    sample_doc "ent_3" "redis in front of POSTGRES" ].

(** A text without white space. *)
Definition no_space (t : str) : bool := forallb (fun c => negb (py_isspace c)) t.

(** Scores fall from the head of the list to its end. *)
Definition by_score_desc (a b : Scored) : Prop := snd b <= snd a.

(** The supervisor right after the first caller: the warm-up is in flight. *)
Definition warming_up : Supervisor.State :=
  fst (Supervisor._init_process_pool Supervisor.SpawnOk Supervisor.CompletesOk
                                     Supervisor.initial).

(** The warm-up outlasts the 60 seconds a caller waits for it. *)
Definition timed_out_env : Env :=
  mkEnv (fun text =>
           snd (Supervisor.encode_text Supervisor.SpawnOk Supervisor.TimesOut
                                       (fun _ => Supervisor.JobResult [0%Z]) text
                                       warming_up))
        no_hits (map ascii_lower) ascii_word counting_uuid.

(** A manager over [sample_collection] as its project store. *)
Definition sample_manager : Manager :=
  mkManager [] sample_collection None None None None [] [] 0.

(** The three filters of [recall]. *)
Definition project_entities_filter (include_deprecated : bool) : Where :=
  if negb include_deprecated then WAnd [not_episode; active_status] else not_episode.

Definition episodes_filter : Where :=
  VectorStore.type_and_status (py "Episode") (py "completed").

Definition user_entities_filter (include_deprecated : bool) : option Where :=
  if include_deprecated then None else Some active_status.

(** A candidate that a pattern of [rule] produced for the type [ty]. *)
Definition from_pattern (content ty : str) (rule : Rule) (c : Candidate) : Prop :=
  cand_type c = ty
  /\ detection_method c = py "pattern"
  /\ confidence c = (min_confidence rule + PATTERN_BONUS)%Q
  /\ source_snippet c = firstn 300 content
  /\ exists p m,
      In p (patterns rule)
      /\ In m (findall (pat_regex p) (pat_groups p) content)
      /\ 3 < List.length (extract m)
      /\ extracted_content c = firstn 200 (extract m).

(** A candidate that the keywords of [rule] produced for the type [ty]. *)
Definition from_keywords (content ty : str) (rule : Rule) (c : Candidate) : Prop :=
  cand_type c = ty
  /\ detection_method c = py "keyword"
  /\ confidence c = min_confidence rule
  /\ source_snippet c = firstn 300 content
  /\ has_keyword (keywords rule) content = true
  /\ exists sentence,
      first_keyword_sentence content rule = Some sentence
      /\ extracted_content c = firstn 200 sentence.

(** Every candidate comes from a rule of the table. *)
Definition justified (content : str) (rules : list (str * Rule)) (d : Detection) : Prop :=
  Forall (fun c => exists tr, In tr rules
                              /\ (from_pattern content (fst tr) (snd tr) c
                                  \/ from_keywords content (fst tr) (snd tr) c))
         (candidates d).

(** The candidates and the extracted strings go together, and no string
    was extracted twice. *)
Definition in_step (d : Detection) : Prop :=
  NoDup (detected_contents d)
  /\ map extracted_content (candidates d) = map (firstn 200) (detected_contents d).

Definition of_type (ty : str) (c : Candidate) : bool := str_eqb (cand_type c) ty.

(** A keyword candidate is the only candidate of its type. *)
Definition keyword_alone (d : Detection) : Prop :=
  forall c, In c (candidates d) -> detection_method c = py "keyword" ->
            filter (of_type (cand_type c)) (candidates d) = [c].

(** Both lists only grow. *)
Definition grows (d d' : Detection) : Prop :=
  incl (candidates d) (candidates d') /\ incl (detected_contents d) (detected_contents d').

(** The matches of a rule's patterns that are long enough were extracted. *)
Definition matches_extracted (content : str) (rule : Rule) (d : Detection) : Prop :=
  forall p m,
    In p (patterns rule) ->
    In m (findall (pat_regex p) (pat_groups p) content) ->
    3 < List.length (extract m) ->
    In (extract m) (detected_contents d).

(** With a keyword in the text, the first keyword sentence was extracted
    unless a pattern had produced a candidate of the type. *)
Definition sentence_extracted (content ty : str) (rule : Rule) (d : Detection) : Prop :=
  has_keyword (keywords rule) content = true ->
  forall sentence,
    first_keyword_sentence content rule = Some sentence ->
    In sentence (detected_contents d)
    \/ exists c, In c (candidates d) /\ cand_type c = ty
                 /\ detection_method c = py "pattern".

(** What holds after the rules [done] were applied. *)
Definition detection_ok (content : str) (all done : list (str * Rule)) (d : Detection)
  : Prop :=
  in_step d
  /\ justified content all d
  /\ keyword_alone d
  /\ (forall c, In c (candidates d) -> In (cand_type c) (map fst done))
  /\ (forall tr, In tr done -> matches_extracted content (snd tr) d)
  /\ (forall tr, In tr done -> sentence_extracted content (fst tr) (snd tr) d).

(** What a rule keeps true while its patterns run: no candidate of its
    type is a keyword candidate yet. *)
Definition pattern_phase (content : str) (all : list (str * Rule)) (ty : str)
           (d : Detection) : Prop :=
  in_step d
  /\ justified content all d
  /\ keyword_alone d
  /\ (forall c, In c (candidates d) -> cand_type c = ty ->
                detection_method c = py "pattern").

(** A Decision candidate as a pattern match yields it, at confidence 0.9. *)
Definition confident_candidate : Candidate :=
  mkCandidate (py "cand_00000001") (py "Decision") (py "use sqlite for the cache")
              (py "we decided to use sqlite for the cache")
              (min_confidence decision_rule + PATTERN_BONUS)%Q
              (py "pending") 0%Z (py "pattern").

(** ** Predicates and states the properties are stated with *)

Unset Implicit Arguments.

(** What [add_entity] leaves behind when the encoder answers. *)
Definition after_add_entity (env : Env) (entity_type content : str) (reason : option str)
           (related_ids : list str) (now : Time) (v : Vector) (s : Manager) : Manager :=
  let i := py "ent_" ++ uuid4_hex8 env (uuid_drawn s) in
  let d := mkDoc i v content
                 (entity_metadata entity_type reason related_ids (current_episode s) now) in
  let linked := option_map (append_entity_id i) (current_episode s) in
  mkManager
    (if mem entity_type USER_LEVEL_TYPES then coll_add (user_store s) d else user_store s)
    (if mem entity_type USER_LEVEL_TYPES then project_store s else coll_add (project_store s) d)
    (cache_file s) (pending_file s)
    (match current_episode s with
     | Some _ => Some (Parsed (linked, current_messages s))
     | None => state_file s
     end)
    linked (current_messages s) (pending_entities s) (S (uuid_drawn s)).

(** What [close_episode] leaves behind when the encoder answers. *)
Definition after_close (ep : Episode) (summary : str) (v : Vector) (now : Time)
           (s : Manager) : Manager :=
  mkManager (user_store s)
            (coll_add (project_store s)
                      (mkDoc (ep_id ep) v summary
                             (episode_metadata ep (current_messages s) now)))
            (cache_file s) (pending_file s) (Some (Parsed (None, [])))
            None [] (pending_entities s) (uuid_drawn s).

Import Supervisor.

(** What every run keeps true: a pool exists exactly when one was
    constructed, it has one worker, and a probe is only ever submitted to
    the one pool. *)
Definition single_pool (s : State) : Prop :=
  spawned s = (match _process_pool s with Some _ => 1 | None => 0 end)
  /\ probes s <= spawned s
  /\ (forall pool, _process_pool s = Some pool -> max_workers pool = 1)
  /\ (_warmup_future s <> None -> probes s = 1)
  /\ (_warmup_future s = None -> probes s = 0).

(** A pattern that opens with a backtick leaves text up to the first
    backtick alone. *)
Definition opens_with_backtick (r : regex) : Prop :=
  re_match r [] = None
  /\ forall c s, c <> backtick -> re_match r (c :: s) = None.

(** The message log, on disk and in memory. *)
Definition log_of (s : Manager) : option (list cache_line) * list Message :=
  (cache_file s, current_messages s).

(** ** The supervisor beyond the warm-up: the flags, and shutting down *)

(** What the two flags promise about the warm-up future and the pool. *)
Definition flags_consistent (s : State) : Prop :=
  (_encoder_ready s = true -> _warmup_future s = Some Succeeded)
  /\ (_encoder_loading s = true -> _warmup_future s = Some Pending)
  /\ (_warmup_future s <> None -> _process_pool s <> None).

(** [shutdown_encoder()], one step under [_pool_lock].  [w] is what the wait
    of at most five seconds for an unfinished warm-up does; its outcome is
    swallowed, and whatever happens in the [try], the [finally] resets the
    four globals. *)
Definition shutdown_encoder (w : Wait) (s : State) : State :=
  match _process_pool s with
  | Some _ =>
    let s1 := match _warmup_future s, w with
              | Some Pending, CompletesOk => complete true s
              | Some Pending, CompletesWithError => complete false s
              | _, _ => s
              end in
    mkState None None false false (spawned s1) (probes s1)
  | None => s
  end.

(** What [encode_text] gives for the job's answer once the pool is there. *)
Definition job_outcome (j : Job) : outcome Vector :=
  match j with
  | JobResult v => Returned v
  | JobRaises => Raised ENCODE_FAILED
  | JobTimesOut => Raised ENCODE_FAILED
  end.

(** ** [VectorStore]: updating, deleting, counting and listing *)

(** [d[k] = v] on a [dict]: the value is replaced where the key stands, a new
    key goes to the end. *)
Fixpoint meta_set (k : str) (v : meta_value) (md : metadata) : metadata :=
  match md with
  | [] => [(k, v)]
  | (k', v') :: md' =>
    if str_eqb k k' then (k', v) :: md' else (k', v') :: meta_set k v md'
  end.

(** [collection.update(ids=[i], ...)]: the fields passed replace the
    record's, the metadata passed is written key by key over the record's;
    an id the collection does not hold is ignored. *)
Definition coll_update (c : Collection) (i : str) (embedding : option Vector)
           (document : option str) (md : option metadata) : Collection :=
  map (fun d =>
         if has_id i d
         then mkDoc (doc_id d)
                    (match embedding with Some v => v | None => doc_embedding d end)
                    (match document with Some t => t | None => doc_content d end)
                    (match md with
                     | Some new => fold_left (fun acc kv => meta_set (fst kv) (snd kv) acc)
                                             new (doc_metadata d)
                     | None => doc_metadata d
                     end)
         else d) c.

(** [collection.delete(ids=[i])] *)
Definition coll_delete (c : Collection) (i : str) : Collection :=
  filter (fun d => negb (has_id i d)) c.

Module VectorStoreUpdates.
Section WithEngine.

Variable encoder : str -> outcome Vector.

(** [update(doc_id, content=None, metadata=None)]: [if content:] and
    [if metadata:] pass over [None] and over the empty value alike. *)
Definition update (c : Collection) (i : str) (content : option str)
           (md : option metadata) : outcome Collection :=
  let md' := match md with
             | Some (kv :: rest) => Some (kv :: rest)
             | _ => None
             end in
  match content with
  | Some (ch :: rest) =>
    match encoder (ch :: rest) with
    | Raised e => Raised e
    | Returned v => Returned (coll_update c i (Some v) (Some (ch :: rest)) md')
    end
  | _ => Returned (coll_update c i None None md')
  end.

End WithEngine.

Definition delete (c : Collection) (i : str) : Collection := coll_delete c i.

Definition count (c : Collection) : nat := List.length c.

Definition list_all (c : Collection) (limit : nat) : list Item :=
  map item_of_doc (coll_get_where c None limit).

End VectorStoreUpdates.

(** ** The encoder worker's line protocol ([_encoder_worker.main]) *)

Module Worker.
Section Loop.

(** A decoded JSON value, and what the model and the comparison with
    ["quit"] make of it. *)
Variable Json : Type.
Variable encode : Json -> option Vector.
Variable encode_all : Json -> option (list Vector).
Variable is_quit : Json -> bool.

(** A line of standard input after [strip()]: empty, not JSON, JSON that is
    not an object, or an object with what it holds under ["text"],
    ["texts"] and ["cmd"]. *)
Inductive Line :=
| Blank
| Undecodable
| NotAnObject
| Object (text texts cmd : option Json).

(** A line of standard output. *)
Inductive Reply :=
| Ready
| LoadFailed
| VectorOf (v : Vector)
| VectorsOf (vs : list Vector)
| UnknownRequest
| Failure.

(** The [for line in sys.stdin] loop. *)
Fixpoint serve (lines : list Line) : list Reply :=
  match lines with
  | [] => []
  | Blank :: rest => serve rest
  | Undecodable :: rest => Failure :: serve rest
  | NotAnObject :: rest => Failure :: serve rest
  | Object (Some t) _ _ :: rest =>
    match encode t with
    | Some v => VectorOf v :: serve rest
    | None => Failure :: serve rest
    end
  | Object None (Some ts) _ :: rest =>
    match encode_all ts with
    | Some vs => VectorsOf vs :: serve rest
    | None => Failure :: serve rest
    end
  | Object None None cmd :: rest =>
    if match cmd with Some c => is_quit c | None => false end
    then []
    else UnknownRequest :: serve rest
  end.

Definition main (model_loads : bool) (lines : list Line) : list Reply :=
  if model_loads then Ready :: serve lines else [LoadFailed].

(** The line asks the worker to stop. *)
Definition quits (l : Line) : bool :=
  match l with
  | Object None None (Some c) => is_quit c
  | _ => false
  end.

Definition blank (l : Line) : bool :=
  match l with
  | Blank => true
  | _ => false
  end.

(** The lines up to the first one that asks to stop. *)
Fixpoint before_quit (lines : list Line) : list Line :=
  match lines with
  | [] => []
  | l :: rest => if quits l then [] else l :: before_quit rest
  end.

(** The reply a request that is neither blank nor a quit is owed. *)
Definition reply_to (l : Line) : Reply :=
  match l with
  | Object (Some t) _ _ =>
    match encode t with Some v => VectorOf v | None => Failure end
  | Object None (Some ts) _ =>
    match encode_all ts with Some vs => VectorsOf vs | None => Failure end
  | Object None None _ => UnknownRequest
  | _ => Failure
  end.

End Loop.

Arguments Blank {Json}.
Arguments Undecodable {Json}.
Arguments NotAnObject {Json}.
Arguments Object {Json} text texts cmd.
Arguments serve {Json} encode encode_all is_quit lines.
Arguments main {Json} encode encode_all is_quit model_loads lines.
Arguments quits {Json} is_quit l.
Arguments blank {Json} l.
Arguments before_quit {Json} is_quit lines.
Arguments reply_to {Json} encode encode_all l.

End Worker.

(** ** [MemoryManager]: the other methods *)

(** [get_current_episode()]: the episode as the file has it now. *)
Definition get_current_episode : M (option Episode) :=
  _load_active_episode ;;; gets current_episode.

Definition get_pending_entities : M (list Candidate) := gets pending_entities.

(** The metadata [deprecate_entity] writes back. *)
Definition deprecated_metadata (md : metadata) (superseded_by : option str) (now : Time)
  : metadata :=
  let md := meta_set (py "status") (MStr (py "deprecated")) md in
  let md := meta_set (py "deprecated_at") (MTime now) md in
  match superseded_by with
  | Some (c :: rest) => meta_set (py "superseded_by") (MStr (c :: rest)) md
  | _ => md
  end.

Definition deprecate_entity (env : Env) (entity_id : str) (superseded_by : option str)
           (now : Time) : M unit :=
  project <- gets project_store ;;
  match VectorStore.get project entity_id with
  | Some entity =>
    c <- lift (VectorStoreUpdates.update (encoder env) project entity_id None
                 (Some (deprecated_metadata (item_metadata entity) superseded_by now))) ;;
    modify (set_project_store c)
  | None =>
    user <- gets user_store ;;
    match VectorStore.get user entity_id with
    | Some entity =>
      c <- lift (VectorStoreUpdates.update (encoder env) user entity_id None
                   (Some (deprecated_metadata (item_metadata entity) superseded_by now))) ;;
      modify (set_user_store c)
    | None => ret tt
    end
  end.

(** What [get_episode_detail] returns: the archived record with the
    messages and the entities that belong to it. *)
Record EpisodeDetail := mkEpisodeDetail {
  ed_episode : Item;
  ed_messages : list cache_line;
  ed_entities : list Item
}.

(** [get_episode_detail] returns [None] or the detail, or it raises:
    [JSONDecodeError] on a line of the log that is not JSON, and
    [AttributeError] on a line that is JSON but not an object ([msg.get])
    or on an [entity_ids] that is not text ([split]). *)
Inductive Detail :=
| NoSuchEpisode
| DetailOf (d : EpisodeDetail)
| LogLineNotJson
| EntityIdsNotText
| LogLineNotObject.

(** What reading one line of the log gives. *)
Inductive LineRead :=
| ReadEpisodeId (i : option str)
| ReadNotJson
| ReadNotObject.

(** What the reading loop ends in. *)
Inductive Scan :=
| Scanned (messages : list cache_line)
| StoppedNotJson
| StoppedNotObject.

Section EpisodeDetails.

(** What a line that decodes, but was not written by [cache_message], holds
    under ["episode_id"]. *)
Variable raw_episode_id : str -> option str.

(** [json.loads(line).get("episode_id")] *)
Definition line_episode_id (l : cache_line) : LineRead :=
  match l with
  | LineMessage m => ReadEpisodeId (m_episode_id m)
  | LineUndecodable _ => ReadNotJson
  | LineNotObject _ => ReadNotObject
  | LineNoTimestamp raw => ReadEpisodeId (raw_episode_id raw)
  | LineBadTimestamp raw => ReadEpisodeId (raw_episode_id raw)
  | LineTimestampNotText raw => ReadEpisodeId (raw_episode_id raw)
  | LineDated raw _ => ReadEpisodeId (raw_episode_id raw)
  end.

(** The reading loop with its accumulator. *)
Fixpoint messages_of (episode_id : str) (lines : list cache_line)
         (messages : list cache_line) : Scan :=
  match lines with
  | [] => Scanned messages
  | l :: rest =>
    match line_episode_id l with
    | ReadNotJson => StoppedNotJson
    | ReadNotObject => StoppedNotObject
    | ReadEpisodeId e =>
      if match e with Some i => str_eqb i episode_id | None => false end
      then messages_of episode_id rest (messages ++ [l])
      else messages_of episode_id rest messages
    end
  end.

(** The entities the ids resolve to, the project store first. *)
Definition entities_of (s : Manager) (entity_ids : list str) : list Item :=
  flat_map (fun eid =>
              match eid with
              | [] => []
              | _ =>
                match VectorStore.get (project_store s) eid with
                | Some ent => [ent]
                | None =>
                  match VectorStore.get (user_store s) eid with
                  | Some ent => [ent]
                  | None => []
                  end
                end
              end) entity_ids.

Definition comma : char := 44%N.

Definition get_episode_detail (episode_id : str) (s : Manager) : Detail :=
  match VectorStore.get (project_store s) episode_id with
  | None => NoSuchEpisode
  | Some episode =>
    match messages_of episode_id
                      (match cache_file s with Some lines => lines | None => [] end) [] with
    | StoppedNotJson => LogLineNotJson
    | StoppedNotObject => LogLineNotObject
    | Scanned messages =>
      match meta_get (py "entity_ids") (item_metadata episode) with
      | Some (MStr ids) =>
        DetailOf (mkEpisodeDetail episode messages
                    (entities_of s (split_on (fun c => (c =? comma)%N) [] ids)))
      | None =>
        DetailOf (mkEpisodeDetail episode messages
                    (entities_of s (split_on (fun c => (c =? comma)%N) [] [])))
      | Some _ => EntityIdsNotText
      end
    end
  end.

End EpisodeDetails.

(** What [clear_message_cache] returns. *)
Record ClearReport := mkClearReport {
  clr_status : str;
  clr_lines_removed : nat
}.

Definition clear_message_cache : M ClearReport :=
  f <- gets cache_file ;;
  match f with
  | Some lines =>
    modify (set_cache_file (Some [])) ;;;
    ret (mkClearReport (py "cleared") (List.length lines))
  | None => ret (mkClearReport (py "cleared") 0)
  end.

(** The sort key of [list_all_episodes]: the creation time, 0 when the
    record has none that parses. *)
Definition get_created_at (ep : Item) : Z :=
  match meta_get (py "created_at") (item_metadata ep) with
  | Some (MTime t) => t
  | _ => 0%Z
  end.

(** [sorted(..., key=get_created_at, reverse=...)]: the sort is stable in
    both directions. *)
Fixpoint insert_by_created_at (reverse : bool) (x : Item) (l : list Item) : list Item :=
  match l with
  | [] => [x]
  | y :: l' =>
    if (if reverse then get_created_at x <? get_created_at y
        else get_created_at y <? get_created_at x)%Z
    then y :: insert_by_created_at reverse x l'
    else x :: y :: l'
  end.

Definition sorted_by_created_at (reverse : bool) (l : list Item) : list Item :=
  fold_right (insert_by_created_at reverse) [] l.

Definition list_all_episodes (order : str) (limit : nat) : M (list Item) :=
  project <- gets project_store ;;
  let all_episodes :=
    VectorStore.get_by_type project (py "Episode") (limit * 2) (py "completed") in
  ret (firstn limit (sorted_by_created_at (str_eqb order (py "desc")) all_episodes)).

(** [d[t] = d.get(t, 0) + 1] *)
Fixpoint bump (t : str) (d : list (str * nat)) : list (str * nat) :=
  match d with
  | [] => [(t, 1)]
  | (k, n) :: d' => if str_eqb t k then (k, S n) :: d' else (k, n) :: bump t d'
  end.

(** What [get_stats] returns (the two paths and the tip are constants). *)
Record Stats := mkStats {
  st_project_count : nat;
  st_user_count : nat;
  st_current_episode : option str;
  st_current_messages : nat;
  st_pending_total : nat;
  st_pending_by_type : list (str * nat);
  st_auto_confirm_threshold : Q;
  st_encoder_ready : bool
}.

Definition get_stats (is_encoder_ready : bool) : M Stats :=
  pending <- gets pending_entities ;;
  let pending_by_type := fold_left (fun d p => bump (cand_type p) d) pending [] in
  project <- gets project_store ;;
  user <- gets user_store ;;
  cur <- gets current_episode ;;
  messages <- gets current_messages ;;
  ret (mkStats (VectorStoreUpdates.count project) (VectorStoreUpdates.count user)
               (option_map ep_title cur) (List.length messages)
               (List.length pending) pending_by_type
               AUTO_CONFIRM_THRESHOLD is_encoder_ready).

(** ** The session monitor ([hooks/session_monitor.py]) *)

Module SessionMonitor.

Definition reason_text (reason : str) : str :=
  if str_eqb reason (py "terminal_closed")
  then py "[由监控进程自动关闭 - 终端被关闭]"
  else if str_eqb reason (py "session_end_signal")
  then py "[由监控进程关闭 - 收到 SessionEnd 信号]"
  else py "[由监控进程关闭 - " ++ reason ++ py "]".

Definition has_role (role : str) (m : Message) : bool := str_eqb (m_role m) role.

(** [msg.split('\n')[0][:80]] *)
Definition first_line (msg : str) : str :=
  firstn 80 (hd [] (split_on (fun c => (c =? newline)%N) [] msg)).

Definition count_text (n : nat) : str := str_of_Z (Z.of_nat n).

(** [generate_summary(manager, reason)] *)
Definition generate_summary (episode : option Episode) (messages : list Message)
           (reason : str) : str :=
  match episode with
  | None => []
  | Some ep =>
    match messages with
    | [] => ep_title ep ++ py " - 无对话记录"
    | _ =>
      let user_count := List.length (filter (has_role (py "user")) messages) in
      let assistant_count := List.length (filter (has_role (py "assistant")) messages) in
      let user_messages :=
        map (fun m => firstn 100 (m_content m)) (filter (has_role (py "user")) messages) in
      join [newline]
           ([ py "## " ++ ep_title ep;
              [];
              py "**对话统计**: " ++ count_text user_count ++ py " 条用户消息, "
                 ++ count_text assistant_count ++ py " 条助手回复";
              [];
              reason_text reason;
              [];
              py "**主要话题**:" ]
            ++ map (fun msg => py "- " ++ first_line msg) (firstn 5 user_messages)
            ++ (if 5 <? List.length user_messages
                then [py "- ... 等 " ++ count_text (List.length user_messages - 5)
                         ++ py " 条更多"]
                else [])
            ++ (match ep_entity_ids ep with
                | [] => []
                | ids => [[]; py "**关联实体**: " ++ count_text (List.length ids) ++ py " 个"]
                end))
    end
  end.

(** The body of the [try] in [close_episode(project_path, reason)]: a
    manager is built over the project's files at [started], the closing
    itself happens at [closing]. *)
Definition closing_steps (env : Env) (reason : str) (started closing : Time) : M unit :=
  __init__ env started ;;;
  current <- get_current_episode ;;
  match current with
  | None => ret tt
  | Some _ =>
    messages <- gets current_messages ;;
    if is_empty messages
    then modify (set_current_episode None) ;;; _save_active_episode
    else
      episode <- gets current_episode ;;
      let summary := generate_summary episode messages reason in
      close_episode env (Some summary) closing ;;; ret tt
  end.

(** [close_episode(project_path, reason)]: whatever is raised is logged
    and swallowed; what counts is what is left on disk. *)
Definition close_episode (env : Env) (reason : str) (started closing : Time)
           (disk : Manager) : Manager :=
  fst (closing_steps env reason started closing disk).

(** [episode_still_active(project_path)] *)
Definition episode_still_active (disk : Manager) : bool :=
  match state_file disk with
  | Some (Parsed (Some episode, _)) => str_eqb (ep_status episode) (py "active")
  | _ => false
  end.

End SessionMonitor.

(** ** What a restart finds *)

(** The recovery document holds the episode and the messages in memory. *)
Definition recovery_saved (s : Manager) : Prop :=
  state_file s = Some (Parsed (current_episode s, current_messages s)).

(** The pending file holds the queue in memory; without a readable file
    the queue is empty. *)
Definition queue_saved (s : Manager) : Prop :=
  match pending_file s with
  | Some (Parsed ps) => ps = pending_entities s
  | Some Corrupt => pending_entities s = []
  | None => pending_entities s = []
  end.

(** The active episode, if any, saw activity less than 30 minutes ago. *)
Definition fresh_at (now : Time) (s : Manager) : Prop :=
  match current_episode s with
  | Some ep =>
    (now - last_activity ep (current_messages s) < minutes STALE_EPISODE_MINUTES)%Z
  | None => True
  end.

(** What a manager leaves for the next one: the stores and the files. *)
Definition disk_of (s : Manager) : Manager :=
  on_disk (user_store s) (project_store s) (cache_file s) (pending_file s)
          (state_file s) (uuid_drawn s).

(** ** Predicates on the message log *)

(** The line is a JSON object. *)
Definition is_object (l : cache_line) : bool :=
  match l with
  | LineUndecodable _ => false
  | LineNotObject _ => false
  | _ => true
  end.

(** The line carries the episode's id. *)
Definition belongs (raw_episode_id : str -> option str) (episode_id : str)
           (l : cache_line) : bool :=
  match line_episode_id raw_episode_id l with
  | ReadEpisodeId (Some i) => str_eqb i episode_id
  | _ => false
  end.


(** The log as a reader finds it: no file reads as no line. *)
Definition log_lines (s : Manager) : list cache_line :=
  match cache_file s with
  | Some lines => lines
  | None => []
  end.

(** An episode in progress: two entities, one message, and a log that also
    holds a line of another writer. *)
Definition working_episode : Episode :=
  mkEpisode (py "ep_0000beef") (py "caching") [py "auto"] (py "active") 0%Z
            [py "ent_1"; py "ent_3"].

Definition working_message : Message :=
  mkMessage (py "msg_1") (py "user") (py "which cache?") (minutes 1)
            (Some (py "ep_0000beef")).

Definition working_manager : Manager :=
  mkManager [] sample_collection
            (Some [LineMessage working_message; LineNoTimestamp (py "{}")]) None
            (Some (Parsed (Some working_episode, [working_message])))
            (Some working_episode) [working_message] [] 0.

(** ** Orders and counts *)

(** The order [list_all_episodes] promises between an item and a later
    one: newest first under ["desc"], oldest first under anything else. *)
Definition in_order (reverse : bool) (a b : Item) : Prop :=
  if reverse then (get_created_at b <= get_created_at a)%Z
  else (get_created_at a <= get_created_at b)%Z.

(** [d.get(t, 0)] *)
Definition count_of (t : str) (d : list (str * nat)) : nat :=
  match find (fun kv => str_eqb t (fst kv)) d with
  | Some kv => snd kv
  | None => 0
  end.

(** ** Deprecated records *)

(** [after] is [before] deprecated at [now]: the same id and content, the
    status ["deprecated"], the time, the successor if one was named, and
    every other key as before. *)
Definition deprecated_from (before after : Item) (superseded_by : option str)
           (now : Time) : Prop :=
  item_id after = item_id before
  /\ item_content after = item_content before
  /\ meta_get (py "status") (item_metadata after) = Some (MStr (py "deprecated"))
  /\ meta_get (py "deprecated_at") (item_metadata after) = Some (MTime now)
  /\ (forall c rest, superseded_by = Some (c :: rest) ->
        meta_get (py "superseded_by") (item_metadata after) = Some (MStr (c :: rest)))
  /\ (forall k, k <> py "status" -> k <> py "deprecated_at" ->
                (k <> py "superseded_by" \/ superseded_by = None
                 \/ superseded_by = Some []) ->
                meta_get k (item_metadata after) = meta_get k (item_metadata before))
  /\ where_matches active_status (item_metadata after) = false.

(** ** The score as the specification words it *)

(** The number of places at which [sub] occurs in [s]. *)
Fixpoint occurrences (sub s : str) : nat :=
  (if startswith sub s then 1 else 0)
  + match s with
    | [] => 0
    | _ :: s' => occurrences sub s'
    end.

(** The count of token occurrences, case-insensitively. *)
Definition occurrence_score (lower : str -> str) (keywords : list str) (content : str)
  : nat :=
  list_sum (map (fun kw => occurrences (lower kw) (lower content)) keywords).

(** Two records: one says [redis] four times, the other names both
    tokens once. *)
Definition repeating_collection : Collection :=
  [ sample_doc "ent_1" "redis redis redis redis";
    sample_doc "ent_2" "redis with postgres" ].

(** ** The routing loop as a whole *)

(** The candidate stays below the threshold. *)
Definition below_threshold (c : Candidate) : bool :=
  negb (Qle_bool AUTO_CONFIRM_THRESHOLD (confidence c)).

(** The candidate's turn of the loop returns: it is queued, or the encoder
    answers for its text. *)
Definition turn_returns (env : Env) (c : Candidate) : bool :=
  below_threshold c
  || match encoder env (extracted_content c) with
     | Returned _ => true
     | Raised _ => false
     end.

(** The manager after the turns of [cs], one after the other. *)
Definition routed (env : Env) (now : Time) (cs : list Candidate) (s : Manager) : Manager :=
  fold_left (fun s' c => fst (route env now c s')) cs s.

(** ** Detection in the order of the rule table *)

(** One extraction of a pass: the type and the rule it is made for,
    whether a pattern or the keywords made it, and the text. *)
Record Extraction := mkExtraction {
  x_type : str;
  x_rule : Rule;
  x_by_pattern : bool;
  x_text : str
}.

(** A match counts when its text has more than 3 characters. *)
Definition long_enough (t : str) : bool := 3 <? List.length t.

(** The texts the patterns of a rule find: pattern after pattern, and for
    one pattern match after match. *)
Definition pattern_texts (content : str) (rule : Rule) : list str :=
  flat_map (fun p => map extract (findall (pat_regex p) (pat_groups p) content))
           (patterns rule).

(** The texts of [ts] that were not extracted already: not in [seen], and
    not earlier in [ts]. *)
Fixpoint first_time (seen ts : list str) : list str :=
  match ts with
  | [] => []
  | t :: rest =>
    if mem t seen then first_time seen rest else t :: first_time (seen ++ [t]) rest
  end.

(** What one rule extracts after the texts [seen]: the new texts of its
    patterns; only if there is none, and the text holds a keyword, the
    first keyword sentence, unless it was extracted already. *)
Definition rule_extractions (content : str) (seen : list str) (tr : str * Rule)
  : list Extraction :=
  match first_time seen (filter long_enough (pattern_texts content (snd tr))) with
  | t :: ts => map (mkExtraction (fst tr) (snd tr) true) (t :: ts)
  | [] =>
    if has_keyword (keywords (snd tr)) content
    then match first_keyword_sentence content (snd tr) with
         | Some sentence =>
           if mem sentence seen then []
           else [mkExtraction (fst tr) (snd tr) false sentence]
         | None => []
         end
    else []
  end.

(** The extractions of a pass over the rules, in order. *)
Fixpoint extractions (content : str) (seen : list str) (rules : list (str * Rule))
  : list Extraction :=
  match rules with
  | [] => []
  | tr :: rest =>
    rule_extractions content seen tr
    ++ extractions content (seen ++ map x_text (rule_extractions content seen tr)) rest
  end.

(** The candidate of the [i]-th extraction. *)
Definition candidate_of (env : Env) (base : nat) (now : Time) (content : str) (i : nat)
           (x : Extraction) : Candidate :=
  mkCandidate (py "cand_" ++ uuid4_hex8 env (base + i)) (x_type x)
              (firstn 200 (x_text x)) (firstn 300 content)
              (if x_by_pattern x then (min_confidence (x_rule x) + PATTERN_BONUS)%Q
               else min_confidence (x_rule x))
              (py "pending") now
              (if x_by_pattern x then py "pattern" else py "keyword").

Fixpoint numbered (A B : Type) (f : nat -> A -> B) (i : nat) (l : list A) : list B :=
  match l with
  | [] => []
  | a :: rest => f i a :: numbered A B f (S i) rest
  end.

Arguments numbered {A B} f i l.

(** The loop state [d] holds the candidates of the extractions [xs]. *)
Definition holds (env : Env) (base : nat) (now : Time) (content : str) (d : Detection)
           (xs : list Extraction) : Prop :=
  candidates d = numbered (candidate_of env base now content) 0 xs
  /\ detected_contents d = map x_text xs.

(** ** The supervisor, statement by statement

    [Supervisor._init_process_pool] and [Supervisor.on_done] above take a
    call, and the callback, as one step each: that is what a caller sees
    that runs with no other thread in between.  [is_encoder_ready] and
    [is_encoder_loading] take no lock, and [on_done] runs on the thread of
    the executor, outside [_pool_lock]; what those readers can see is
    fixed by the single assignments to the globals.  Here every assignment
    is a step of its own, and the caller that holds the lock, the worker
    and the callback move in any order. *)

Module Statements.

(** The statement of [_init_process_pool] (store.py, lines 135-194) at which
    the caller that holds [_pool_lock] stands. *)
Inductive Holder :=
| Outside          (* nobody holds the lock *)
| Entered          (* line 139 taken, line 140 not yet read *)
| Waiting          (* in [_warmup_future.result(timeout=60.0)], line 146 *)
| WaitedOk         (* line 146 returned, line 147 not yet run *)
| WaiterReadySet   (* line 147 run, line 148 not yet run *)
| WaitFailed       (* line 146 raised, line 151 not yet run *)
| LoadingSet       (* line 156 run, the pool not yet constructed *)
| PoolBuilt        (* lines 165-170 run, line 174 not yet run *)
| Submitted        (* line 174 run, line 188 not yet run *)
| InlineReadySet   (* line 188 found the future done and runs [on_done]
                      itself: line 181 run, line 186 not yet run *)
| Raising          (* in the handler of line 191, line 192 not yet run *).

(** The callback [on_done] (lines 177-186) on the thread of the executor. *)
Inductive Callback :=
| NotAdded         (* line 188 has not registered it *)
| Added            (* registered, not yet started *)
| CallbackReadySet (* line 181 run, line 186 not yet run *)
| CallbackDone     (* line 186 run *).

Record Threads := mkThreads {
  globals : State;
  holder : Holder;
  callback : Callback
}.

Definition initial : Threads := mkThreads Supervisor.initial Outside NotAdded.

Definition set_ready (s : State) : State :=
  mkState (_process_pool s) (_warmup_future s) true (_encoder_loading s)
          (spawned s) (probes s).

Definition set_loading (b : bool) (s : State) : State :=
  mkState (_process_pool s) (_warmup_future s) (_encoder_ready s) b
          (spawned s) (probes s).

Definition set_future (f : Future) (s : State) : State :=
  mkState (_process_pool s) (Some f) (_encoder_ready s) (_encoder_loading s)
          (spawned s) (probes s).

(** Lines 165-170: [_process_pool = ProcessPoolExecutor(max_workers=1, ...)]. *)
Definition build_pool (s : State) : State :=
  mkState (Some (mkPool 1 (spawned s))) (_warmup_future s) (_encoder_ready s)
          (_encoder_loading s) (S (spawned s)) (probes s).

(** Line 174: [_warmup_future = _process_pool.submit(...)]. *)
Definition submit (s : State) : State :=
  mkState (_process_pool s) (Some Pending) (_encoder_ready s) (_encoder_loading s)
          (spawned s) (S (probes s)).

(** What can happen next. *)
Inductive Move :=
| Enter                 (* a caller takes [_pool_lock] *)
| Next (raises : bool)  (* the caller that holds the lock runs its next
                           statement; [raises] says whether the constructor
                           or [submit] raises, or the wait times out, when
                           that statement is one of these *)
| WorkerEnds (ok : bool) (* the warm-up task ends in the worker: the future
                            is done *)
| CallbackNext          (* the executor runs the next statement of [on_done] *).

(** The next statement of the caller that holds the lock. *)
Definition next (raises : bool) (y : Threads) : Threads :=
  let s := globals y in
  let cb := callback y in
  match holder y with
  | Outside => y
  | Entered =>
    match _process_pool s with
    | Some _ =>
      match _warmup_future s with
      | Some Pending => mkThreads s Waiting cb
      | _ => mkThreads s Outside cb
      end
    | None => mkThreads (set_loading true s) LoadingSet cb
    end
  | Waiting =>
    match _warmup_future s with
    | Some Succeeded => mkThreads s WaitedOk cb
    | Some Failed => mkThreads s WaitFailed cb
    | _ => if raises then mkThreads s WaitFailed cb else y
    end
  | WaitedOk => mkThreads (set_ready s) WaiterReadySet cb
  | WaiterReadySet => mkThreads (set_loading false s) Outside cb
  | WaitFailed => mkThreads (set_loading false s) Outside cb
  | LoadingSet =>
    if raises then mkThreads s Raising cb else mkThreads (build_pool s) PoolBuilt cb
  | PoolBuilt =>
    if raises then mkThreads s Raising cb else mkThreads (submit s) Submitted cb
  | Submitted =>
    match _warmup_future s with
    | Some Succeeded => mkThreads (set_ready s) InlineReadySet cb
    | Some Failed => mkThreads (set_loading false s) Outside CallbackDone
    | _ => mkThreads s Outside Added
    end
  | InlineReadySet => mkThreads (set_loading false s) Outside CallbackDone
  | Raising => mkThreads (set_loading false s) Outside cb
  end.

(** The next statement of [on_done] on the thread of the executor. *)
Definition callback_next (y : Threads) : Threads :=
  let s := globals y in
  match callback y, _warmup_future s with
  | Added, Some Succeeded => mkThreads (set_ready s) (holder y) CallbackReadySet
  | Added, Some Failed => mkThreads (set_loading false s) (holder y) CallbackDone
  | CallbackReadySet, _ => mkThreads (set_loading false s) (holder y) CallbackDone
  | _, _ => y
  end.

Definition step (y : Threads) (m : Move) : Threads :=
  match m with
  | Enter =>
    match holder y with
    | Outside => mkThreads (globals y) Entered (callback y)
    | _ => y
    end
  | Next raises => next raises y
  | WorkerEnds ok =>
    match _warmup_future (globals y) with
    | Some Pending =>
      mkThreads (set_future (if ok then Succeeded else Failed) (globals y))
                (holder y) (callback y)
    | _ => y
    end
  | CallbackNext => callback_next y
  end.

Definition run (moves : list Move) : Threads := fold_left step moves initial.

(** The caller that holds the lock is building the pool: between line 156
    and the end of the call. *)
Definition building (h : Holder) : bool :=
  match h with
  | LoadingSet | PoolBuilt | Submitted | InlineReadySet | Raising => true
  | _ => false
  end.

(** The callback is registered and has not run to its end. *)
Definition reporting (cb : Callback) : bool :=
  match cb with
  | Added | CallbackReadySet => true
  | _ => false
  end.

(** Some thread stands between [_encoder_ready = True] and the
    [_encoder_loading = False] that follows it. *)
Definition between_writes (y : Threads) : bool :=
  match holder y, callback y with
  | WaiterReadySet, _ => true
  | InlineReadySet, _ => true
  | _, CallbackReadySet => true
  | _, _ => false
  end.

(** No caller is inside [_init_process_pool], and [on_done] is not half way. *)
Definition at_rest (y : Threads) : bool :=
  match holder y, callback y with
  | Outside, CallbackReadySet => false
  | Outside, _ => true
  | _, _ => false
  end.

Definition has_pool (s : State) : bool :=
  match _process_pool s with Some _ => true | None => false end.

Definition has_future (s : State) : bool :=
  match _warmup_future s with Some _ => true | None => false end.

Definition succeeded (s : State) : bool :=
  match _warmup_future s with Some Succeeded => true | _ => false end.

Definition pending (s : State) : bool :=
  match _warmup_future s with Some Pending => true | _ => false end.

(** What holds of the globals and the threads after every move. *)
Definition sound (y : Threads) : bool :=
  let s := globals y in
  implb (_encoder_ready s) (succeeded s)
  && implb (has_future s) (has_pool s)
  && implb (_encoder_loading s) (building (holder y) || reporting (callback y))
  && implb (_encoder_ready s && _encoder_loading s) (between_writes y)
  && match holder y with
     | WaitedOk | WaiterReadySet | InlineReadySet => succeeded s
     | LoadingSet => negb (has_pool s)
     | PoolBuilt => has_pool s && negb (has_future s)
     | Submitted => has_future s
     | Raising => negb (has_future s)
     | _ => true
     end
  && match callback y with
     | NotAdded => implb (has_future s) (building (holder y))
     | Added => has_future s && negb (building (holder y))
     | CallbackReadySet => succeeded s && negb (building (holder y))
     | CallbackDone => has_future s && negb (pending s) && negb (building (holder y))
     end.

(** The schedule on which the one-step supervisor above runs: the moves of
    a call with no other thread in between, the wait of a caller ended by
    the worker and the whole callback when it is said to complete; and the
    moves of the warm-up ending with its callback run at once. *)
Definition moves_of (s : State) (e : Event) : list Move :=
  match e with
  | WarmupEnds ok => [WorkerEnds ok; CallbackNext; CallbackNext]
  | Call sp w =>
    match _process_pool s with
    | None =>
      match sp with
      | ConstructorRaises => [Enter; Next false; Next true; Next false]
      | SubmitRaises => [Enter; Next false; Next false; Next true; Next false]
      | SpawnOk => [Enter; Next false; Next false; Next false; Next false]
      end
    | Some _ =>
      match w with
      | CompletesOk =>
        [Enter; Next false; WorkerEnds true; CallbackNext; CallbackNext;
         Next false; Next false; Next false]
      | CompletesWithError =>
        [Enter; Next false; WorkerEnds false; CallbackNext; Next false; Next false]
      | TimesOut => [Enter; Next false; Next true; Next false]
      end
    end
  end.

Fixpoint schedule (s : State) (evs : list Event) : list Move :=
  match evs with
  | [] => []
  | e :: rest => moves_of s e ++ schedule (Supervisor.step s e) rest
  end.

(** Nothing is under way but, at most, the warm-up in the worker. *)
Definition quiet (y : Threads) : bool :=
  sound y && at_rest y
  && match callback y with
     | Added => pending (globals y)
     | _ => true
     end.

End Statements.

(** * Properties *)

(** ** Text *)

Lemma str_eqb_eq (a b : str) : str_eqb a b = true <-> a = b.
Proof.
  revert b; induction a as [|x a IH]; intros [|y b]; simpl; split; intro H;
    try reflexivity; try discriminate.
  - apply andb_true_iff in H as [Hx Hab]. apply N.eqb_eq in Hx. apply IH in Hab.
    now subst.
  - injection H as -> ->. apply andb_true_iff. split.
    + apply N.eqb_refl.
    + now apply IH.
Qed.

Lemma str_eqb_refl (a : str) : str_eqb a a = true.
Proof. now apply str_eqb_eq. Qed.

Lemma str_eqb_neq (a b : str) : str_eqb a b = false <-> a <> b.
Proof.
  split.
  - intros H E. apply str_eqb_eq in E. congruence.
  - intro H. destruct (str_eqb a b) eqn:E; [|reflexivity].
    apply str_eqb_eq in E. contradiction.
Qed.

Lemma mem_In (x : str) (xs : list str) : mem x xs = true <-> In x xs.
Proof.
  unfold mem. rewrite existsb_exists. split.
  - intros [y [Hy E]]. apply str_eqb_eq in E. now subst.
  - intro H. exists x. split; [assumption | apply str_eqb_refl].
Qed.

Lemma mem_false (x : str) (xs : list str) : mem x xs = false <-> ~ In x xs.
Proof.
  split.
  - intros H I. apply mem_In in I. congruence.
  - intro H. destruct (mem x xs) eqn:E; [|reflexivity].
    apply mem_In in E. contradiction.
Qed.

(** ** State-passing steps *)

Ltac run_method :=
  unfold bind, gets, modify, ret, lift, uuid4, _save_active_episode,
    _save_pending_entities, store_add, VectorStore.add; simpl.

Lemma without_candidate_absent (candidate_id : str) (ps : list Candidate) :
  ~ In candidate_id (map cand_id ps) -> without_candidate candidate_id ps = ps.
Proof.
  induction ps as [|p ps IH]; simpl; intro H; [reflexivity|].
  destruct (str_eqb (cand_id p) candidate_id) eqn:E.
  - apply str_eqb_eq in E. exfalso. apply H. now left.
  - simpl. f_equal. apply IH. intro I. apply H. now right.
Qed.

Lemma add_entity_returned (env : Env) (entity_type content : str) (reason : option str)
      (related_ids : list str) (now : Time) (v : Vector) (s : Manager) :
  encoder env content = Returned v ->
  add_entity env entity_type content reason related_ids now s
  = (after_add_entity env entity_type content reason related_ids now v s,
     Returned (mkEntity (py "ent_" ++ uuid4_hex8 env (uuid_drawn s)) entity_type content
                        (entity_metadata entity_type reason related_ids
                                         (current_episode s) now))).
Proof.
  intro E. destruct s as [us ps cf pf sf ce cm pe ud].
  unfold add_entity, after_add_entity.
  destruct (mem entity_type USER_LEVEL_TYPES); run_method; rewrite E; simpl;
    destruct ce; reflexivity.
Qed.

Lemma add_entity_raised (env : Env) (entity_type content : str) (reason : option str)
      (related_ids : list str) (now : Time) (e : Exn) (s : Manager) :
  encoder env content = Raised e ->
  add_entity env entity_type content reason related_ids now s
  = (set_uuid_drawn (S (uuid_drawn s)) s, Raised e).
Proof.
  intro E. unfold add_entity.
  destruct (mem entity_type USER_LEVEL_TYPES); run_method; rewrite E; reflexivity.
Qed.

(** ** C9: unknown candidate ids *)

(** C9 (as amended).  For a candidate id that is not in the pending queue,
    [reject_candidate] changes nothing but the pending file, which it
    rewrites from the unchanged queue, and raises nothing.
    [confirm_entity] leaves the queue unchanged too, but it goes on to
    [add_entity]: when the encoder answers, the entity is added to the
    store of its tier; when the encoder raises, so does the call, and the
    stores are unchanged. *)
Theorem unknown_candidate_confirm_reject :
  forall (env : Env) (s : Manager) (candidate_id entity_type content : str) (now : Time),
    ~ In candidate_id (map cand_id (pending_entities s)) ->
    let saved := set_pending_file (Some (Parsed (pending_entities s))) s in
    let r := confirm_entity env candidate_id entity_type content now s in
    reject_candidate candidate_id s = (saved, Returned tt)
    /\ r = add_entity env entity_type content None [] now saved
    /\ pending_entities (fst r) = pending_entities s
    /\ match encoder env content with
       | Returned v =>
         let d := mkDoc (py "ent_" ++ uuid4_hex8 env (uuid_drawn s)) v content
                        (entity_metadata entity_type None [] (current_episode s) now) in
         (exists e, snd r = Returned e)
         /\ user_store (fst r)
            = (if mem entity_type USER_LEVEL_TYPES
               then coll_add (user_store s) d else user_store s)
         /\ project_store (fst r)
            = (if mem entity_type USER_LEVEL_TYPES
               then project_store s else coll_add (project_store s) d)
       | Raised e =>
         snd r = Raised e
         /\ user_store (fst r) = user_store s
         /\ project_store (fst r) = project_store s
       end.
Proof.
  intros env s candidate_id entity_type content now Habsent saved r.
  assert (Hq : without_candidate candidate_id (pending_entities s) = pending_entities s)
    by now apply without_candidate_absent.
  assert (Hs : set_pending_entities (pending_entities s) s = s) by now destruct s.
  assert (Hr : r = add_entity env entity_type content None [] now saved).
  { unfold r, confirm_entity, saved. run_method. rewrite Hq, Hs. reflexivity. }
  split; [|split; [exact Hr|]].
  - unfold reject_candidate, saved. run_method. rewrite Hq, Hs. reflexivity.
  - rewrite Hr. destruct (encoder env content) as [v|e] eqn:E.
    + rewrite (add_entity_returned env entity_type content None [] now v saved E). simpl.
      repeat split; eauto.
    + rewrite (add_entity_raised env entity_type content None [] now e saved E). simpl.
      repeat split.
Qed.

(** The hypothesis of C9 is met by the empty queue. *)
Lemma unknown_candidate_confirm_reject_witness :
  ~ In (py "cand_0000beef") (map cand_id (pending_entities empty_manager))
  /\ reject_candidate (py "cand_0000beef") empty_manager
     = (set_pending_file (Some (Parsed [])) empty_manager, Returned tt).
Proof.
  split.
  - simpl. tauto.
  - apply (unknown_candidate_confirm_reject healthy_env empty_manager (py "cand_0000beef")
             (py "Decision") (py "use sqlite") 0%Z).
    simpl. tauto.
Defined.

(** C9, the counterexample: confirming an id that no candidate carries,
    on a manager with an empty queue and empty stores, raises nothing and
    leaves a new record in the project store. *)
Lemma confirm_unknown_candidate_adds_entity :
  pending_entities empty_manager = []
  /\ project_store empty_manager = []
  /\ map doc_id
         (project_store
            (fst (confirm_entity healthy_env (py "cand_0000beef") (py "Decision")
                                 (py "use sqlite") 0%Z empty_manager)))
     = [py "ent_00000000"].
Proof. vm_compute. repeat split. Qed.

(** ** Episodes *)

Lemma close_episode_returned (env : Env) (summary : option str) (now : Time)
      (ep : Episode) (v : Vector) (s : Manager) :
  current_episode s = Some ep ->
  encoder env (summary_or_generated summary ep (current_messages s)) = Returned v ->
  close_episode env summary now s
  = (after_close ep (summary_or_generated summary ep (current_messages s)) v now s,
     Returned (Some (ep, summary_or_generated summary ep (current_messages s)))).
Proof.
  intros Hc E. destruct s as [us ps cf pf sf ce cm pe ud]. simpl in *. subst ce.
  unfold close_episode, after_close. run_method. rewrite E. reflexivity.
Qed.

Lemma close_episode_raised (env : Env) (summary : option str) (now : Time)
      (ep : Episode) (e : Exn) (s : Manager) :
  current_episode s = Some ep ->
  encoder env (summary_or_generated summary ep (current_messages s)) = Raised e ->
  close_episode env summary now s = (s, Raised e).
Proof.
  intros Hc E. destruct s as [us ps cf pf sf ce cm pe ud]. simpl in *. subst ce.
  unfold close_episode. run_method. rewrite E. reflexivity.
Qed.

(** ** C5: one active episode *)

(** C5.  The manager holds its active episode in one optional field, so
    there is never more than one.  When [start_episode] finds an episode
    active, it closes that one first: the episode is handed to the project
    store as a completed Episode record, and the start goes on from the
    manager [close_episode] left, which has no active episode.  The new
    episode is active, carries the id just drawn, and has no messages and
    no entities.  If archiving raises, nothing is changed and the old
    episode stays the active one. *)
Theorem start_episode_closes_active_first :
  forall (env : Env) (s : Manager) (title : str) (tags : list str) (now : Time)
         (old : Episode),
    current_episode s = Some old ->
    let summary := _generate_summary old (current_messages s) in
    let r := start_episode env title tags now s in
    match encoder env summary with
    | Returned v =>
      let archived := mkDoc (ep_id old) v summary
                            (episode_metadata old (current_messages s) now) in
      let closed := fst (close_episode env None now s) in
      let fresh := mkEpisode (py "ep_" ++ uuid4_hex8 env (uuid_drawn s)) title tags
                             (py "active") now [] in
      snd (close_episode env None now s) = Returned (Some (old, summary))
      /\ current_episode closed = None
      /\ project_store closed = coll_add (project_store s) archived
      /\ meta_get (py "type") (doc_metadata archived) = Some (MStr (py "Episode"))
      /\ meta_get (py "status") (doc_metadata archived) = Some (MStr (py "completed"))
      /\ r = start_episode env title tags now closed
      /\ snd r = Returned fresh
      /\ current_episode (fst r) = Some fresh
      /\ current_messages (fst r) = []
      /\ ep_entity_ids fresh = []
      /\ project_store (fst r) = project_store closed
      /\ state_file (fst r) = Some (Parsed (Some fresh, []))
    | Raised e => r = (s, Raised e)
    end.
Proof.
  intros env s title tags now old Hc summary r.
  destruct (encoder env summary) as [v|e] eqn:E.
  - pose proof (close_episode_returned env None now old v s Hc E) as Hclose.
    simpl summary_or_generated in Hclose. fold summary in Hclose.
    cbv zeta. rewrite Hclose. simpl fst. simpl snd.
    assert (Hr : r = start_episode env title tags now
                                   (after_close old summary v now s)).
    { unfold r, start_episode at 1. unfold bind at 1. unfold gets at 1. rewrite Hc.
      unfold bind at 1. unfold bind at 1. rewrite Hclose. reflexivity. }
    repeat split; try reflexivity; try exact Hr; rewrite Hr; reflexivity.
  - pose proof (close_episode_raised env None now old e s Hc E) as Hclose.
    unfold r, start_episode. unfold bind at 1. unfold gets at 1. rewrite Hc.
    unfold bind at 1. unfold bind at 1. rewrite Hclose. reflexivity.
Qed.

(** C5 at work: a start in the middle of [idle_episode]. *)
Lemma start_episode_closes_active_first_witness :
  current_episode busy_manager = Some idle_episode
  /\ match encoder healthy_env (_generate_summary idle_episode (current_messages busy_manager)) with
     | Returned v =>
       snd (close_episode healthy_env None 5%Z busy_manager)
       = Returned (Some (idle_episode, _generate_summary idle_episode
                                                          (current_messages busy_manager)))
     | Raised e => False
     end.
Proof.
  split.
  - reflexivity.
  - pose proof (start_episode_closes_active_first healthy_env busy_manager (py "next")
                  [] 5%Z idle_episode eq_refl) as H.
    cbv zeta in H.
    destruct (encoder healthy_env
                (_generate_summary idle_episode (current_messages busy_manager))).
    + apply H.
    + discriminate H.
Defined.

(** ** C2: stale episodes at construction *)

(** Construction closes an episode that has been idle for 30 minutes or
    more, whatever its number of messages: the episode goes to the project
    store with its message count. *)
Lemma stale_episode_closed_on_construction (env : Env) (now : Time) (ep : Episode)
      (messages : list Message) (v : Vector) (user project : Collection)
      (cache : option (list cache_line))
      (pending : option (file_content (list Candidate))) (drawn : nat) :
  (minutes STALE_EPISODE_MINUTES <= now - last_activity ep messages)%Z ->
  encoder env (auto_summary ep (now - last_activity ep messages)) = Returned v ->
  let s := fst (__init__ env now
                  (on_disk user project cache pending
                           (Some (Parsed (Some ep, messages))) drawn)) in
  current_episode s = None
  /\ project_store s
     = coll_add project
                (mkDoc (ep_id ep) v (auto_summary ep (now - last_activity ep messages))
                       (episode_metadata ep messages now)).
Proof.
  intros Hidle E s. subst s.
  unfold __init__, on_disk, _load_active_episode, _load_pending_entities,
    _close_stale_episode.
  apply Z.leb_le in Hidle.
  destruct pending as [[ps|]|]; run_method; rewrite Hidle;
    unfold close_episode; run_method; rewrite E; simpl; split; reflexivity.
Qed.

(** C2, the failing input.  The recovery document holds [idle_episode]
    with no message; the manager is constructed 31 minutes after the
    episode was created.  The episode is not discarded: it is archived as an
    Episode record whose message count is 0. *)
Lemma stale_empty_episode_is_archived :
  current_episode (fst (__init__ healthy_env (minutes 31) idle_disk)) = None
  /\ map (fun d => (doc_id d, meta_get (py "type") (doc_metadata d),
                    meta_get (py "message_count") (doc_metadata d)))
         (project_store (fst (__init__ healthy_env (minutes 31) idle_disk)))
     = [(py "ep_0000cafe", Some (MStr (py "Episode")), Some (MInt 0))].
Proof. vm_compute. split; reflexivity. Qed.

(** ** C6: routing by confidence *)

Lemma user_level_types (entity_type : str) :
  mem entity_type USER_LEVEL_TYPES = true
  <-> entity_type = py "Preference" \/ entity_type = py "Concept"
      \/ entity_type = py "Habit".
Proof.
  rewrite mem_In. unfold USER_LEVEL_TYPES. simpl. intuition congruence.
Qed.

Lemma route_returns (env : Env) (now : Time) (c : Candidate) (s : Manager) :
  turn_returns env c = true -> snd (route env now c s) = Returned tt.
Proof.
  unfold turn_returns, below_threshold, route. intro H.
  destruct (Qle_bool AUTO_CONFIRM_THRESHOLD (confidence c)); [|reflexivity].
  simpl in H. destruct (encoder env (extracted_content c)) as [v|e] eqn:E; [|discriminate].
  unfold bind.
  rewrite (add_entity_returned env (cand_type c) (extracted_content c)
                               (Some (auto_reason c)) [] now v s E).
  reflexivity.
Qed.

Lemma route_raises (env : Env) (now : Time) (c : Candidate) (s : Manager) (e : Exn) :
  Qle_bool AUTO_CONFIRM_THRESHOLD (confidence c) = true ->
  encoder env (extracted_content c) = Raised e ->
  route env now c s = (set_uuid_drawn (S (uuid_drawn s)) s, Raised e).
Proof.
  intros T E. unfold route. rewrite T. unfold bind.
  rewrite (add_entity_raised env (cand_type c) (extracted_content c)
                             (Some (auto_reason c)) [] now e s E).
  reflexivity.
Qed.

Lemma route_all_returns (env : Env) (now : Time) (cs : list Candidate) :
  forall s,
    forallb (turn_returns env) cs = true ->
    route_all env now cs s = (routed env now cs s, Returned tt).
Proof.
  induction cs as [|c cs IH]; intros s H; [reflexivity|].
  simpl in H. apply andb_true_iff in H as [Hc Hcs].
  cbn [route_all routed fold_left]. unfold bind.
  pose proof (route_returns env now c s Hc) as R.
  destruct (route env now c s) as [s' [[]|e]]; simpl in R; [|discriminate].
  cbn [fst]. apply IH. exact Hcs.
Qed.

Lemma route_all_stops (env : Env) (now : Time) (before after : list Candidate)
      (c : Candidate) (e : Exn) :
  forall s,
    forallb (turn_returns env) before = true ->
    Qle_bool AUTO_CONFIRM_THRESHOLD (confidence c) = true ->
    encoder env (extracted_content c) = Raised e ->
    route_all env now (before ++ c :: after) s
    = (set_uuid_drawn (S (uuid_drawn (routed env now before s))) (routed env now before s),
       Raised e).
Proof.
  induction before as [|b before IH]; intros s H T E.
  - cbn [app route_all routed fold_left]. unfold bind.
    rewrite (route_raises env now c s e T E). reflexivity.
  - simpl in H. apply andb_true_iff in H as [Hb Hbs].
    cbn [app route_all routed fold_left]. unfold bind.
    pose proof (route_returns env now b s Hb) as R.
    destruct (route env now b s) as [s' [[]|e']]; simpl in R; [|discriminate].
    cbn [fst]. now apply IH.
Qed.

Lemma route_queue (env : Env) (now : Time) (c : Candidate) (s : Manager) :
  pending_entities (fst (route env now c s))
  = pending_entities s ++ (if below_threshold c then [c] else []).
Proof.
  unfold route, below_threshold.
  destruct (Qle_bool AUTO_CONFIRM_THRESHOLD (confidence c)); simpl.
  - unfold bind. rewrite app_nil_r.
    destruct (encoder env (extracted_content c)) as [v|e] eqn:E.
    + rewrite (add_entity_returned env (cand_type c) (extracted_content c)
                                   (Some (auto_reason c)) [] now v s E).
      reflexivity.
    + rewrite (add_entity_raised env (cand_type c) (extracted_content c)
                                 (Some (auto_reason c)) [] now e s E).
      destruct s; reflexivity.
  - destruct s; reflexivity.
Qed.

Lemma routed_queue (env : Env) (now : Time) (cs : list Candidate) :
  forall s,
    pending_entities (routed env now cs s)
    = pending_entities s ++ filter below_threshold cs.
Proof.
  induction cs as [|c cs IH]; intro s; cbn [routed fold_left filter].
  - now rewrite app_nil_r.
  - fold (routed env now cs (fst (route env now c s))). rewrite IH, route_queue.
    destruct (below_threshold c); now rewrite <- app_assoc.
Qed.

(** C6 (as amended).  One turn of the routing loop, for any candidate.  At
    confidence 0.85 or more the candidate is promoted at once through
    [add_entity]: an active record of the candidate's type and content
    goes to the user store when the type is Preference, Concept or Habit
    and to the project store otherwise, the other store is untouched, the
    new id is appended to the entity list of the active episode, and the
    pending queue is unchanged (should the encoder raise, the turn raises
    and stores, queue and episode are unchanged).  Below 0.85 the
    candidate is appended to the pending queue and nothing else changes.
    So a candidate at 0.9 is promoted and one at 0.6 is queued.

    The loop of [_detect_and_process_entities] takes the detected
    candidates in their order, each turn starting from the manager the
    turn before left.  When every turn returns, every candidate below the
    threshold has been appended to the queue, in order, and the queue is
    written to the pending file.  When the promotion of a candidate
    raises, the loop stops there: the candidates before it have had their
    turn, the ones after it are neither promoted nor queued, and the
    pending file is not written. *)
Theorem routing_by_confidence :
  forall (env : Env) (now : Time) (c : Candidate) (s : Manager),
    let r := route env now c s in
    let i := py "ent_" ++ uuid4_hex8 env (uuid_drawn s) in
    (if Qle_bool AUTO_CONFIRM_THRESHOLD (confidence c)
     then
       match encoder env (extracted_content c) with
       | Returned v =>
         let d := mkDoc i v (extracted_content c)
                        (entity_metadata (cand_type c) (Some (auto_reason c)) []
                                         (current_episode s) now) in
         snd r = Returned tt
         /\ meta_get (py "status") (doc_metadata d) = Some (MStr (py "active"))
         /\ meta_get (py "type") (doc_metadata d) = Some (MStr (cand_type c))
         /\ (if mem (cand_type c) USER_LEVEL_TYPES
             then user_store (fst r) = coll_add (user_store s) d
                  /\ project_store (fst r) = project_store s
             else project_store (fst r) = coll_add (project_store s) d
                  /\ user_store (fst r) = user_store s)
         /\ current_episode (fst r) = option_map (append_entity_id i) (current_episode s)
         /\ pending_entities (fst r) = pending_entities s
       | Raised e => r = (set_uuid_drawn (S (uuid_drawn s)) s, Raised e)
       end
     else r = (set_pending_entities (pending_entities s ++ [c]) s, Returned tt))
    /\ (Qle_bool AUTO_CONFIRM_THRESHOLD (confidence c) = true
        <-> (AUTO_CONFIRM_THRESHOLD <= confidence c)%Q)
    /\ (mem (cand_type c) USER_LEVEL_TYPES = true
        <-> cand_type c = py "Preference" \/ cand_type c = py "Concept"
            \/ cand_type c = py "Habit")
    /\ Qle_bool AUTO_CONFIRM_THRESHOLD (9 # 10) = true
    /\ Qle_bool AUTO_CONFIRM_THRESHOLD (6 # 10) = false
    /\ (forall content,
           _detect_and_process_entities env content now s
           = match route_all env now (_detect_candidates env (uuid_drawn s) now content)
                             (set_uuid_drawn
                                (uuid_drawn s
                                 + List.length
                                     (_detect_candidates env (uuid_drawn s) now content))
                                s) with
             | (s', Returned _) =>
               (set_pending_file (Some (Parsed (pending_entities s'))) s', Returned tt)
             | (s', Raised e) => (s', Raised e)
             end)
    /\ (forall before after,
           routed env now (before ++ c :: after) s
           = routed env now after (fst (route env now c (routed env now before s))))
    /\ (forall cs,
           pending_entities (routed env now cs s)
           = pending_entities s ++ filter below_threshold cs)
    /\ (forall cs,
           forallb (turn_returns env) cs = true ->
           route_all env now cs s = (routed env now cs s, Returned tt))
    /\ (forall before after e,
           forallb (turn_returns env) before = true ->
           Qle_bool AUTO_CONFIRM_THRESHOLD (confidence c) = true ->
           encoder env (extracted_content c) = Raised e ->
           route_all env now (before ++ c :: after) s
           = (set_uuid_drawn (S (uuid_drawn (routed env now before s)))
                             (routed env now before s),
              Raised e)
           /\ pending_entities (fst (route_all env now (before ++ c :: after) s))
              = pending_entities s ++ filter below_threshold before).
Proof.
  intros env now c s r i.
  split; [|split; [apply Qle_bool_iff|split; [apply user_level_types|
           split; [reflexivity|split; [reflexivity|]]]]].
  { unfold r, route.
    destruct (Qle_bool AUTO_CONFIRM_THRESHOLD (confidence c)); [|reflexivity].
    destruct (encoder env (extracted_content c)) as [v|e] eqn:E.
    - unfold bind.
      rewrite (add_entity_returned env (cand_type c) (extracted_content c)
                                   (Some (auto_reason c)) [] now v s E).
      unfold ret, after_add_entity.
      destruct (mem (cand_type c) USER_LEVEL_TYPES); simpl; repeat split; reflexivity.
    - unfold bind.
      rewrite (add_entity_raised env (cand_type c) (extracted_content c)
                                 (Some (auto_reason c)) [] now e s E).
      reflexivity. }
  split.
  { intro content. unfold _detect_and_process_entities, detect_candidates.
    unfold bind at 1. unfold bind at 1.
    destruct (route_all env now (_detect_candidates env (uuid_drawn s) now content)
                        (set_uuid_drawn
                           (uuid_drawn s
                            + List.length
                                (_detect_candidates env (uuid_drawn s) now content)) s))
      as [s' [[]|e]]; reflexivity. }
  split.
  { intros before after. unfold routed. rewrite fold_left_app. reflexivity. }
  split; [intro cs; apply routed_queue|].
  split; [intro cs; apply route_all_returns|].
  intros before after e Hb T E.
  rewrite (route_all_stops env now before after c e s Hb T E).
  split; [reflexivity|]. cbn [fst].
  rewrite <- (routed_queue env now before s).
  destruct (routed env now before s); reflexivity.
Qed.

(** C6, the counterexample.  In the text below detection finds a Decision
    at confidence 0.9 and then a Preference at 0.8.  With the encoder down
    the promotion of the Decision raises, and the Preference, although
    below the threshold, is not appended to the pending queue: the queue
    stays empty and the pending file is not written. *)
Lemma queued_candidate_lost_when_promotion_raises :
  map cand_type (_detect_candidates crashed_env 0 0%Z (py "偏好使用abcde"))
  = [py "Decision"; py "Preference"]
  /\ map below_threshold (_detect_candidates crashed_env 0 0%Z (py "偏好使用abcde"))
     = [false; true]
  /\ snd (_detect_and_process_entities crashed_env (py "偏好使用abcde") 0%Z empty_manager)
     = Raised Supervisor.ENCODE_FAILED
  /\ pending_entities
       (fst (_detect_and_process_entities crashed_env (py "偏好使用abcde") 0%Z
                                          empty_manager)) = []
  /\ pending_file
       (fst (_detect_and_process_entities crashed_env (py "偏好使用abcde") 0%Z
                                          empty_manager)) = None.
Proof. vm_compute. repeat split; reflexivity. Qed.

(** A record that [collection.add] accepts is found under its id. *)
Lemma coll_add_fresh (c : Collection) (d : Doc) :
  ~ In (doc_id d) (coll_ids c) -> coll_add c d = c ++ [d].
Proof.
  intro H. unfold coll_add.
  destruct (existsb (has_id (doc_id d)) c) eqn:E; [|reflexivity].
  apply existsb_exists in E as [x [Hx Hid]]. unfold has_id in Hid.
  apply str_eqb_eq in Hid. exfalso. apply H. unfold coll_ids. rewrite Hid.
  now apply in_map.
Qed.

(** ** C8: pruning the message log *)

Lemma sweep_datable (cutoff : Time) (lines kept : list cache_line) (removed : nat) :
  forallb datable lines = true ->
  sweep cutoff lines kept removed
  = Returned (kept ++ filter (keeps cutoff) lines,
              removed + List.length (filter (fun l => negb (keeps cutoff l)) lines)).
Proof.
  revert kept removed. induction lines as [|l lines IH]; intros kept removed H.
  - simpl. now rewrite app_nil_r, Nat.add_0_r.
  - simpl in H. apply andb_true_iff in H as [Hl H].
    destruct l as [m|raw|raw|raw|raw|raw|raw t]; try discriminate Hl; simpl.
    + destruct (cutoff <? m_timestamp m)%Z; simpl; rewrite (IH _ _ H).
      * now rewrite <- app_assoc.
      * now rewrite Nat.add_succ_r.
    + rewrite (IH _ _ H). now rewrite <- app_assoc.
    + rewrite (IH _ _ H). now rewrite <- app_assoc.
    + destruct (cutoff <? t)%Z; simpl; rewrite (IH _ _ H).
      * now rewrite <- app_assoc.
      * now rewrite Nat.add_succ_r.
Qed.

(** The first line that cannot be dated stops the loop. *)
Lemma sweep_undatable (cutoff : Time) (lines kept : list cache_line) (removed : nat)
      (l : cache_line) :
  find (fun l => negb (datable l)) lines = Some l ->
  exists e, dating_error l = Some e /\ sweep cutoff lines kept removed = Raised e.
Proof.
  revert kept removed. induction lines as [|x lines IH]; intros kept removed H.
  - discriminate H.
  - simpl in H.
    destruct x as [m|raw|raw|raw|raw|raw|raw t]; simpl in *;
      try (injection H as <-; eexists; split; reflexivity).
    + destruct (cutoff <? m_timestamp m)%Z; now apply IH.
    + now apply IH.
    + now apply IH.
    + destruct (cutoff <? t)%Z; now apply IH.
Qed.

Lemma find_none_forallb (A : Type) (f : A -> bool) (l : list A) :
  find (fun x => negb (f x)) l = None -> forallb f l = true.
Proof.
  induction l as [|x l IH]; simpl; [reflexivity|].
  destruct (f x); simpl; [exact IH | discriminate].
Qed.




(** ** C4: keyword search as the fallback of [search] *)

Lemma lstrip_no_space (t : str) : no_space t = true -> lstrip t = t.
Proof.
  destruct t as [|c t]; simpl; [reflexivity|].
  intro H. apply andb_true_iff in H as [Hc _].
  apply negb_true_iff in Hc. now rewrite Hc.
Qed.

Lemma no_space_rev (t : str) : no_space t = true -> no_space (rev t) = true.
Proof.
  unfold no_space. rewrite !forallb_forall. intros H c Hc. apply H.
  now apply in_rev.
Qed.

Lemma strip_no_space (t : str) : no_space t = true -> strip t = t.
Proof.
  intro H. unfold strip, rstrip. rewrite (lstrip_no_space t H).
  rewrite (lstrip_no_space (rev t) (no_space_rev t H)). apply rev_involutive.
Qed.

(** The pieces of [str.split()] are not empty and hold no white space. *)
Lemma split_aux_tokens (s cur : str) :
  no_space cur = true ->
  Forall (fun t => t <> [] /\ no_space t = true) (split_aux cur s).
Proof.
  revert cur. induction s as [|c s IH]; intros cur Hcur; simpl.
  - destruct cur as [|x cur]; [constructor|].
    constructor; [|constructor]. split.
    + intro E. apply (f_equal (@List.length char)) in E.
      rewrite length_rev in E. discriminate E.
    + now apply no_space_rev.
  - destruct (py_isspace c) eqn:Hc.
    + destruct cur as [|x cur]; [now apply IH|].
      constructor; [|now apply IH]. split.
      * intro E. apply (f_equal (@List.length char)) in E.
        rewrite length_rev in E. discriminate E.
      * now apply no_space_rev.
    + apply IH. simpl. now rewrite Hc.
Qed.

(** Together the pieces are the text without its white space. *)
Lemma split_aux_concat (s cur : str) :
  concat (split_aux cur s) = rev cur ++ filter (fun c => negb (py_isspace c)) s.
Proof.
  revert cur. induction s as [|c s IH]; intro cur; simpl.
  - destruct cur; simpl; now rewrite ?app_nil_r.
  - destruct (py_isspace c) eqn:Hc; simpl.
    + destruct cur as [|x cur]; simpl; rewrite IH; reflexivity.
    + rewrite IH. simpl. now rewrite <- app_assoc.
Qed.

Lemma keywords_of_spec (query kw : str) :
  In kw (VectorStore.keywords_of query)
  <-> In kw (split_whitespace query) /\ 2 <= List.length kw.
Proof.
  unfold VectorStore.keywords_of.
  pose proof (split_aux_tokens query [] eq_refl) as T.
  fold (split_whitespace query) in T. rewrite Forall_forall in T.
  rewrite in_map_iff. split.
  - intros [w [E Hw]]. apply filter_In in Hw as [Hw Hlen].
    destruct (T w Hw) as [_ Hns]. rewrite (strip_no_space w Hns) in *. subst w.
    split; [assumption|]. now apply Nat.leb_le.
  - intros [Hw Hlen]. exists kw. destruct (T kw Hw) as [_ Hns]. split.
    + now apply strip_no_space.
    + apply filter_In. split; [assumption|].
      rewrite (strip_no_space kw Hns). now apply Nat.leb_le.
Qed.

Lemma insert_desc_perm (x : Scored) (l : list Scored) :
  Permutation (insert_desc x l) (x :: l).
Proof.
  induction l as [|y l IH]; simpl; [apply Permutation_refl|].
  destruct (snd x <? snd y).
  - apply perm_trans with (y :: x :: l); [now apply perm_skip | apply perm_swap].
  - apply Permutation_refl.
Qed.

Lemma sort_desc_perm (l : list Scored) : Permutation (sort_desc l) l.
Proof.
  induction l as [|x l IH]; simpl; [constructor|].
  apply perm_trans with (x :: sort_desc l); [apply insert_desc_perm | now apply perm_skip].
Qed.

Lemma insert_desc_sorted (x : Scored) (l : list Scored) :
  StronglySorted by_score_desc l -> StronglySorted by_score_desc (insert_desc x l).
Proof.
  induction l as [|y l IH]; simpl; intro S.
  - constructor; constructor.
  - inversion S as [|? ? Sl Fy]; subst.
    destruct (snd x <? snd y) eqn:C.
    + apply Nat.ltb_lt in C. constructor; [now apply IH|].
      apply Forall_forall. intros z Hz.
      apply (Permutation_in _ (insert_desc_perm x l)) in Hz as [<-|Hz].
      * unfold by_score_desc. lia.
      * rewrite Forall_forall in Fy. now apply Fy.
    + apply Nat.ltb_ge in C. constructor; [assumption|].
      constructor; [exact C|].
      rewrite Forall_forall in Fy |- *. intros z Hz. specialize (Fy z Hz).
      unfold by_score_desc in *. lia.
Qed.

Lemma sort_desc_sorted (l : list Scored) : StronglySorted by_score_desc (sort_desc l).
Proof.
  induction l as [|x l IH]; simpl; [constructor | now apply insert_desc_sorted].
Qed.

(** The sort is stable: candidates of one score keep their order. *)
Lemma sort_desc_stable (n : nat) (l : list Scored) :
  filter (fun x => snd x =? n) (sort_desc l) = filter (fun x => snd x =? n) l.
Proof.
  induction l as [|x l IH]; simpl; [reflexivity|].
  rewrite <- IH. generalize (sort_desc_sorted l). generalize (sort_desc l) as sl.
  clear IH. induction sl as [|y sl IHs]; intro S; simpl; [reflexivity|].
  inversion S as [|? ? Ssl Fy]; subst.
  destruct (snd x <? snd y) eqn:C; simpl.
  - apply Nat.ltb_lt in C. rewrite (IHs Ssl).
    destruct (snd x =? n) eqn:Ex; destruct (snd y =? n) eqn:Ey; try reflexivity.
    apply Nat.eqb_eq in Ex, Ey. lia.
  - reflexivity.
Qed.

Lemma in_firstn (A : Type) (n : nat) (l : list A) (x : A) :
  In x (firstn n l) -> In x l.
Proof.
  intro H. rewrite <- (firstn_skipn n l). apply in_or_app. now left.
Qed.

Lemma scored_items_spec (lower : str -> str) (kws : list str) (docs : list Doc)
      (x : Scored) :
  In x (VectorStore.scored_items lower kws docs)
  <-> exists d, In d docs
                /\ x = (item_of_doc d, VectorStore.score lower kws (doc_content d))
                /\ (0 < snd x \/ kws = []).
Proof.
  unfold VectorStore.scored_items. rewrite in_flat_map. split.
  - intros [d [Hd Hx]]. exists d. split; [assumption|].
    destruct (0 <? VectorStore.score lower kws (doc_content d)) eqn:P; simpl in Hx.
    + destruct Hx as [<-|[]]. split; [reflexivity|]. left. now apply Nat.ltb_lt.
    + destruct kws; simpl in Hx; [|contradiction].
      destruct Hx as [<-|[]]. split; [reflexivity|]. now right.
  - intros [d [Hd [-> Hk]]]. exists d. split; [assumption|]. simpl in Hk.
    destruct Hk as [Hk| ->].
    + apply Nat.ltb_lt in Hk. rewrite Hk. simpl. now left.
    + rewrite orb_true_r. now left.
Qed.

Lemma contains_occurrences (sub s : str) :
  contains sub s = (0 <? occurrences sub s).
Proof.
  induction s as [|c s IH]; simpl.
  - destruct (startswith sub []); reflexivity.
  - rewrite IH. destruct (startswith sub (c :: s)); simpl; [reflexivity|].
    destruct (occurrences sub s); reflexivity.
Qed.

Lemma score_counts_tokens_present (lower : str -> str) (kws : list str) (content : str) :
  VectorStore.score lower kws content
  = List.length (filter (fun kw => 0 <? occurrences (lower kw) (lower content)) kws)
  /\ VectorStore.score lower kws content <= List.length kws
  /\ VectorStore.score lower kws content <= occurrence_score lower kws content.
Proof.
  unfold VectorStore.score, occurrence_score.
  induction kws as [|kw kws (IH1 & IH2 & IH3)]; simpl; [repeat split; lia|].
  rewrite contains_occurrences.
  destruct (0 <? occurrences (lower kw) (lower content)) eqn:P; simpl.
  - apply Nat.ltb_lt in P. split; [now rewrite IH1|]. split; lia.
  - split; [exact IH1|]. split; lia.
Qed.




(** ** C3: retrieval without the worker *)

(** C3 (as amended).  [recall] does not catch what the encoder raises:
    when [encode_text] raises on the query, [recall] raises the same
    exception and changes nothing.  When its three searches return,
    [recall] returns their results with the active episode and the last
    five messages, and the result carries the degraded-mode note exactly
    when the encoder was not ready at the time of the call.
    [search_by_type] without a query (none, or the empty string) returns
    the metadata scan of the tier's store for the type and its status and
    never calls the encoder. *)
Theorem recall_and_search_by_type_without_worker :
  forall (env : Env) (query : str) (top_k : nat) (include_deprecated ready : bool)
         (s : Manager),
    let r := recall env query top_k include_deprecated ready s in
    (forall e, encoder env query = Raised e -> r = (s, Raised e))
    /\ (forall project_entities episodes user_results,
           store_search env (project_store s) query top_k
                        (Some (project_entities_filter include_deprecated))
           = Returned project_entities ->
           store_search env (project_store s) query top_k (Some episodes_filter)
           = Returned episodes ->
           store_search env (user_store s) query top_k
                        (user_entities_filter include_deprecated)
           = Returned user_results ->
           r = (s, Returned (mkRecall episodes (project_entities ++ user_results)
                                      (current_episode s)
                                      (last_n 5 (current_messages s))
                                      (if ready then None else Some DEGRADED_NOTE))))
    /\ (forall (entity_type : str) (query' : option str),
           query' = None \/ query' = Some [] ->
           search_by_type env entity_type query' top_k s
           = (s, Returned
                   (map item_of_doc
                        (coll_get_where
                           (if mem entity_type USER_LEVEL_TYPES
                            then user_store s else project_store s)
                           (Some (VectorStore.type_and_status
                                    entity_type
                                    (if str_eqb entity_type (py "Episode")
                                     then py "completed" else py "active")))
                           top_k)))).
Proof.
  intros env query top_k include_deprecated ready s r. split; [|split].
  - intros e E. unfold r, recall, bind, gets, lift, store_search, VectorStore.search,
      VectorStore._vector_search. cbv beta iota. rewrite E. reflexivity.
  - intros pe eps us Hp He Hu. unfold r, recall, bind, gets, lift, ret. cbv beta iota.
    unfold project_entities_filter, episodes_filter, user_entities_filter in *.
    rewrite Hp, He, Hu. destruct ready; reflexivity.
  - intros entity_type query' Hq. unfold search_by_type, bind, gets, ret. cbv beta iota.
    destruct Hq as [-> | ->]; destruct (mem entity_type USER_LEVEL_TYPES); reflexivity.
Qed.

(** C3 at work: with the encoder at hand but not yet marked ready, [recall]
    returns, and its result carries the note. *)
Lemma recall_and_search_by_type_without_worker_witness :
  recall healthy_env (py "redis") 5 false false sample_manager
  = (sample_manager,
     Returned (mkRecall [] [] None [] (Some DEGRADED_NOTE))).
Proof.
  pose proof (recall_and_search_by_type_without_worker healthy_env (py "redis") 5 false
                false sample_manager) as H.
  cbv zeta in H. destruct H as [_ [H _]].
  apply (H [] [] []); reflexivity.
Defined.

(** C3, the counterexample.  The encoder is not ready and the worker is
    unavailable: in the first case its job raises (the worker crashed), in
    the second the warm-up in flight outlasts the wait.  In both [recall]
    raises a [RuntimeError] instead of returning a degraded result. *)
Lemma recall_raises_when_worker_unavailable :
  snd (recall crashed_env (py "redis") 5 false false sample_manager)
  = Raised Supervisor.ENCODE_FAILED
  /\ snd (recall timed_out_env (py "redis") 5 false false sample_manager)
     = Raised Supervisor.WARMUP_FAILED.
Proof. split; vm_compute; reflexivity. Qed.

(** ** C1: single-flight warm-up *)

Lemma single_pool_initial : single_pool initial.
Proof.
  unfold single_pool, initial; simpl. repeat split; try lia; try congruence.
Qed.

Lemma single_pool_complete (ok : bool) (s : State) :
  single_pool s -> single_pool (complete ok s).
Proof.
  intro H. pose proof H as (Hs & Hp & Hm & Hf & Hn). unfold complete.
  destruct (_warmup_future s) as [[| |]|] eqn:F; try exact H.
  unfold single_pool, on_done; simpl. repeat split; try assumption.
  - intros _. apply Hf. congruence.
  - intro E. destruct ok; discriminate E.
Qed.

Lemma single_pool_call (sp : Spawn) (w : Wait) (s : State) :
  single_pool s -> single_pool (fst (_init_process_pool sp w s)).
Proof.
  intro H. pose proof H as (Hs & Hp & Hm & Hf & Hn). unfold _init_process_pool.
  destruct (_process_pool s) as [pool|] eqn:P.
  - destruct (_warmup_future s) as [[| |]|] eqn:F; try exact H.
    assert (H1 : probes s = 1) by (apply Hf; congruence).
    destruct w; unfold complete; rewrite ?F; unfold single_pool, on_done; simpl;
      rewrite ?P, ?F; repeat split; try assumption; try congruence.
  - destruct sp; unfold single_pool; simpl;
      repeat split; try lia; try assumption; try congruence; intros;
      try lia; match goal with E : Some _ = Some _ |- _ => injection E as <- end;
      reflexivity.
Qed.

Lemma single_pool_run (evs : list Event) : single_pool (run evs).
Proof.
  unfold run. generalize single_pool_initial. generalize initial as s.
  induction evs as [|e evs IH]; intros s Hs; simpl; [assumption|].
  apply IH. destruct e as [sp w|ok]; simpl.
  - now apply single_pool_call.
  - now apply single_pool_complete.
Qed.

(** C1 (as amended).  Calls of [_init_process_pool] are serialised by the
    pool lock, so a run is a sequence of calls and of ends of the warm-up
    task.  After any run, at most one pool was constructed and at most one
    probe submitted.  The next caller constructs a pool, of capacity one,
    and submits the probe only if no pool exists; if one exists the caller
    constructs nothing and submits nothing.  If the warm-up is in flight,
    the caller waits on that one future: when it completes, the caller gets
    the pool and the encoder is marked ready; when it fails, the caller
    gets a [RuntimeError]; when the wait of 60 seconds runs out, the caller
    gets a [RuntimeError] while the warm-up stays in flight.  If the warm-up
    is over, the caller gets the pool and changes nothing. *)
Theorem warmup_is_single_flight :
  forall (evs : list Event) (sp : Spawn) (w : Wait),
    let s := run evs in
    let r := _init_process_pool sp w s in
    spawned s <= 1
    /\ probes s <= spawned s
    /\ match _process_pool s with
       | None =>
         spawned s = 0 /\ probes s = 0
         /\ match sp with
            | SpawnOk =>
              snd r = Returned (mkPool 1 0)
              /\ _process_pool (fst r) = Some (mkPool 1 0)
              /\ spawned (fst r) = 1 /\ probes (fst r) = 1
              /\ in_flight (fst r) = true
            | SubmitRaises =>
              snd r = Raised OSError
              /\ _process_pool (fst r) = Some (mkPool 1 0)
              /\ spawned (fst r) = 1 /\ probes (fst r) = 0
            | ConstructorRaises =>
              snd r = Raised OSError
              /\ _process_pool (fst r) = None
              /\ spawned (fst r) = 0 /\ probes (fst r) = 0
            end
       | Some pool =>
         max_workers pool = 1
         /\ spawned s = 1
         /\ _process_pool (fst r) = Some pool
         /\ spawned (fst r) = 1
         /\ probes (fst r) = probes s
         /\ (if in_flight s
             then
               probes s = 1
               /\ match w with
                  | CompletesOk =>
                    snd r = Returned pool
                    /\ _encoder_ready (fst r) = true
                    /\ _warmup_future (fst r) = Some Succeeded
                  | CompletesWithError =>
                    snd r = Raised WARMUP_FAILED
                    /\ _warmup_future (fst r) = Some Failed
                  | TimesOut =>
                    snd r = Raised WARMUP_FAILED
                    /\ in_flight (fst r) = true
                  end
             else snd r = Returned pool /\ fst r = s)
       end.
Proof.
  intros evs sp w s r.
  destruct (single_pool_run evs) as (Hs & Hp & Hm & Hf & Hn). fold s in Hs, Hp, Hm, Hf, Hn.
  unfold r, _init_process_pool, in_flight.
  destruct (_process_pool s) as [pool|] eqn:P.
  - split; [lia|]. split; [assumption|].
    split; [now apply Hm|]. split; [assumption|].
    destruct (_warmup_future s) as [[| |]|] eqn:F; simpl.
    + assert (H1 : probes s = 1) by (apply Hf; congruence).
      destruct w; unfold complete; rewrite ?F; simpl; rewrite ?F; repeat split; auto.
    + repeat split; auto.
    + repeat split; auto.
    + repeat split; auto.
  - split; [lia|]. split; [assumption|].
    assert (H0 : probes s = 0) by lia.
    split; [assumption|]. split; [assumption|].
    destruct sp; simpl; rewrite ?Hs, ?H0; repeat split.
Qed.

(** C1, the counterexample.  [warming_up] is the state the first caller
    leaves: the warm-up is in flight.  A second caller whose wait runs out
    is told that the warm-up failed, by a [RuntimeError], while the warm-up
    is still in flight. *)
Lemma caller_refused_while_warmup_in_flight :
  warming_up = run [Call SpawnOk CompletesOk]
  /\ in_flight warming_up = true
  /\ snd (_init_process_pool SpawnOk TimesOut warming_up) = Raised WARMUP_FAILED
  /\ in_flight (fst (_init_process_pool SpawnOk TimesOut warming_up)) = true.
Proof. repeat split. Qed.

(** ** C10: what [cache_message] stores *)

Lemma lstrip_length (t : str) : List.length (lstrip t) <= List.length t.
Proof.
  induction t as [|c t IH]; simpl; [lia|].
  destruct (py_isspace c); simpl; lia.
Qed.

Lemma strip_length (t : str) : List.length (strip t) <= List.length t.
Proof.
  unfold strip, rstrip. rewrite length_rev.
  pose proof (lstrip_length (rev (lstrip t))) as H1. rewrite length_rev in H1.
  pose proof (lstrip_length t). lia.
Qed.

Lemma truncate_length (max_length : nat) (t : str) :
  List.length (truncate max_length t) <= max_length + List.length TRUNCATION_MARKER.
Proof.
  unfold truncate. destruct (max_length <? List.length t) eqn:C.
  - rewrite length_app, length_firstn. lia.
  - apply Nat.ltb_ge in C. lia.
Qed.

Lemma clean_content_length (env : Env) (content : str) (max_length : nat) :
  List.length (_clean_content env content max_length)
  <= max_length + List.length TRUNCATION_MARKER.
Proof.
  unfold _clean_content.
  eapply Nat.le_trans; [apply strip_length | apply truncate_length].
Qed.

(** *** The two substitutions *)

(** The fuel of [sub_from] does not matter once it exceeds the length. *)
Lemma sub_from_fuel (r : regex) (repl : str) (fuel1 : nat) :
  forall (fuel2 : nat) (s : str),
    List.length s < fuel1 -> List.length s < fuel2 ->
    sub_from r repl fuel1 s = sub_from r repl fuel2 s.
Proof.
  induction fuel1 as [|f1 IH]; intros fuel2 s H1 H2; [lia|].
  destruct fuel2 as [|f2]; [lia|]. simpl.
  destruct (re_match r s) as [[rest cs]|].
  - destruct (List.length rest <? List.length s) eqn:C.
    + apply Nat.ltb_lt in C. f_equal. apply IH; lia.
    + destruct s as [|c s']; [reflexivity|]. simpl in H1, H2.
      do 2 f_equal. apply IH; lia.
  - destruct s as [|c s']; [reflexivity|]. simpl in H1, H2. f_equal. apply IH; lia.
Qed.

Lemma fenced_code_opens (word : char -> bool) : opens_with_backtick (fenced_code word).
Proof.
  split; [reflexivity|]. intros c s H. unfold re_match, fenced_code, exact. simpl.
  apply N.eqb_neq in H. now rewrite H.
Qed.

Lemma inline_code_opens : opens_with_backtick inline_code.
Proof.
  split; [reflexivity|]. intros c s H. unfold re_match, inline_code, exact. simpl.
  apply N.eqb_neq in H. now rewrite H.
Qed.

Lemma sub_from_plain_prefix (r : regex) (repl pre : str) :
  opens_with_backtick r -> ~ In backtick pre ->
  forall (fuel : nat) (rest : str),
    sub_from r repl fuel (pre ++ rest) = pre ++ sub_from r repl (fuel - List.length pre) rest.
Proof.
  intros [_ Hr]. induction pre as [|c pre IH]; intros Hpre fuel rest; simpl.
  - now rewrite Nat.sub_0_r.
  - destruct fuel as [|fuel]; simpl.
    + reflexivity.
    + rewrite Hr by (intro E; apply Hpre; now left).
      f_equal. apply IH. intro I. apply Hpre. now right.
Qed.

Lemma re_sub_skip_char (r : regex) (repl : str) (c : char) (s : str) :
  re_match r (c :: s) = None -> re_sub r repl (c :: s) = c :: re_sub r repl s.
Proof.
  intro H. unfold re_sub. simpl. rewrite H. reflexivity.
Qed.

Lemma re_sub_plain_prefix (r : regex) (repl pre rest : str) :
  opens_with_backtick r -> ~ In backtick pre ->
  re_sub r repl (pre ++ rest) = pre ++ re_sub r repl rest.
Proof.
  intros Hr Hpre. unfold re_sub. rewrite (sub_from_plain_prefix r repl pre Hr Hpre).
  f_equal. rewrite length_app.
  replace (S (List.length pre + List.length rest) - List.length pre)
    with (S (List.length rest)) by lia.
  reflexivity.
Qed.

Lemma re_sub_plain (r : regex) (repl text : str) :
  opens_with_backtick r -> ~ In backtick text -> re_sub r repl text = text.
Proof.
  intros Hr Ht. rewrite <- (app_nil_r text) at 1.
  rewrite (re_sub_plain_prefix r repl text [] Hr Ht). unfold re_sub. simpl.
  destruct Hr as [Hr _]. rewrite Hr. apply app_nil_r.
Qed.

Lemma re_sub_one_match (r : regex) (repl pre matched post : str) (cs : captures) :
  opens_with_backtick r -> ~ In backtick pre ->
  matched <> [] ->
  re_match r (matched ++ post) = Some (post, cs) ->
  re_sub r repl (pre ++ matched ++ post) = pre ++ repl ++ re_sub r repl post.
Proof.
  intros Hr Hpre Hne Hm. rewrite (re_sub_plain_prefix r repl pre _ Hr Hpre). f_equal.
  unfold re_sub at 1. simpl. rewrite Hm.
  assert (L : List.length post < List.length (matched ++ post)).
  { rewrite length_app. destruct matched; [contradiction|simpl; lia]. }
  apply Nat.ltb_lt in L. rewrite L. f_equal. apply sub_from_fuel.
  - apply Nat.ltb_lt in L. lia.
  - lia.
Qed.

(** A greedy run over a class stops where the class does. *)
Lemma greedy_class_run (p : char -> bool)
      (k : str -> captures -> option (str * captures)) (res : str * captures)
      (run_ rest : str) (cs : captures) :
  Forall (fun c => p c = true) run_ ->
  match rest with [] => True | c :: _ => p c = false end ->
  k rest cs = Some res ->
  forall fuel i, List.length run_ <= fuel ->
    rep_loop (fun s' cs' k' => re_run (Chr p) s' cs' k') true 0 k fuel i (run_ ++ rest) cs
    = Some res.
Proof.
  intros Hrun Hrest Hk. induction Hrun as [|c l Hc Hl IH]; intros fuel i Hf; simpl in *.
  - destruct fuel as [|fuel]; simpl; [exact Hk|].
    destruct rest as [|c rest]; simpl; [exact Hk|]. rewrite Hrest. simpl. exact Hk.
  - destruct fuel as [|fuel]; [lia|]. simpl. rewrite Hc.
    rewrite IH by lia. reflexivity.
Qed.

(** A lazy run over any character stops at the first place where what
    follows matches. *)
Lemma lazy_any_run (k : str -> captures -> option (str * captures))
      (res : str * captures) (body rest : str) (cs : captures) :
  (forall c t, (exists u, body = u ++ c :: t) -> k (c :: t ++ rest) cs = None) ->
  k rest cs = Some res ->
  forall fuel i, List.length body <= fuel ->
    rep_loop (fun s' cs' k' => re_run any_char s' cs' k') false 0 k fuel i (body ++ rest) cs
    = Some res.
Proof.
  intros Hin Hk. induction body as [|c b IH]; intros fuel i Hf; simpl in *.
  - destruct fuel; simpl; rewrite Hk; reflexivity.
  - destruct fuel as [|fuel]; [lia|]. simpl.
    rewrite (Hin c b) by (exists []; reflexivity). simpl.
    apply IH; [|lia]. intros c' t [u ->]. apply Hin. exists (c :: u). reflexivity.
Qed.

(** A fenced block matches as a whole, up to its closing fence. *)
Lemma fenced_block_matches (word : char -> bool) (lang body post : str) :
  word newline = false ->
  Forall (fun c => word c = true) lang ->
  ~ In backtick body ->
  re_match (fenced_code word) (FENCE ++ lang ++ newline :: body ++ FENCE ++ post)
  = Some (post, []).
Proof.
  intros Hnl Hlang Hbody. unfold re_match, fenced_code, exact, FENCE. simpl.
  apply greedy_class_run; try assumption.
  - rewrite N.eqb_refl.
    apply lazy_any_run.
    + intros c t [u ->]. simpl.
      assert (c <> backtick) by (intro E; apply Hbody; subst c; apply in_or_app; right; now left).
      apply N.eqb_neq in H. now rewrite H.
    + simpl. reflexivity.
    + rewrite !length_app. simpl. lia.
  - rewrite !length_app. simpl. lia.
Qed.

(** Inline code matches from its backtick to the next one. *)
Lemma inline_code_matches (code post : str) :
  code <> [] -> ~ In backtick code ->
  re_match inline_code (backtick :: code ++ backtick :: post) = Some (post, []).
Proof.
  intros Hne Hcode. unfold re_match, inline_code, exact. simpl.
  assert (Hrun : Forall (fun c => negb (c =? backtick)%N = true) code).
  { apply Forall_forall. intros c Hc. apply negb_true_iff. apply N.eqb_neq.
    intro E. apply Hcode. now subst c. }
  assert (G : forall fuel i,
             List.length code <= fuel ->
             1 <= i + List.length code ->
             rep_loop (fun s' cs' k' => re_run (Chr (fun c => negb (c =? backtick)%N)) s' cs' k')
                      true 1
                      (fun s' cs' => re_run (Chr (fun x => (x =? backtick)%N)) s' cs'
                                            (fun s0 cs0 => Some (s0, cs0)))
                      fuel i (code ++ backtick :: post) []
             = Some (post, [])).
  { clear Hne. induction Hrun as [|c l Hc Hl IH]; intros fuel i Hf Hi; simpl in *.
    - destruct i as [|i]; [lia|].
      destruct fuel; simpl; rewrite ?N.eqb_refl; reflexivity.
    - destruct fuel as [|fuel]; [lia|]. simpl. rewrite Hc.
      rewrite IH; [reflexivity| | lia | lia].
      intro I. apply Hcode. now right. }
  apply G.
  - rewrite length_app. simpl.
    destruct (List.length code + S (List.length post)) eqn:L; lia.
  - destruct code; [contradiction|simpl; lia].
Qed.

Lemma placeholder_plain : ~ In backtick FENCE_PLACEHOLDER /\ ~ In backtick INLINE_PLACEHOLDER.
Proof.
  split; vm_compute; intuition discriminate.
Qed.

(** What [_clean_content] makes of a text with one fenced block, and of a
    text with one piece of inline code. *)
Lemma clean_content_placeholders (env : Env) (max_length : nat) (pre post : str) :
  ~ In backtick pre -> ~ In backtick post ->
  (forall lang body,
      is_word env newline = false ->
      Forall (fun c => is_word env c = true) lang ->
      ~ In backtick body ->
      _clean_content env (pre ++ FENCE ++ lang ++ newline :: body ++ FENCE ++ post) max_length
      = strip (truncate max_length (pre ++ FENCE_PLACEHOLDER ++ post)))
  /\ (forall code,
         code <> [] -> ~ In backtick code ->
         _clean_content env (pre ++ backtick :: code ++ backtick :: post) max_length
         = strip (truncate max_length (pre ++ INLINE_PLACEHOLDER ++ post)))
  /\ _clean_content env pre max_length = strip (truncate max_length pre).
Proof.
  intros Hpre Hpost. destruct placeholder_plain as [Hf Hi].
  split; [|split].
  - intros lang body Hnl Hlang Hbody. unfold _clean_content.
    replace (pre ++ FENCE ++ lang ++ newline :: body ++ FENCE ++ post)
      with (pre ++ (FENCE ++ lang ++ newline :: body ++ FENCE) ++ post)
      by (rewrite <- !app_assoc; simpl; rewrite <- !app_assoc; reflexivity).
    rewrite (re_sub_one_match (fenced_code (is_word env)) FENCE_PLACEHOLDER pre
               (FENCE ++ lang ++ newline :: body ++ FENCE) post []
               (fenced_code_opens (is_word env)) Hpre).
    + rewrite (re_sub_plain _ FENCE_PLACEHOLDER post (fenced_code_opens (is_word env)) Hpost).
      rewrite (re_sub_plain _ INLINE_PLACEHOLDER _ inline_code_opens); [reflexivity|].
      intro I. apply in_app_or in I as [I|I]; [contradiction|].
      apply in_app_or in I as [I|I]; contradiction.
    + discriminate.
    + rewrite <- !app_assoc. simpl. rewrite <- !app_assoc. simpl.
      apply (fenced_block_matches (is_word env) lang body post Hnl Hlang Hbody).
  - intros code Hne Hcode. unfold _clean_content.
    assert (Hnofence : re_sub (fenced_code (is_word env)) FENCE_PLACEHOLDER
                              (pre ++ backtick :: code ++ backtick :: post)
                       = pre ++ backtick :: code ++ backtick :: post).
    { rewrite (re_sub_plain_prefix _ FENCE_PLACEHOLDER pre _
                 (fenced_code_opens (is_word env)) Hpre). f_equal.
      destruct code as [|c code]; [contradiction|].
      assert (Hc : c <> backtick) by (intro E; apply Hcode; now left).
      rewrite re_sub_skip_char.
      2:{ unfold re_match, fenced_code, exact. simpl. apply N.eqb_neq in Hc.
          now rewrite Hc. }
      f_equal.
      rewrite (re_sub_plain_prefix _ FENCE_PLACEHOLDER (c :: code) _
                 (fenced_code_opens (is_word env)) Hcode). f_equal.
      rewrite re_sub_skip_char.
      2:{ unfold re_match, fenced_code, exact. simpl.
          destruct post as [|p post]; [reflexivity|].
          assert (Hp : p <> backtick) by (intro E; apply Hpost; now left).
          apply N.eqb_neq in Hp. now rewrite Hp. }
      f_equal.
      apply (re_sub_plain _ FENCE_PLACEHOLDER post (fenced_code_opens (is_word env)) Hpost). }
    rewrite Hnofence.
    replace (pre ++ backtick :: code ++ backtick :: post)
      with (pre ++ (backtick :: code ++ [backtick]) ++ post)
      by (simpl; rewrite <- !app_assoc; reflexivity).
    rewrite (re_sub_one_match inline_code INLINE_PLACEHOLDER pre
               (backtick :: code ++ [backtick]) post [] inline_code_opens Hpre).
    + rewrite (re_sub_plain _ INLINE_PLACEHOLDER post inline_code_opens Hpost). reflexivity.
    + discriminate.
    + simpl. rewrite <- app_assoc. simpl.
      apply (inline_code_matches code post Hne Hcode).
  - unfold _clean_content.
    rewrite (re_sub_plain _ FENCE_PLACEHOLDER pre (fenced_code_opens (is_word env)) Hpre).
    rewrite (re_sub_plain _ INLINE_PLACEHOLDER pre inline_code_opens Hpre). reflexivity.
Qed.

(** *** The message log is only touched by [cache_message] itself *)

Lemma add_entity_log (env : Env) (entity_type content : str) (reason : option str)
      (related_ids : list str) (now : Time) (s : Manager) :
  log_of (fst (add_entity env entity_type content reason related_ids now s)) = log_of s.
Proof.
  destruct (encoder env content) as [v|e] eqn:E.
  - rewrite (add_entity_returned env entity_type content reason related_ids now v s E).
    reflexivity.
  - rewrite (add_entity_raised env entity_type content reason related_ids now e s E).
    reflexivity.
Qed.

Lemma route_log (env : Env) (now : Time) (c : Candidate) (s : Manager) :
  log_of (fst (route env now c s)) = log_of s.
Proof.
  unfold route. destruct (Qle_bool AUTO_CONFIRM_THRESHOLD (confidence c)).
  - unfold bind.
    pose proof (add_entity_log env (cand_type c) (extracted_content c)
                               (Some (auto_reason c)) [] now s) as H.
    destruct (add_entity env (cand_type c) (extracted_content c)
                         (Some (auto_reason c)) [] now s) as [s' [a|e]]; exact H.
  - reflexivity.
Qed.

Lemma route_all_log (env : Env) (now : Time) (cs : list Candidate) :
  forall s, log_of (fst (route_all env now cs s)) = log_of s.
Proof.
  induction cs as [|c cs IH]; intro s; simpl; [reflexivity|].
  unfold bind. pose proof (route_log env now c s) as H.
  destruct (route env now c s) as [s' [a|e]]; simpl in *.
  - rewrite IH. exact H.
  - exact H.
Qed.

Lemma detect_and_process_log (env : Env) (content : str) (now : Time) (s : Manager) :
  log_of (fst (_detect_and_process_entities env content now s)) = log_of s.
Proof.
  unfold _detect_and_process_entities, detect_candidates, bind at 1.
  set (cs := _detect_candidates env (uuid_drawn s) now content).
  set (s1 := set_uuid_drawn (uuid_drawn s + List.length cs) s).
  unfold bind. pose proof (route_all_log env now cs s1) as H.
  destruct (route_all env now cs s1) as [s' [a|e]]; simpl in *; exact H.
Qed.



(** ** C7: extraction *)

Section Extraction.

Variable env : Env.
Variable base : nat.
Variable now : Time.
Variable content : str.
Variable all : list (str * Rule).

Lemma grows_refl (d : Detection) : grows d d.
Proof. split; apply incl_refl. Qed.

Lemma grows_trans (d1 d2 d3 : Detection) : grows d1 d2 -> grows d2 d3 -> grows d1 d3.
Proof. intros [A B] [C D]. split; eapply incl_tran; eassumption. Qed.

(** One match either changes nothing or appends one candidate. *)
Lemma on_match_cases (ty : str) (rule : Rule) (d : Detection) (m : re_found) :
  (on_match env base now content ty rule d m = d
   /\ (3 < List.length (extract m) -> In (extract m) (detected_contents d)))
  \/ (on_match env base now content ty rule d m
      = mkDetection
          (candidates d ++ [new_candidate env base now content d ty (extract m)
                                          (min_confidence rule + PATTERN_BONUS)%Q
                                          (py "pattern")])
          (detected_contents d ++ [extract m])
      /\ 3 < List.length (extract m)
      /\ ~ In (extract m) (detected_contents d)).
Proof.
  unfold on_match.
  destruct (nonempty (extract m)) eqn:N; simpl.
  - destruct (3 <? List.length (extract m)) eqn:L; simpl.
    + destruct (mem (extract m) (detected_contents d)) eqn:I; simpl.
      * left. split; [reflexivity|]. intros _. now apply mem_In.
      * right. split; [reflexivity|]. split; [now apply Nat.ltb_lt|].
        now apply mem_false.
    + left. split; [reflexivity|]. apply Nat.ltb_ge in L. lia.
  - left. split; [reflexivity|]. unfold nonempty in N.
    destruct (extract m); [simpl; lia | discriminate N].
Qed.

Lemma filter_of_type_app (ty : str) (l1 l2 : list Candidate) :
  filter (of_type ty) (l1 ++ l2) = filter (of_type ty) l1 ++ filter (of_type ty) l2.
Proof. apply filter_app. Qed.

Lemma filter_none (A : Type) (f : A -> bool) (l : list A) :
  (forall x, In x l -> f x = false) -> filter f l = [].
Proof.
  induction l as [|x l IH]; intro H; simpl; [reflexivity|].
  rewrite (H x (or_introl eq_refl)). apply IH. intros y Hy. apply H. now right.
Qed.

Lemma method_names_differ : py "pattern" <> py "keyword".
Proof. vm_compute. discriminate. Qed.

Lemma on_match_phase (ty : str) (rule : Rule) (p : Pattern) (d : Detection)
      (m : re_found) :
  In (ty, rule) all -> In p (patterns rule) ->
  In m (findall (pat_regex p) (pat_groups p) content) ->
  pattern_phase content all ty d ->
  pattern_phase content all ty (on_match env base now content ty rule d m)
  /\ grows d (on_match env base now content ty rule d m)
  /\ (3 < List.length (extract m) ->
      In (extract m) (detected_contents (on_match env base now content ty rule d m)))
  /\ (forall c, In c (candidates (on_match env base now content ty rule d m)) ->
                In c (candidates d) \/ cand_type c = ty).
Proof.
  intros Hall Hp Hm ([Hnd Hsync] & Hj & Hk & Hty).
  destruct (on_match_cases ty rule d m) as [[-> Hin] | [-> [Hlen Hnew]]].
  - split; [repeat split; assumption|]. split; [apply grows_refl|].
    split; [assumption|]. intros c Hc. now left.
  - set (c0 := new_candidate env base now content d ty (extract m)
                             (min_confidence rule + PATTERN_BONUS)%Q (py "pattern")).
    split; [|split; [|split]].
    + split; [|split; [|split]].
      * split; simpl.
        -- apply NoDup_app; [assumption | repeat constructor; simpl; tauto |].
           intros x Hx [<-|[]]. contradiction.
        -- rewrite !map_app, Hsync. reflexivity.
      * unfold justified in *. simpl. apply Forall_app. split; [assumption|].
        constructor; [|constructor]. exists (ty, rule). split; [assumption|]. left.
        unfold from_pattern. simpl. repeat split.
        exists p, m. repeat split; assumption.
      * unfold keyword_alone in *. simpl. intros c Hc Hkw.
        apply in_app_or in Hc as [Hc|[<-|[]]].
        -- rewrite filter_of_type_app, (Hk c Hc Hkw). simpl.
           unfold of_type at 1. simpl.
           destruct (str_eqb ty (cand_type c)) eqn:E; [|reflexivity].
           apply str_eqb_eq in E. symmetry in E.
           pose proof (Hty c Hc E) as Hpat. rewrite Hkw in Hpat.
           exfalso. apply method_names_differ. now symmetry.
        -- simpl in Hkw. exfalso. now apply method_names_differ.
      * simpl. intros c Hc Ht. apply in_app_or in Hc as [Hc|[<-|[]]].
        -- now apply Hty.
        -- reflexivity.
    + split; simpl; apply incl_appl; apply incl_refl.
    + intros _. simpl. apply in_or_app. right. now left.
    + simpl. intros c Hc. apply in_app_or in Hc as [Hc|[<-|[]]]; [now left|now right].
Qed.

Lemma on_matches_phase (ty : str) (rule : Rule) (p : Pattern) (ms : list re_found) :
  In (ty, rule) all -> In p (patterns rule) ->
  (forall m, In m ms -> In m (findall (pat_regex p) (pat_groups p) content)) ->
  forall d,
    pattern_phase content all ty d ->
    let d' := fold_left (on_match env base now content ty rule) ms d in
    pattern_phase content all ty d'
    /\ grows d d'
    /\ (forall m, In m ms -> 3 < List.length (extract m) ->
                  In (extract m) (detected_contents d'))
    /\ (forall c, In c (candidates d') -> In c (candidates d) \/ cand_type c = ty).
Proof.
  intros Hall Hp. induction ms as [|m ms IH]; intros Hms d Hd; simpl.
  - split; [assumption|]. split; [apply grows_refl|].
    split; [intros m []|]. intros c Hc. now left.
  - destruct (on_match_phase ty rule p d m Hall Hp (Hms m (or_introl eq_refl)) Hd)
      as (H1 & G1 & C1 & T1).
    destruct (IH (fun x Hx => Hms x (or_intror Hx)) _ H1) as (H2 & G2 & C2 & T2).
    split; [assumption|]. split; [eapply grows_trans; eassumption|].
    split.
    + intros x [<-|Hx] L; [|now apply C2]. apply G2. now apply C1.
    + intros c Hc. destruct (T2 c Hc) as [Hc'|]; [|now right]. now apply T1.
Qed.

Lemma on_patterns_phase (ty : str) (rule : Rule) (ps : list Pattern) :
  In (ty, rule) all ->
  (forall p, In p ps -> In p (patterns rule)) ->
  forall d,
    pattern_phase content all ty d ->
    let d' := fold_left (on_pattern env base now content ty rule) ps d in
    pattern_phase content all ty d'
    /\ grows d d'
    /\ (forall p m, In p ps ->
                    In m (findall (pat_regex p) (pat_groups p) content) ->
                    3 < List.length (extract m) ->
                    In (extract m) (detected_contents d'))
    /\ (forall c, In c (candidates d') -> In c (candidates d) \/ cand_type c = ty).
Proof.
  intros Hall. induction ps as [|p ps IH]; intros Hps d Hd; simpl.
  - split; [assumption|]. split; [apply grows_refl|].
    split; [intros p m []|]. intros c Hc. now left.
  - destruct (on_matches_phase ty rule p
                (findall (pat_regex p) (pat_groups p) content) Hall
                (Hps p (or_introl eq_refl)) (fun m Hm => Hm) d Hd)
      as (H1 & G1 & C1 & T1).
    fold (on_pattern env base now content ty rule d p) in H1, G1, C1, T1.
    destruct (IH (fun x Hx => Hps x (or_intror Hx)) _ H1) as (H2 & G2 & C2 & T2).
    split; [assumption|]. split; [eapply grows_trans; eassumption|].
    split.
    + intros q m [<-|Hq] Hm L; [|now apply (C2 q m)]. apply G2. now apply C1.
    + intros c Hc. destruct (T2 c Hc) as [Hc'|]; [|now right]. now apply T1.
Qed.

(** The keyword step of a rule. *)
Lemma on_keywords_phase (ty : str) (rule : Rule) (d : Detection) :
  In (ty, rule) all ->
  pattern_phase content all ty d ->
  let d' := on_keywords env base now content ty rule d in
  in_step d' /\ justified content all d' /\ keyword_alone d'
  /\ grows d d'
  /\ (forall c, In c (candidates d') -> In c (candidates d) \/ cand_type c = ty)
  /\ sentence_extracted content ty rule d'.
Proof.
  intros Hall ([Hnd Hsync] & Hj & Hk & Hty). unfold on_keywords.
  assert (Same : in_step d /\ justified content all d /\ keyword_alone d /\ grows d d
                 /\ (forall c, In c (candidates d) -> In c (candidates d) \/ cand_type c = ty)).
  { repeat split; try assumption; try apply incl_refl. intros c Hc. now left. }
  destruct (has_keyword (keywords rule) content) eqn:K.
  2:{ destruct Same as (A & B & C & D & E). repeat split; try assumption; try apply D.
      intros K'. unfold sentence_extracted. congruence. }
  destruct (mem ty (map cand_type (candidates d))) eqn:T; simpl.
  { destruct Same as (A & B & C & D & E). repeat split; try assumption; try apply D.
    intros _ sentence _. right. apply mem_In in T. apply in_map_iff in T as [c [Ec Hc]].
    exists c. repeat split; try assumption. now apply Hty. }
  apply mem_false in T.
  destruct (first_keyword_sentence content rule) as [sentence|] eqn:F.
  2:{ destruct Same as (A & B & C & D & E). repeat split; try assumption; try apply D.
      intros _ sentence E'. rewrite F in E'. discriminate E'. }
  destruct (mem sentence (detected_contents d)) eqn:I; simpl.
  { destruct Same as (A & B & C & D & E). repeat split; try assumption; try apply D.
    intros _ s' E'. rewrite F in E'. injection E' as <-. left. now apply mem_In. }
  apply mem_false in I.
  split; [|split; [|split; [|split; [|split]]]].
  - split; simpl.
    + apply NoDup_app; [assumption | repeat constructor; simpl; tauto |].
      intros x Hx [<-|[]]. contradiction.
    + rewrite !map_app, Hsync. reflexivity.
  - unfold justified in *. simpl. apply Forall_app. split; [assumption|].
    constructor; [|constructor]. exists (ty, rule). split; [assumption|]. right.
    unfold from_keywords. simpl. repeat split; try assumption.
    exists sentence. split; [assumption|reflexivity].
  - unfold keyword_alone in *. simpl. intros c Hc Hkw.
    apply in_app_or in Hc as [Hc|[<-|[]]].
    + rewrite filter_of_type_app, (Hk c Hc Hkw). simpl. unfold of_type at 1. simpl.
      destruct (str_eqb ty (cand_type c)) eqn:E; [|reflexivity].
      apply str_eqb_eq in E. exfalso. apply T. rewrite E. now apply in_map.
    + simpl. rewrite filter_of_type_app. simpl. unfold of_type at 2. simpl.
      rewrite str_eqb_refl.
      rewrite filter_none; [reflexivity|].
      intros c Hc. unfold of_type. apply str_eqb_neq. intro E. apply T.
      rewrite <- E. now apply in_map.
  - split; simpl; apply incl_appl; apply incl_refl.
  - simpl. intros c Hc. apply in_app_or in Hc as [Hc|[<-|[]]]; [now left|now right].
  - intros _ s' E'. rewrite F in E'. injection E' as <-. left. simpl.
    apply in_or_app. right. now left.
Qed.


Lemma on_rule_ok (done : list (str * Rule)) (d : Detection) (tr : str * Rule) :
  In tr all -> ~ In (fst tr) (map fst done) ->
  detection_ok content all done d ->
  detection_ok content all (done ++ [tr]) (on_rule env base now content d tr).
Proof.
  intros Hall Hnew (Hstep & Hj & Hk & Hty & HB & HE).
  destruct tr as [ty rule]. simpl in Hnew. unfold on_rule. simpl fst. simpl snd.
  assert (Hphase : pattern_phase content all ty d).
  { repeat split; try assumption; try apply Hstep.
    intros c Hc Et. exfalso. apply Hnew. rewrite <- Et. now apply Hty. }
  destruct (on_patterns_phase ty rule (patterns rule) Hall (fun p Hp => Hp) d Hphase)
    as (H1 & G1 & C1 & T1).
  set (d1 := fold_left (on_pattern env base now content ty rule) (patterns rule) d) in *.
  destruct (on_keywords_phase ty rule d1 Hall H1) as (S2 & J2 & K2 & G2 & T2 & E2).
  set (d2 := on_keywords env base now content ty rule d1) in *.
  assert (G : grows d d2) by (eapply grows_trans; eassumption).
  split; [assumption|]. split; [assumption|]. split; [assumption|].
  split; [|split].
  - intros c Hc. rewrite map_app. apply in_or_app.
    destruct (T2 c Hc) as [Hc1|Et]; [|right; simpl; now left].
    destruct (T1 c Hc1) as [Hc0|Et]; [|right; simpl; now left].
    left. now apply Hty.
  - intros tr Htr. apply in_app_or in Htr as [Htr|[<-|[]]].
    + intros p m Hp Hm L. apply G. now apply (HB tr Htr p m).
    + intros p m Hp Hm L. apply G2. now apply (C1 p m).
  - intros tr Htr. apply in_app_or in Htr as [Htr|[<-|[]]].
    + intros Kw sentence F. destruct (HE tr Htr Kw sentence F) as [I|[c [Hc Hrest]]].
      * left. now apply G.
      * right. exists c. split; [now apply G | assumption].
    + exact E2.
Qed.

Lemma on_rules_ok (todo : list (str * Rule)) :
  forall (done : list (str * Rule)) (d : Detection),
    NoDup (map fst (done ++ todo)) ->
    (forall tr, In tr todo -> In tr all) ->
    detection_ok content all done d ->
    detection_ok content all (done ++ todo)
                 (fold_left (on_rule env base now content) todo d).
Proof.
  induction todo as [|tr todo IH]; intros done d Hnd Hall Hd; simpl.
  - now rewrite app_nil_r.
  - replace (done ++ tr :: todo) with ((done ++ [tr]) ++ todo) in *
      by (rewrite <- app_assoc; reflexivity).
    apply IH; [assumption | intros x Hx; apply Hall; now right |].
    apply on_rule_ok; [apply Hall; now left | | assumption].
    rewrite !map_app in Hnd. apply NoDup_app_remove_r in Hnd.
    simpl in Hnd. apply NoDup_remove_2 in Hnd. now rewrite app_nil_r in Hnd.
Qed.

Lemma detect_ok :
  NoDup (map fst all) -> detection_ok content all all (detect env base now content all).
Proof.
  intro Hnd. unfold detect.
  apply (on_rules_ok all [] (mkDetection [] [])); [assumption | auto |].
  repeat split; simpl; try constructor; try contradiction.
  intros c [].
Qed.

End Extraction.

Lemma rule_types_differ : NoDup (map fst DETECTION_RULES).
Proof.
  repeat constructor; simpl; intuition discriminate.
Qed.

Lemma first_keyword_sentence_spec (content : str) (rule : Rule) (sentence : str) :
  first_keyword_sentence content rule = Some sentence ->
  In sentence (split_on is_sentence_end [] content)
  /\ has_keyword (keywords rule) sentence = true
  /\ 5 < List.length sentence.
Proof.
  unfold first_keyword_sentence. intro F. apply find_some in F as [Hin Hc].
  apply andb_true_iff in Hc as [Hk Hl]. apply Nat.ltb_lt in Hl. now repeat split.
Qed.

(** ** C7: the order of a pass *)

Lemma numbered_app (A B : Type) (f : nat -> A -> B) (l l' : list A) :
  forall i, numbered f i (l ++ l') = numbered f i l ++ numbered f (i + List.length l) l'.
Proof.
  induction l as [|a l IH]; intro i; simpl.
  - now rewrite Nat.add_0_r.
  - rewrite IH. now rewrite Nat.add_succ_r.
Qed.

Lemma numbered_length (A B : Type) (f : nat -> A -> B) (l : list A) :
  forall i, List.length (numbered f i l) = List.length l.
Proof. induction l as [|a l IH]; intro i; simpl; [reflexivity | now rewrite IH]. Qed.

Lemma numbered_types (env : Env) (base : nat) (now : Time) (content : str)
      (xs : list Extraction) :
  forall i, map cand_type (numbered (candidate_of env base now content) i xs)
            = map x_type xs.
Proof. induction xs as [|x xs IH]; intro i; simpl; [reflexivity | now rewrite IH]. Qed.

Lemma first_time_app (a b : list str) :
  forall seen,
    first_time seen (a ++ b)
    = first_time seen a ++ first_time (seen ++ first_time seen a) b.
Proof.
  induction a as [|t a IH]; intro seen; simpl.
  - now rewrite app_nil_r.
  - destruct (mem t seen).
    + apply IH.
    + rewrite IH. simpl. now rewrite <- app_assoc.
Qed.

Lemma first_time_sound (ts : list str) :
  forall seen t, In t (first_time seen ts) -> In t ts /\ ~ In t seen.
Proof.
  induction ts as [|u ts IH]; intros seen t H; simpl in H; [contradiction|].
  destruct (mem u seen) eqn:M.
  - destruct (IH seen t H) as [I N]. split; [now right | exact N].
  - apply mem_false in M. destruct H as [<-|H].
    + split; [now left | exact M].
    + destruct (IH _ t H) as [I N]. split; [now right|].
      intro F. apply N. apply in_or_app. now left.
Qed.

Lemma first_time_complete (ts : list str) :
  forall seen t, In t ts -> In t seen \/ In t (first_time seen ts).
Proof.
  induction ts as [|u ts IH]; intros seen t H; [contradiction|]. simpl.
  destruct (mem u seen) eqn:M.
  - destruct H as [<-|H]; [left; now apply mem_In | now apply IH].
  - destruct H as [<-|H]; [right; now left|].
    destruct (IH (seen ++ [u]) t H) as [I|I].
    + apply in_app_or in I as [I|[<-|[]]]; [now left | right; now left].
    + right. now right.
Qed.

Section Order.

Variable env : Env.
Variable base : nat.
Variable now : Time.
Variable content : str.

Lemma texts_of_new (ty : str) (rule : Rule) (by_pattern : bool) (ts : list str) :
  map x_text (map (mkExtraction ty rule by_pattern) ts) = ts.
Proof. induction ts as [|t ts IH]; simpl; [reflexivity | now rewrite IH]. Qed.

Lemma on_match_holds (ty : str) (rule : Rule) (d : Detection) (xs : list Extraction)
      (m : re_found) :
  holds env base now content d xs ->
  holds env base now content (on_match env base now content ty rule d m)
      (xs ++ map (mkExtraction ty rule true)
                 (first_time (map x_text xs) (filter long_enough [extract m]))).
Proof.
  destruct d as [cs ds]. intros [Hc Hd]. cbn [candidates detected_contents] in Hc, Hd.
  subst cs ds. unfold holds, on_match, new_candidate, long_enough. cbv zeta.
  cbn [filter candidates detected_contents].
  assert (N : nonempty (extract m) && (3 <? List.length (extract m))
              = (3 <? List.length (extract m))).
  { destruct (extract m); reflexivity. }
  rewrite N.
  destruct (3 <? List.length (extract m)); cbn [first_time andb].
  - destruct (mem (extract m) (map x_text xs)); cbn [negb map candidates detected_contents].
    + rewrite app_nil_r. now split.
    + split.
      * rewrite numbered_app. cbn [numbered]. f_equal.
        rewrite numbered_length. reflexivity.
      * rewrite map_app. reflexivity.
  - rewrite app_nil_r. now split.
Qed.

Lemma new_texts_extend (ty : str) (rule : Rule) (xs : list Extraction) (a b : list str) :
  xs ++ map (mkExtraction ty rule true) (first_time (map x_text xs) (a ++ b))
  = (xs ++ map (mkExtraction ty rule true) (first_time (map x_text xs) a))
      ++ map (mkExtraction ty rule true)
             (first_time
                (map x_text (xs ++ map (mkExtraction ty rule true)
                                       (first_time (map x_text xs) a))) b).
Proof.
  rewrite first_time_app, map_app, <- app_assoc. f_equal. f_equal. f_equal. f_equal.
  now rewrite map_app, texts_of_new.
Qed.

Lemma on_matches_hold (ty : str) (rule : Rule) (ms : list re_found) :
  forall d xs,
    holds env base now content d xs ->
    holds env base now content (fold_left (on_match env base now content ty rule) ms d)
        (xs ++ map (mkExtraction ty rule true)
                   (first_time (map x_text xs) (filter long_enough (map extract ms)))).
Proof.
  induction ms as [|m ms IH]; intros d xs H.
  - simpl. now rewrite app_nil_r.
  - cbn [fold_left map].
    change (extract m :: map extract ms) with ([extract m] ++ map extract ms).
    rewrite filter_app, new_texts_extend.
    apply IH. now apply on_match_holds.
Qed.

Lemma on_patterns_hold (ty : str) (rule : Rule) (ps : list Pattern) :
  forall d xs,
    holds env base now content d xs ->
    holds env base now content (fold_left (on_pattern env base now content ty rule) ps d)
        (xs ++ map (mkExtraction ty rule true)
                   (first_time (map x_text xs)
                      (filter long_enough
                         (flat_map (fun p => map extract
                                      (findall (pat_regex p) (pat_groups p) content))
                                   ps)))).
Proof.
  induction ps as [|p ps IH]; intros d xs H.
  - simpl. now rewrite app_nil_r.
  - cbn [fold_left flat_map]. rewrite filter_app, new_texts_extend.
    apply IH. unfold on_pattern. now apply on_matches_hold.
Qed.

Lemma on_rule_holds (tr : str * Rule) (d : Detection) (xs : list Extraction) :
  holds env base now content d xs ->
  (forall x, In x xs -> x_type x <> fst tr) ->
  holds env base now content (on_rule env base now content d tr)
      (xs ++ rule_extractions content (map x_text xs) tr).
Proof.
  intros H Hty. destruct tr as [ty rule]. cbn [fst snd] in *.
  unfold on_rule. cbn [fst snd].
  pose proof (on_patterns_hold ty rule (patterns rule) d xs H) as P.
  fold (pattern_texts content rule) in P.
  destruct (fold_left (on_pattern env base now content ty rule) (patterns rule) d)
    as [cs ds].
  unfold rule_extractions. cbn [fst snd].
  destruct P as [Pc Pd]. cbn [candidates detected_contents] in Pc, Pd. subst cs ds.
  generalize (first_time (map x_text xs) (filter long_enough (pattern_texts content rule))).
  intro new.
  assert (T : mem ty (map cand_type
                          (numbered (candidate_of env base now content) 0
                                    (xs ++ map (mkExtraction ty rule true) new)))
              = match new with [] => false | _ => true end).
  { rewrite numbered_types, map_app.
    unfold mem. rewrite existsb_app.
    assert (A : existsb (str_eqb ty) (map x_type xs) = false).
    { apply (mem_false ty (map x_type xs)). intro I.
      apply in_map_iff in I as [x [E Hx]]. now apply (Hty x Hx). }
    rewrite A. destruct new as [|t ts]; [reflexivity|]. simpl.
    now rewrite str_eqb_refl. }
  unfold holds, on_keywords, new_candidate. cbn [candidates detected_contents].
  rewrite T.
  destruct new as [|t ts].
  - cbn [map]. rewrite !app_nil_r.
    destruct (has_keyword (keywords rule) content);
      [|rewrite app_nil_r; now split].
    cbn [negb].
    destruct (first_keyword_sentence content rule) as [sentence|];
      [|rewrite app_nil_r; now split].
    destruct (mem sentence (map x_text xs)); cbn [negb candidates detected_contents].
    + rewrite app_nil_r. now split.
    + split.
      * rewrite numbered_app. cbn [numbered]. f_equal.
        rewrite numbered_length. reflexivity.
      * rewrite map_app. reflexivity.
  - cbn [negb]. destruct (has_keyword (keywords rule) content); now split.
Qed.

Lemma rule_extractions_type (seen : list str) (tr : str * Rule) (x : Extraction) :
  In x (rule_extractions content seen tr) -> x_type x = fst tr /\ x_rule x = snd tr.
Proof.
  unfold rule_extractions.
  destruct (first_time seen (filter long_enough (pattern_texts content (snd tr))))
    as [|t ts].
  - destruct (has_keyword (keywords (snd tr)) content); [|contradiction].
    destruct (first_keyword_sentence content (snd tr)) as [sentence|]; [|contradiction].
    destruct (mem sentence seen); [contradiction|].
    intros [<-|[]]. now split.
  - intro H. apply in_map_iff in H as [u [<- _]]. now split.
Qed.

Lemma on_rules_hold (rules : list (str * Rule)) :
  forall d xs,
    NoDup (map fst rules) ->
    (forall x, In x xs -> ~ In (x_type x) (map fst rules)) ->
    holds env base now content d xs ->
    holds env base now content (fold_left (on_rule env base now content) rules d)
        (xs ++ extractions content (map x_text xs) rules).
Proof.
  induction rules as [|tr rules IH]; intros d xs N Hty H.
  - simpl. now rewrite app_nil_r.
  - cbn [fold_left extractions]. inversion N as [|? ? Hn Hr]; subst.
    rewrite app_assoc.
    replace (map x_text xs ++ map x_text (rule_extractions content (map x_text xs) tr))
      with (map x_text (xs ++ rule_extractions content (map x_text xs) tr))
      by apply map_app.
    apply IH; [exact Hr | |].
    + intros x Hx I. apply in_app_or in Hx as [Hx|Hx].
      * apply (Hty x Hx). now right.
      * apply rule_extractions_type in Hx as [E _]. apply Hn. now rewrite <- E.
    + apply on_rule_holds; [exact H|].
      intros x Hx E. apply (Hty x Hx). left. now symmetry.
Qed.

(** The pass over the rule table, extraction by extraction. *)
Lemma detect_in_order (rules : list (str * Rule)) :
  NoDup (map fst rules) ->
  holds env base now content (detect env base now content rules) (extractions content [] rules).
Proof.
  intro N. unfold detect.
  apply (on_rules_hold rules (mkDetection [] []) [] N).
  - intros x [].
  - split; reflexivity.
Qed.

End Order.

Lemma extractions_rules (content : str) (rules : list (str * Rule)) :
  forall seen x,
    In x (extractions content seen rules) -> In (x_type x, x_rule x) rules.
Proof.
  induction rules as [|tr rules IH]; intros seen x H; [contradiction|].
  cbn [extractions] in H. apply in_app_or in H as [H|H].
  - apply rule_extractions_type in H as [E1 E2]. left.
    destruct tr; simpl in *. now subst.
  - right. exact (IH _ x H).
Qed.

Lemma extractions_app (content : str) (before after : list (str * Rule)) :
  forall seen,
    extractions content seen (before ++ after)
    = extractions content seen before
      ++ extractions content (seen ++ map x_text (extractions content seen before)) after.
Proof.
  induction before as [|tr before IH]; intro seen.
  - simpl. now rewrite app_nil_r.
  - cbn [app extractions]. rewrite IH. rewrite (map_app x_text).
    rewrite (app_assoc seen).
    rewrite <- (app_assoc (rule_extractions content seen tr)). reflexivity.
Qed.

(** A text found by a pattern of a rule belongs to that rule, or to a rule
    before it in the table. *)
Lemma pattern_text_owner (content : str) (before after : list (str * Rule))
      (tr : str * Rule) (p : Pattern) (m : re_found) :
  In p (patterns (snd tr)) ->
  In m (findall (pat_regex p) (pat_groups p) content) ->
  3 < List.length (extract m) ->
  exists x,
    In x (extractions content [] (before ++ tr :: after))
    /\ x_text x = extract m
    /\ In (x_type x, x_rule x) (before ++ [tr])
    /\ ((forall y, In y (extractions content [] before) -> x_text y <> extract m) ->
        x_type x = fst tr /\ x_rule x = snd tr /\ x_by_pattern x = true).
Proof.
  intros Hp Hm Hl.
  rewrite extractions_app. cbn [app extractions].
  set (xs := extractions content [] before).
  set (seen := map x_text xs).
  assert (Ht : In (extract m) (filter long_enough (pattern_texts content (snd tr)))).
  { apply filter_In. split; [|now apply Nat.ltb_lt].
    unfold pattern_texts. apply in_flat_map. exists p. split; [exact Hp|].
    now apply in_map. }
  destruct (first_time_complete _ seen (extract m) Ht) as [I|I].
  - unfold seen in I. apply in_map_iff in I as [x [E Hx]].
    exists x. split; [apply in_or_app; now left|]. split; [exact E|]. split.
    + apply in_or_app. left. now apply (extractions_rules content before [] x).
    + intro H. exfalso. now apply (H x Hx).
  - assert (R : rule_extractions content seen tr
                = map (mkExtraction (fst tr) (snd tr) true)
                      (first_time seen
                                  (filter long_enough (pattern_texts content (snd tr))))).
    { unfold rule_extractions.
      destruct (first_time seen (filter long_enough (pattern_texts content (snd tr))));
        [contradiction | reflexivity]. }
    exists (mkExtraction (fst tr) (snd tr) true (extract m)).
    split.
    + apply in_or_app. right. cbn [app]. apply in_or_app. left.
      rewrite R. now apply in_map.
    + split; [reflexivity|]. split.
      * apply in_or_app. right. left. now destruct tr.
      * intros _. repeat split.
Qed.



(** ** The claims at work on concrete inputs *)

(** C1 at work: the second caller joins the warm-up the first one started,
    and gets the pool of the first. *)
Lemma warmup_is_single_flight_witness :
  spawned (run [Call SpawnOk CompletesOk]) = 1
  /\ snd (_init_process_pool SpawnOk CompletesOk (run [Call SpawnOk CompletesOk]))
     = Returned (mkPool 1 0)
  /\ spawned (fst (_init_process_pool SpawnOk CompletesOk (run [Call SpawnOk CompletesOk])))
     = 1.
Proof.
  pose proof (warmup_is_single_flight [Call SpawnOk CompletesOk] SpawnOk CompletesOk) as H.
  cbv zeta in H. destruct H as (_ & _ & H). simpl in H.
  destruct H as (_ & H1 & _ & H2 & _ & _ & H3 & _). repeat split; assumption.
Defined.

(** C6 at work: a Decision candidate at confidence 0.9, met in the middle
    of [idle_episode], lands in the project store and in the episode. *)
Lemma routing_by_confidence_witness :
  map doc_id (project_store (fst (route healthy_env 0%Z confident_candidate busy_manager)))
  = [py "ent_00000000"]
  /\ option_map ep_entity_ids
                (current_episode (fst (route healthy_env 0%Z confident_candidate busy_manager)))
     = Some [py "ent_00000000"]
  /\ pending_entities (fst (route healthy_env 0%Z confident_candidate busy_manager)) = [].
Proof.
  pose proof (routing_by_confidence healthy_env 0%Z confident_candidate busy_manager) as H.
  cbv zeta in H. destruct H as [H _].
  change (Qle_bool AUTO_CONFIRM_THRESHOLD (confidence confident_candidate)) with true in H.
  change (encoder healthy_env (extracted_content confident_candidate))
    with (@Returned Vector [0%Z]) in H.
  cbv iota in H.
  change (mem (cand_type confident_candidate) USER_LEVEL_TYPES) with false in H.
  cbv iota in H.
  destruct H as (_ & _ & _ & [Hp _] & He & Hq).
  rewrite Hp, He, Hq. vm_compute. repeat split.
Defined.



(** ** The supervisor's flags *)

Lemma flags_consistent_initial : flags_consistent initial.
Proof. unfold flags_consistent, initial; simpl. repeat split; congruence. Qed.

Lemma flags_consistent_complete (ok : bool) (s : State) :
  flags_consistent s -> flags_consistent (complete ok s).
Proof.
  intros H. pose proof H as (Hr & Hl & Hp). unfold complete.
  destruct (_warmup_future s) as [[| |]|] eqn:F; try exact H.
  unfold flags_consistent, on_done; simpl.
  destruct ok; repeat split; intros; try congruence;
    try (apply Hp; congruence);
    match goal with R : _encoder_ready s = true |- _ => specialize (Hr R); congruence end.
Qed.

Lemma flags_consistent_call (sp : Spawn) (w : Wait) (s : State) :
  flags_consistent s -> flags_consistent (fst (_init_process_pool sp w s)).
Proof.
  intros H. pose proof H as (Hr & Hl & Hp). unfold _init_process_pool.
  destruct (_process_pool s) as [pool|] eqn:P.
  - destruct (_warmup_future s) as [[| |]|] eqn:F; try exact H.
    destruct w; unfold complete; rewrite ?F; unfold flags_consistent, on_done; simpl;
      rewrite ?P, ?F; repeat split; intros; try congruence;
      match goal with R : _encoder_ready s = true |- _ => specialize (Hr R); congruence end.
  - assert (F : _warmup_future s = None).
    { destruct (_warmup_future s) eqn:F; [|reflexivity].
      exfalso. apply Hp; congruence. }
    assert (R : _encoder_ready s = false).
    { destruct (_encoder_ready s); [|reflexivity]. specialize (Hr eq_refl). congruence. }
    destruct sp; unfold flags_consistent; simpl; rewrite ?F, ?R; repeat split; congruence.
Qed.

Lemma flags_consistent_run (evs : list Event) : flags_consistent (run evs).
Proof.
  unfold run. generalize flags_consistent_initial. generalize initial as s.
  induction evs as [|e evs IH]; intros s H; simpl; [assumption|].
  apply IH. destruct e as [sp w|ok]; simpl.
  - now apply flags_consistent_call.
  - now apply flags_consistent_complete.
Qed.

Lemma run_app (evs more : list Event) :
  run (evs ++ more) = fold_left step more (run evs).
Proof. unfold run. apply fold_left_app. Qed.

(** ** The supervisor's flags, statement by statement *)

Lemma sound_step (y : Statements.Threads) (m : Statements.Move) :
  Statements.sound y = true -> Statements.sound (Statements.step y m) = true.
Proof.
  destruct y as [[pool future ready loading n k] h cb].
  destruct pool as [p|], future as [[| |]|], ready, loading, h, cb;
    try (intros H; discriminate H);
    destruct m as [|[|]|[|]|]; intros _; reflexivity.
Qed.

Lemma sound_from (moves : list Statements.Move) (y : Statements.Threads) :
  Statements.sound y = true ->
  Statements.sound (fold_left Statements.step moves y) = true.
Proof.
  revert y. induction moves as [|m moves IH]; intros y H; simpl; [exact H|].
  apply IH. now apply sound_step.
Qed.

Lemma sound_run (moves : list Statements.Move) :
  Statements.sound (Statements.run moves) = true.
Proof. apply sound_from. reflexivity. Qed.

Lemma moves_of_step (y : Statements.Threads) (e : Event) :
  Statements.quiet y = true ->
  Statements.globals
    (fold_left Statements.step (Statements.moves_of (Statements.globals y) e) y)
  = Supervisor.step (Statements.globals y) e
  /\ Statements.quiet
       (fold_left Statements.step (Statements.moves_of (Statements.globals y) e) y)
     = true.
Proof.
  destruct y as [[pool future ready loading n k] h cb].
  destruct h; try (intros H; vm_compute in H; discriminate H);
    try (intros H; unfold Statements.quiet, Statements.at_rest in H; simpl in H;
         rewrite andb_false_r in H; discriminate H).
  destruct pool as [p|], future as [[| |]|], ready, loading, cb;
    try (intros H; discriminate H);
    destruct e as [[| |] [| |]|[|]]; intros _; split; reflexivity.
Qed.

Lemma schedule_from (evs : list Event) (y : Statements.Threads) :
  Statements.quiet y = true ->
  Statements.globals
    (fold_left Statements.step (Statements.schedule (Statements.globals y) evs) y)
  = fold_left Supervisor.step evs (Statements.globals y)
  /\ Statements.quiet
       (fold_left Statements.step (Statements.schedule (Statements.globals y) evs) y)
     = true.
Proof.
  revert y. induction evs as [|e evs IH]; intros y Q; simpl; [now split|].
  rewrite fold_left_app.
  destruct (moves_of_step y e Q) as [G Q'].
  rewrite <- G. now apply IH.
Qed.

(** X1: the flags with every assignment of [_init_process_pool] and
    [on_done] a step of its own, and the caller that holds [_pool_lock],
    the worker and the callback moving in any order.  After every sequence
    of moves: [is_encoder_ready] answers true only when the warm-up future
    has succeeded and the pool exists; [is_encoder_loading] answers true
    only while a caller is between line 156 and the end of its call, or
    the callback is registered and has not run to its end; the two answer
    true together only while a thread stands between [_encoder_ready =
    True] and the [_encoder_loading = False] that follows it, so never when
    no caller is inside and [on_done] is not half way, where a true
    [is_encoder_loading] also means that the pool and the future exist.
    The states in between are reached: both flags are true after line 181
    of the callback, [is_encoder_loading] is true with no pool after line
    156, and true with the warm-up already over before the callback
    starts.  The one-step supervisor is this one on the schedules with
    nothing in between: every state of its runs is the state of the
    globals after such a schedule. *)
Theorem encoder_flags_follow_the_warmup (moves : list Statements.Move) :
  let y := Statements.run moves in
  let s := Statements.globals y in
  (is_encoder_ready s = true ->
     _warmup_future s = Some Succeeded
     /\ exists pool, _process_pool s = Some pool)
  /\ (is_encoder_loading s = true ->
        Statements.building (Statements.holder y) = true
        \/ Statements.reporting (Statements.callback y) = true)
  /\ (is_encoder_ready s = true -> is_encoder_loading s = true ->
        Statements.between_writes y = true)
  /\ (Statements.at_rest y = true ->
        is_encoder_ready s && is_encoder_loading s = false
        /\ (is_encoder_loading s = true ->
              Statements.callback y = Statements.Added
              /\ (exists f, _warmup_future s = Some f)
              /\ exists pool, _process_pool s = Some pool))
  /\ (let y1 := Statements.run [Statements.Enter; Statements.Next false;
                                Statements.Next false; Statements.Next false;
                                Statements.Next false; Statements.WorkerEnds true;
                                Statements.CallbackNext] in
      is_encoder_ready (Statements.globals y1) = true
      /\ is_encoder_loading (Statements.globals y1) = true
      /\ Statements.holder y1 = Statements.Outside
      /\ Statements.callback y1 = Statements.CallbackReadySet)
  /\ (let y2 := Statements.run [Statements.Enter; Statements.Next false] in
      is_encoder_loading (Statements.globals y2) = true
      /\ _process_pool (Statements.globals y2) = None
      /\ Statements.holder y2 = Statements.LoadingSet)
  /\ (let y3 := Statements.run [Statements.Enter; Statements.Next false;
                                Statements.Next false; Statements.Next false;
                                Statements.Next false; Statements.WorkerEnds false] in
      is_encoder_loading (Statements.globals y3) = true
      /\ in_flight (Statements.globals y3) = false
      /\ Statements.at_rest y3 = true)
  /\ (forall evs : list Event,
        Statements.globals (Statements.run (Statements.schedule Supervisor.initial evs))
        = Supervisor.run evs
        /\ Statements.at_rest (Statements.run (Statements.schedule Supervisor.initial evs))
           = true).
Proof.
  intros y s.
  pose proof (sound_run moves) as H. fold y in H.
  unfold is_encoder_ready, is_encoder_loading.
  split; [|split; [|split; [|split; [|split; [|split; [|split]]]]]].
  - intros R. subst s.
    destruct y as [[pool future ready loading n k] h cb]. simpl in *. subst ready.
    destruct pool as [p|], future as [[| |]|], loading, h, cb;
      try discriminate H; (split; [reflexivity|now exists p]).
  - intros L. subst s.
    destruct y as [[pool future ready loading n k] h cb]. simpl in *. subst loading.
    destruct pool as [p|], future as [[| |]|], ready, h, cb;
      try discriminate H; simpl; auto.
  - intros R L. subst s.
    destruct y as [[pool future ready loading n k] h cb]. simpl in *. subst ready loading.
    destruct pool as [p|], future as [[| |]|], h, cb;
      try discriminate H; reflexivity.
  - intros A. subst s.
    destruct y as [[pool future ready loading n k] h cb]. simpl in *.
    destruct h; try discriminate A.
    destruct pool as [p|], future as [[| |]|], ready, loading, cb;
      try discriminate H; try discriminate A;
      (split; [reflexivity|]); intros L; try discriminate L;
      (split; [reflexivity|]); (split; [eexists; reflexivity|]); now exists p.
  - vm_compute. repeat split.
  - vm_compute. repeat split.
  - vm_compute. repeat split.
  - intros evs.
    destruct (schedule_from evs Statements.initial eq_refl) as [G Q].
    split; [exact G|].
    unfold Statements.quiet in Q.
    apply andb_true_iff in Q as [Q _]. apply andb_true_iff in Q as [_ Q]. exact Q.
Qed.

(** A failed warm-up stays failed under every later step. *)
Lemma failed_warmup_is_final (more : list Event) (s : State) :
  flags_consistent s -> _warmup_future s = Some Failed ->
  let s' := fold_left step more s in
  _warmup_future s' = Some Failed /\ _encoder_ready s' = false
  /\ probes s' = probes s /\ spawned s' = spawned s
  /\ _process_pool s' = _process_pool s.
Proof.
  revert s. induction more as [|e more IH]; intros s Hc F; simpl.
  - destruct Hc as (Hr & _ & _). repeat split; try assumption.
    destruct (_encoder_ready s); [|reflexivity]. specialize (Hr eq_refl). congruence.
  - assert (E : step s e = s).
    { destruct e as [sp w|ok]; simpl.
      - unfold _init_process_pool.
        destruct (_process_pool s) as [pool|] eqn:P.
        + rewrite F. reflexivity.
        + exfalso. destruct Hc as (_ & _ & Hp). apply Hp; congruence.
      - unfold complete. rewrite F. reflexivity. }
    rewrite E. now apply IH.
Qed.

(** X2: a warm-up that has failed is never tried again.  From a run that
    ends with the warm-up future failed, whatever callers and endings
    follow, the future stays failed, [is_encoder_ready] stays false, no new
    warm-up is submitted and no pool is built, and every caller of
    [_init_process_pool] is handed the existing pool. *)
Theorem failed_warmup_is_never_retried (evs more : list Event)
  (sp : Spawn) (w : Wait) :
  _warmup_future (run evs) = Some Failed ->
  _warmup_future (run (evs ++ more)) = Some Failed
  /\ is_encoder_ready (run (evs ++ more)) = false
  /\ probes (run (evs ++ more)) = probes (run evs)
  /\ spawned (run (evs ++ more)) = spawned (run evs)
  /\ exists pool,
       _process_pool (run evs) = Some pool
       /\ _init_process_pool sp w (run (evs ++ more))
          = (run (evs ++ more), Returned pool).
Proof.
  intros F. rewrite run_app.
  destruct (failed_warmup_is_final more (run evs) (flags_consistent_run evs) F)
    as (F' & R' & Pr & Sp & Po).
  unfold is_encoder_ready. repeat split; try assumption.
  destruct (flags_consistent_run evs) as (_ & _ & Hp).
  destruct (_process_pool (run evs)) as [pool|] eqn:P.
  - exists pool. split; [reflexivity|].
    unfold _init_process_pool. rewrite Po, F'. reflexivity.
  - exfalso. apply Hp; congruence.
Qed.

Lemma failed_warmup_is_never_retried_witness :
  _warmup_future (run [Call SpawnOk CompletesOk; WarmupEnds false]) = Some Failed
  /\ is_encoder_ready
       (run ([Call SpawnOk CompletesOk; WarmupEnds false]
             ++ [Call SpawnOk CompletesOk; WarmupEnds true; Call SpawnOk TimesOut]))
     = false.
Proof.
  split; [reflexivity|].
  apply (failed_warmup_is_never_retried
           [Call SpawnOk CompletesOk; WarmupEnds false]
           [Call SpawnOk CompletesOk; WarmupEnds true; Call SpawnOk TimesOut]
           SpawnOk CompletesOk).
  reflexivity.
Defined.

(** X3: once [is_encoder_ready] answers true, [encode_text] neither builds
    a pool nor waits: it leaves the supervisor as it is and answers with
    what the job gives, the vector or the encoding failure. *)
Theorem encode_text_when_ready (evs : list Event) (sp : Spawn) (w : Wait)
  (job : str -> Job) (text : str) :
  is_encoder_ready (run evs) = true ->
  encode_text sp w job text (run evs) = (run evs, job_outcome (job text)).
Proof.
  intros R. destruct (flags_consistent_run evs) as (Hr & _ & Hp).
  unfold is_encoder_ready in R. specialize (Hr R).
  unfold encode_text, _init_process_pool.
  destruct (_process_pool (run evs)) as [pool|] eqn:P.
  - rewrite Hr. destruct (job text); reflexivity.
  - exfalso. apply Hp; congruence.
Qed.

Lemma encode_text_when_ready_witness :
  is_encoder_ready (run [Call SpawnOk CompletesOk; WarmupEnds true]) = true
  /\ encode_text ConstructorRaises TimesOut (fun _ => JobResult [7%Z]) (py "hello")
       (run [Call SpawnOk CompletesOk; WarmupEnds true])
     = (run [Call SpawnOk CompletesOk; WarmupEnds true], Returned [7%Z]).
Proof.
  split; [reflexivity|].
  apply (encode_text_when_ready [Call SpawnOk CompletesOk; WarmupEnds true]
           ConstructorRaises TimesOut (fun _ => JobResult [7%Z]) (py "hello")).
  reflexivity.
Defined.

(** X4: [shutdown_encoder] always ends with no pool, no warm-up future and
    both flags false, whatever the wait for an unfinished warm-up did; a
    second shutdown changes nothing.  After a shutdown that followed any
    run, the next caller builds a pool again, numbered differently from
    the one shut down, and submits a new warm-up. *)
Theorem shutdown_resets_and_allows_restart (evs : list Event) (w w' w'' : Wait) :
  _process_pool (shutdown_encoder w (run evs)) = None
  /\ _warmup_future (shutdown_encoder w (run evs)) = None
  /\ is_encoder_ready (shutdown_encoder w (run evs)) = false
  /\ is_encoder_loading (shutdown_encoder w (run evs)) = false
  /\ shutdown_encoder w' (shutdown_encoder w (run evs)) = shutdown_encoder w (run evs)
  /\ exists s' pool,
       _init_process_pool SpawnOk w'' (shutdown_encoder w (run evs)) = (s', Returned pool)
       /\ _process_pool s' = Some pool
       /\ in_flight s' = true
       /\ is_encoder_loading s' = true
       /\ is_encoder_ready s' = false
       /\ probes s' = S (probes (run evs))
       /\ forall old, _process_pool (run evs) = Some old -> serial pool <> serial old.
Proof.
  destruct (flags_consistent_run evs) as (Hr & Hl & Hp).
  destruct (single_pool_run evs) as (Hs & _).
  assert (Hser : forall old, _process_pool (run evs) = Some old -> serial old < spawned (run evs)).
  { clear. unfold run.
    assert (G : forall es s,
               (forall old, _process_pool s = Some old -> serial old < spawned s) ->
               forall old, _process_pool (fold_left step es s) = Some old ->
                           serial old < spawned (fold_left step es s)).
    { induction es as [|e es IH]; intros s H; [exact H|].
      cbn [fold_left]. apply IH. destruct e as [sp w|ok]; cbn [step].
      - unfold _init_process_pool.
        destruct (_process_pool s) as [pool|] eqn:P.
        + destruct (_warmup_future s) as [[| |]|] eqn:F; cbn [fst]; rewrite ?P; try exact H.
          destruct w; unfold complete; rewrite ?F; cbn; rewrite ?P; exact H.
        + destruct sp; cbn; intros old E; inversion E; subst; cbn; lia.
      - unfold complete.
        destruct (_warmup_future s) as [[| |]|]; cbn; exact H. }
    apply G. simpl. discriminate. }
  unfold shutdown_encoder, is_encoder_ready, is_encoder_loading.
  destruct (_process_pool (run evs)) as [old|] eqn:P.
  - simpl. repeat split.
    set (s1 := match _warmup_future (run evs) with
               | Some Pending => _
               | _ => _ end).
    assert (E1 : spawned s1 = spawned (run evs) /\ probes s1 = probes (run evs)).
    { subst s1. destruct (_warmup_future (run evs)) as [[| |]|] eqn:F; try (split; reflexivity).
      destruct w; unfold complete; rewrite ?F; simpl; split; reflexivity. }
    destruct E1 as (E1 & E2).
    eexists; eexists. split; [reflexivity|]. simpl. repeat split.
    + now rewrite E2.
    + intros old' E. inversion E; subst. rewrite E1.
      specialize (Hser old' eq_refl). lia.
  - assert (F : _warmup_future (run evs) = None).
    { destruct (_warmup_future (run evs)) eqn:F; [|reflexivity].
      exfalso. apply Hp; congruence. }
    assert (R : _encoder_ready (run evs) = false).
    { destruct (_encoder_ready (run evs)); [|reflexivity]. specialize (Hr eq_refl). congruence. }
    assert (L : _encoder_loading (run evs) = false).
    { destruct (_encoder_loading (run evs)); [|reflexivity]. specialize (Hl eq_refl). congruence. }
    rewrite P. repeat split; try assumption.
    unfold _init_process_pool. rewrite P.
    eexists; eexists. split; [reflexivity|]. simpl. repeat split; try assumption.
    intros old E. discriminate.
Qed.

(** ** The encoder worker *)

(** X5: the worker that has loaded its model first says it is ready and
    then owes exactly one reply, in order, to every line that is not
    blank, up to the first request to quit; nothing after that request is
    answered.  A line that is not JSON, or not an object, or an encoding
    that raises, costs one failure reply and the loop goes on. *)
Theorem worker_replies_once_per_request (Json : Type)
  (encode : Json -> option Vector) (encode_all : Json -> option (list Vector))
  (is_quit : Json -> bool) (lines : list (Worker.Line Json)) :
  Worker.main encode encode_all is_quit true lines
  = Worker.Ready
      :: map (Worker.reply_to encode encode_all)
             (filter (fun l => negb (Worker.blank l)) (Worker.before_quit is_quit lines))
  /\ (forall before bad after,
        lines = before ++ bad :: after ->
        bad = Worker.Undecodable \/ bad = Worker.NotAnObject ->
        existsb (Worker.quits is_quit) before = false ->
        Worker.main encode encode_all is_quit true lines
        = Worker.main encode encode_all is_quit true before
            ++ Worker.Failure :: Worker.serve encode encode_all is_quit after).
Proof.
  assert (S : forall ls, Worker.serve encode encode_all is_quit ls
              = map (Worker.reply_to encode encode_all)
                    (filter (fun l => negb (Worker.blank l)) (Worker.before_quit is_quit ls))).
  { induction ls as [|l ls IH]; [reflexivity|].
    destruct l as [| | |[t|] [ts|] cmd]; simpl; rewrite ?IH; try reflexivity.
    - destruct (encode t); reflexivity.
    - destruct (encode t); reflexivity.
    - destruct (encode_all ts); reflexivity.
    - destruct cmd as [c|]; [destruct (is_quit c)|]; reflexivity. }
  split.
  - unfold Worker.main. now rewrite S.
  - intros before bad after -> Hbad Hq. unfold Worker.main. simpl. f_equal.
    induction before as [|l ls IH]; simpl.
    + destruct Hbad as [-> | ->]; reflexivity.
    + simpl in Hq. apply orb_false_iff in Hq. destruct Hq as (Hl & Hls).
      specialize (IH Hls).
      destruct l as [| | |[t|] [ts|] cmd]; simpl; rewrite ?IH; try reflexivity.
      * destruct (encode t); reflexivity.
      * destruct (encode t); reflexivity.
      * destruct (encode_all ts); reflexivity.
      * simpl in Hl. destruct cmd as [c|]; [rewrite Hl|]; reflexivity.
Qed.
(** ** [VectorStore]: records by id and by type *)

Lemma find_has_id_none (c : Collection) (i : str) :
  find (has_id i) c = None <-> ~ In i (coll_ids c).
Proof.
  unfold coll_ids. induction c as [|d c IH]; simpl.
  - split; [intros _ [] | reflexivity].
  - unfold has_id at 1. destruct (str_eqb i (doc_id d)) eqn:E.
    + apply str_eqb_eq in E. split; [discriminate|]. intro H. exfalso. apply H. now left.
    + apply str_eqb_neq in E. rewrite IH. split.
      * intros H [F|F]; [congruence | contradiction].
      * intros H F. apply H. now right.
Qed.

Lemma find_has_id_app (c : Collection) (d : Doc) (j : str) :
  find (has_id j) (c ++ [d])
  = match find (has_id j) c with
    | Some x => Some x
    | None => if has_id j d then Some d else None
    end.
Proof.
  induction c as [|x c IH]; simpl; [reflexivity|].
  destruct (has_id j x); [reflexivity | exact IH].
Qed.

Lemma find_has_id_delete (c : Collection) (i j : str) :
  find (has_id j) (coll_delete c i)
  = if str_eqb j i then None else find (has_id j) c.
Proof.
  unfold coll_delete. induction c as [|d c IH]; simpl.
  - now destruct (str_eqb j i).
  - destruct (has_id i d) eqn:Ei; simpl.
    + rewrite IH. destruct (str_eqb j i) eqn:Ej; [reflexivity|].
      destruct (has_id j d) eqn:Ed; [|reflexivity].
      unfold has_id in Ei, Ed. apply str_eqb_eq in Ei, Ed. apply str_eqb_neq in Ej.
      congruence.
    + destruct (has_id j d) eqn:Ed; [|exact IH].
      destruct (str_eqb j i) eqn:Ej; [|reflexivity].
      unfold has_id in Ei, Ed. apply str_eqb_eq in Ed, Ej. apply str_eqb_neq in Ei.
      congruence.
Qed.

Lemma coll_delete_absent (c : Collection) (i : str) :
  ~ In i (coll_ids c) -> coll_delete c i = c.
Proof.
  unfold coll_delete, coll_ids. induction c as [|d c IH]; simpl; intro H; [reflexivity|].
  unfold has_id at 1. destruct (str_eqb i (doc_id d)) eqn:E.
  - apply str_eqb_eq in E. exfalso. apply H. now left.
  - simpl. f_equal. apply IH. intro F. apply H. now right.
Qed.

(** X6: a record added under an id the collection does not hold is found
    again under that id with the content and metadata it was given, the
    records under every other id are found as before, the collection grows
    by one, and deleting the id restores the collection. *)
Theorem add_then_get_round_trip (encoder : str -> outcome Vector) (c : Collection)
  (i content : str) (md : metadata) (v : Vector) :
  encoder content = Returned v ->
  VectorStore.get c i = None ->
  VectorStore.add encoder c i content md = Returned (c ++ [mkDoc i v content md])
  /\ VectorStore.get (c ++ [mkDoc i v content md]) i = Some (mkItem i content md None)
  /\ (forall j, j <> i ->
        VectorStore.get (c ++ [mkDoc i v content md]) j = VectorStore.get c j)
  /\ VectorStoreUpdates.count (c ++ [mkDoc i v content md])
     = S (VectorStoreUpdates.count c)
  /\ VectorStoreUpdates.delete (c ++ [mkDoc i v content md]) i = c.
Proof.
  intros E G. unfold VectorStore.get, coll_get_id in G.
  assert (F : ~ In i (coll_ids c)).
  { apply find_has_id_none. destruct (find (has_id i) c); [discriminate | reflexivity]. }
  split; [|split; [|split; [|split]]].
  - unfold VectorStore.add. rewrite E. f_equal. now apply coll_add_fresh.
  - unfold VectorStore.get, coll_get_id. rewrite find_has_id_app.
    apply find_has_id_none in F. rewrite F. unfold has_id; simpl.
    rewrite str_eqb_refl. reflexivity.
  - intros j Hj. unfold VectorStore.get, coll_get_id. rewrite find_has_id_app.
    destruct (find (has_id j) c); [reflexivity|].
    unfold has_id; simpl. apply str_eqb_neq in Hj. rewrite Hj. reflexivity.
  - unfold VectorStoreUpdates.count. rewrite length_app. simpl. lia.
  - unfold VectorStoreUpdates.delete, coll_delete. rewrite filter_app. simpl.
    unfold has_id at 2; simpl. rewrite str_eqb_refl. simpl. rewrite app_nil_r.
    now apply coll_delete_absent.
Qed.

Lemma add_then_get_round_trip_witness :
  VectorStore.get sample_collection (py "ent_new") = None
  /\ VectorStore.get
       (sample_collection ++ [mkDoc (py "ent_new") [1%Z] (py "use tabs") []])
       (py "ent_new")
     = Some (mkItem (py "ent_new") (py "use tabs") [] None).
Proof.
  split; [reflexivity|].
  apply (add_then_get_round_trip (fun _ => Returned [1%Z]) sample_collection
           (py "ent_new") (py "use tabs") [] [1%Z]); reflexivity.
Defined.

(** X7: [delete] forgets the id it is given and nothing else: the id is
    no longer found, every other id is found as before, and deleting an
    id the collection does not hold changes nothing. *)
Theorem delete_forgets_only_that_id (c : Collection) (i : str) :
  VectorStore.get (VectorStoreUpdates.delete c i) i = None
  /\ (forall j, j <> i ->
        VectorStore.get (VectorStoreUpdates.delete c i) j = VectorStore.get c j)
  /\ VectorStoreUpdates.count (VectorStoreUpdates.delete c i) <= VectorStoreUpdates.count c
  /\ (VectorStore.get c i = None -> VectorStoreUpdates.delete c i = c).
Proof.
  unfold VectorStore.get, coll_get_id, VectorStoreUpdates.delete, VectorStoreUpdates.count.
  split; [|split; [|split]].
  - rewrite find_has_id_delete, str_eqb_refl. reflexivity.
  - intros j Hj. rewrite find_has_id_delete. apply str_eqb_neq in Hj. now rewrite Hj.
  - unfold coll_delete. apply filter_length_le.
  - intro G. apply coll_delete_absent. apply find_has_id_none.
    destruct (find (has_id i) c); [discriminate | reflexivity].
Qed.

Lemma meta_value_eqb_eq (a b : meta_value) : meta_value_eqb a b = true <-> a = b.
Proof.
  destruct a, b; simpl; split; intro H; try discriminate; try congruence.
  - apply str_eqb_eq in H. now subst.
  - injection H as ->. apply str_eqb_refl.
  - apply Z.eqb_eq in H. now subst.
  - injection H as ->. apply Z.eqb_refl.
  - apply Z.eqb_eq in H. now subst.
  - injection H as ->. apply Z.eqb_refl.
Qed.

Lemma type_and_status_matches (entity_type status : str) (md : metadata) :
  where_matches (VectorStore.type_and_status entity_type status) md = true
  <-> meta_get (py "type") md = Some (MStr entity_type)
      /\ meta_get (py "status") md = Some (MStr status).
Proof.
  unfold VectorStore.type_and_status. cbn [where_matches forallb].
  rewrite andb_true_r, andb_true_iff.
  destruct (meta_get (py "type") md) as [t|]; destruct (meta_get (py "status") md) as [u|];
    rewrite ?meta_value_eqb_eq; split; intros [A B]; try discriminate;
    split; congruence.
Qed.

Lemma firstn_all_when_short (A : Type) (n : nat) (l : list A) :
  List.length l <= n -> firstn n l = l.
Proof. intro H. now apply firstn_all2. Qed.

(** X8: [get_by_type] answers from the metadata alone.  Every item it
    returns is a record of the collection whose type and status are the
    ones asked for, it returns at most [limit] items, and when no more
    than [limit] records qualify it returns every one of them. *)
Theorem get_by_type_selects_type_and_status (c : Collection) (entity_type status : str)
  (limit : nat) :
  (forall it, In it (VectorStore.get_by_type c entity_type limit status) ->
     meta_get (py "type") (item_metadata it) = Some (MStr entity_type)
     /\ meta_get (py "status") (item_metadata it) = Some (MStr status)
     /\ exists d, In d c /\ it = item_of_doc d)
  /\ List.length (VectorStore.get_by_type c entity_type limit status) <= limit
  /\ (List.length
        (filter (fun d => where_matches (VectorStore.type_and_status entity_type status)
                                        (doc_metadata d)) c) <= limit ->
      forall d, In d c ->
        meta_get (py "type") (doc_metadata d) = Some (MStr entity_type) ->
        meta_get (py "status") (doc_metadata d) = Some (MStr status) ->
        In (item_of_doc d) (VectorStore.get_by_type c entity_type limit status)).
Proof.
  unfold VectorStore.get_by_type, coll_get_where, where_opt_matches.
  split; [|split].
  - intros it H. apply in_map_iff in H as [d [<- Hd]].
    apply in_firstn in Hd. apply filter_In in Hd as [Hd M].
    apply type_and_status_matches in M as [T S].
    repeat split; try assumption. now exists d.
  - rewrite length_map. apply firstn_le_length.
  - intros L d Hd T S. apply in_map. rewrite firstn_all_when_short by exact L.
    apply filter_In. split; [assumption|]. apply type_and_status_matches. now split.
Qed.

Lemma sort_desc_all_equal (n : nat) (l : list Scored) :
  Forall (fun x => snd x = n) l -> sort_desc l = l.
Proof.
  intro H.
  assert (A : forall m : list Scored,
             Forall (fun x => snd x = n) m -> filter (fun x => snd x =? n) m = m).
  { induction m as [|x m IH]; simpl; intro F; [reflexivity|].
    inversion F; subst. rewrite Nat.eqb_refl. f_equal. now apply IH. }
  rewrite <- (A l H) at 2. rewrite <- (sort_desc_stable n l). symmetry. apply A.
  rewrite Forall_forall in *. intros x Hx. apply H.
  apply Permutation_in with (sort_desc l); [apply sort_desc_perm | assumption].
Qed.

(** X9: a query without a usable key word (no token of two characters or
    more) gives every candidate the score 0, and the key-word search then
    returns the first [top_k] records that pass the filter, in the order
    the collection holds them. *)
Theorem keyword_search_without_keywords (lower : str -> str) (c : Collection)
  (query : str) (top_k : nat) (w : option Where) :
  (forall tok, In tok (split_whitespace query) -> List.length tok < 2) ->
  VectorStore._keyword_search lower c query top_k w
  = map item_of_doc
        (firstn top_k (filter (fun d => where_opt_matches w (doc_metadata d)) c)).
Proof.
  intro H.
  assert (K : VectorStore.keywords_of query = []).
  { destruct (VectorStore.keywords_of query) as [|kw kws] eqn:E; [reflexivity|].
    assert (I : In kw (VectorStore.keywords_of query)) by (rewrite E; now left).
    apply keywords_of_spec in I as [I L]. specialize (H kw I). lia. }
  unfold VectorStore._keyword_search. rewrite K.
  assert (S : forall docs, VectorStore.scored_items lower [] docs
                           = map (fun d => (item_of_doc d, 0)) docs).
  { induction docs as [|d docs IH]; [reflexivity|].
    unfold VectorStore.scored_items in *. cbn [flat_map map].
    rewrite IH. rewrite orb_true_r. reflexivity. }
  rewrite S. rewrite (sort_desc_all_equal 0).
  - rewrite firstn_map, map_map. cbn [fst]. unfold coll_get_where.
    rewrite firstn_firstn. replace (Nat.min top_k (top_k * 10)) with top_k by lia.
    reflexivity.
  - apply Forall_forall. intros x Hx. apply in_map_iff in Hx as [d [<- _]]. reflexivity.
Qed.

Lemma keyword_search_without_keywords_witness :
  VectorStore._keyword_search (map ascii_lower) sample_collection (py "a b") 5 None
  = map item_of_doc (firstn 5 sample_collection).
Proof.
  rewrite (keyword_search_without_keywords (map ascii_lower) sample_collection
             (py "a b") 5 None).
  - reflexivity.
  - vm_compute. intros tok [<-|[<-|[]]]; lia.
Defined.

(** ** The recovery document *)

Lemma bind_returned (A B : Type) (m : M A) (k : A -> M B) (s : Manager) (b : B) :
  snd (bind m k s) = Returned b ->
  exists a, snd (m s) = Returned a /\ bind m k s = k a (fst (m s)).
Proof.
  unfold bind. destruct (m s) as [s' [a|e]]; simpl; intro H.
  - exists a. split; reflexivity.
  - discriminate.
Qed.

Lemma bind_ensures (P : Manager -> Prop) (A B : Type) (m : M A) (k : A -> M B)
      (s : Manager) :
  (forall a s', match snd (k a s') with
                | Returned _ => P (fst (k a s'))
                | Raised _ => True
                end) ->
  match snd (bind m k s) with
  | Returned _ => P (fst (bind m k s))
  | Raised _ => True
  end.
Proof.
  intro H. unfold bind. destruct (m s) as [s' [a|e]]; [apply H | exact I].
Qed.

Lemma add_entity_keeps_recovery (env : Env) (entity_type content : str)
      (reason : option str) (related_ids : list str) (now : Time) (s : Manager) :
  recovery_saved s ->
  recovery_saved (fst (add_entity env entity_type content reason related_ids now s)).
Proof.
  intro H. destruct (encoder env content) as [v|e] eqn:E.
  - rewrite (add_entity_returned env entity_type content reason related_ids now v s E).
    unfold recovery_saved, after_add_entity in *. simpl.
    destruct (current_episode s); [reflexivity | exact H].
  - rewrite (add_entity_raised env entity_type content reason related_ids now e s E).
    exact H.
Qed.

Lemma close_episode_saves_recovery (env : Env) (summary : option str) (now : Time)
      (s : Manager) :
  (forall closed, snd (close_episode env summary now s) = Returned (Some closed) ->
                  recovery_saved (fst (close_episode env summary now s)))
  /\ (recovery_saved s -> recovery_saved (fst (close_episode env summary now s))).
Proof.
  destruct (current_episode s) as [ep|] eqn:C.
  - destruct (encoder env (summary_or_generated summary ep (current_messages s)))
      as [v|e] eqn:E.
    + rewrite (close_episode_returned env summary now ep v s C E).
      split; intros; reflexivity.
    + rewrite (close_episode_raised env summary now ep e s C E).
      split; [discriminate | trivial].
  - assert (R : close_episode env summary now s = (s, Returned None)).
    { destruct s. simpl in C. subst. reflexivity. }
    rewrite R. split; [discriminate | trivial].
Qed.

(** X10: the recovery document follows the episode.  When [start_episode],
    [close_episode] (with an episode to close) or [cache_message] returns,
    the file [active_episode.json] holds exactly the episode and the
    messages the manager has in memory; and once it does, [add_entity],
    [confirm_entity], [reject_candidate] and [close_episode] keep it so,
    whether they return or raise. *)
Theorem recovery_file_follows_episode (env : Env) (s : Manager) :
  (forall title tags now ep,
      snd (start_episode env title tags now s) = Returned ep ->
      recovery_saved (fst (start_episode env title tags now s)))
  /\ (forall summary now closed,
         snd (close_episode env summary now s) = Returned (Some closed) ->
         recovery_saved (fst (close_episode env summary now s)))
  /\ (forall role content now m,
         snd (cache_message env role content now s) = Returned m ->
         recovery_saved (fst (cache_message env role content now s)))
  /\ (recovery_saved s ->
      (forall entity_type content reason related_ids now,
          recovery_saved (fst (add_entity env entity_type content reason related_ids now s)))
      /\ (forall candidate_id entity_type content now,
             recovery_saved (fst (confirm_entity env candidate_id entity_type content now s)))
      /\ (forall candidate_id, recovery_saved (fst (reject_candidate candidate_id s)))
      /\ (forall summary now, recovery_saved (fst (close_episode env summary now s)))).
Proof.
  split; [|split; [|split]].
  - intros title tags now ep.
    assert (G : match snd (start_episode env title tags now s) with
                | Returned _ => recovery_saved (fst (start_episode env title tags now s))
                | Raised _ => True
                end).
    { unfold start_episode.
      apply bind_ensures. intros cur s0. apply bind_ensures. intros [] s1.
      destruct s1. hnf. reflexivity. }
    intro H. rewrite H in G. exact G.
  - intros summary now closed. apply close_episode_saves_recovery.
  - intros role content now m.
    assert (G : match snd (cache_message env role content now s) with
                | Returned _ => recovery_saved (fst (cache_message env role content now s))
                | Raised _ => True
                end).
    { unfold cache_message.
      apply bind_ensures. intros u s1. apply bind_ensures. intros cur s2.
      apply bind_ensures. intros [] s3. apply bind_ensures. intros [] s4.
      apply bind_ensures. intros [] s5. destruct s5. hnf. reflexivity. }
    intro H. rewrite H in G. exact G.
  - intro H. split; [|split; [|split]].
    + intros. now apply add_entity_keeps_recovery.
    + intros candidate_id entity_type content now. unfold confirm_entity.
      unfold bind at 1 2. unfold modify, _save_pending_entities. cbv beta iota.
      apply add_entity_keeps_recovery. destruct s. exact H.
    + intros candidate_id. destruct s. exact H.
    + intros summary now. now apply close_episode_saves_recovery.
Qed.

(** X11: a restart loses nothing.  When the two files hold what the
    manager has in memory and the active episode is not stale, a manager
    built over what this one leaves on disk comes up with the same episode,
    the same messages and the same pending queue: it is the same manager. *)
Theorem restart_recovers_the_manager (env : Env) (now : Time) (s : Manager) :
  recovery_saved s -> queue_saved s -> fresh_at now s ->
  __init__ env now (disk_of s) = (s, Returned tt).
Proof.
  destruct s as [us ps cf pf sf ce cm pe ud].
  unfold recovery_saved, queue_saved, fresh_at, disk_of, on_disk. simpl.
  intros -> Q F. unfold __init__, _load_active_episode, _load_pending_entities,
    _close_stale_episode, bind, gets, ret. simpl.
  destruct pf as [[ps0|]|]; subst; simpl;
    (destruct ce as [ep|]; [|reflexivity]);
    cbv beta iota delta [set_pending_entities set_current_messages set_current_episode
                         user_store project_store cache_file pending_file state_file
                         current_episode current_messages pending_entities uuid_drawn];
    (replace (minutes STALE_EPISODE_MINUTES <=? now - last_activity ep cm)%Z with false
      by (symmetry; apply Z.leb_gt; exact F));
    reflexivity.
Qed.

Lemma restart_recovers_the_manager_witness :
  __init__ healthy_env (minutes 10) (disk_of busy_manager) = (busy_manager, Returned tt).
Proof.
  apply (restart_recovers_the_manager healthy_env (minutes 10) busy_manager).
  - reflexivity.
  - reflexivity.
  - vm_compute. reflexivity.
Defined.
(** ** Episode details *)

Lemma messages_of_objects (raw_episode_id : str -> option str) (episode_id : str)
      (lines : list cache_line) :
  forall acc,
    find (fun l => negb (is_object l)) lines = None ->
    messages_of raw_episode_id episode_id lines acc
    = Scanned (acc ++ filter (belongs raw_episode_id episode_id) lines).
Proof.
  induction lines as [|l lines IH]; intros acc H; simpl.
  - now rewrite app_nil_r.
  - simpl in H. unfold belongs.
    destruct l as [m|raw|raw|raw|raw|raw|raw t]; simpl in *; try discriminate;
      match goal with
      | |- context [match ?e with Some i => str_eqb i episode_id | None => false end] =>
        destruct e as [i|]; [destruct (str_eqb i episode_id)|]
      end;
      rewrite (IH _ H); try reflexivity; now rewrite <- app_assoc.
Qed.

(** The first line that is no JSON object stops the loop. *)
Lemma messages_of_stops (raw_episode_id : str -> option str) (episode_id : str)
      (lines : list cache_line) (l : cache_line) :
  forall acc,
    find (fun l => negb (is_object l)) lines = Some l ->
    messages_of raw_episode_id episode_id lines acc
    = match l with
      | LineNotObject _ => StoppedNotObject
      | _ => StoppedNotJson
      end.
Proof.
  induction lines as [|x lines IH]; intros acc H; simpl in *; [discriminate|].
  destruct x as [m|raw|raw|raw|raw|raw|raw t]; simpl in *;
    try (injection H as <-; reflexivity);
    match goal with
    | |- context [match ?e with Some i => str_eqb i episode_id | None => false end] =>
      destruct e as [i|]; [destruct (str_eqb i episode_id)|]
    end; now apply IH.
Qed.

Lemma get_episode_detail_found (raw_episode_id : str -> option str) (episode_id : str)
      (s : Manager) (episode : Item) (ids : str) :
  VectorStore.get (project_store s) episode_id = Some episode ->
  find (fun l => negb (is_object l)) (log_lines s) = None ->
  meta_get (py "entity_ids") (item_metadata episode) = Some (MStr ids) ->
  get_episode_detail raw_episode_id episode_id s
  = DetailOf
      (mkEpisodeDetail
         episode
         (filter (belongs raw_episode_id episode_id) (log_lines s))
         (entities_of s (split_on (fun c => (c =? comma)%N) [] ids))).
Proof.
  intros G H E. unfold get_episode_detail. fold (log_lines s). rewrite G.
  rewrite messages_of_objects by exact H. rewrite E. reflexivity.
Qed.

(** X12: [get_episode_detail] reads the whole log, line by line.  For an
    id the project store does not hold it returns [None] without reading
    anything.  For an archived episode, the first line of the log that is
    no JSON object makes it raise, whatever episode the line belongs to:
    [JSONDecodeError] when the line is not JSON, [AttributeError] when it
    is JSON but not an object.  When every line is a JSON object, it
    returns the record with exactly the lines that carry the episode's id,
    in the order of the log, and the entities its [entity_ids] names; an
    [entity_ids] that is not text makes it raise. *)
Theorem episode_detail_reads_whole_log (raw_episode_id : str -> option str)
  (episode_id : str) (s : Manager) :
  (VectorStore.get (project_store s) episode_id = None ->
   get_episode_detail raw_episode_id episode_id s = NoSuchEpisode)
  /\ (forall episode,
         VectorStore.get (project_store s) episode_id = Some episode ->
         match find (fun l => negb (is_object l)) (log_lines s) with
         | Some (LineNotObject _) =>
           get_episode_detail raw_episode_id episode_id s = LogLineNotObject
         | Some _ =>
           get_episode_detail raw_episode_id episode_id s = LogLineNotJson
         | None =>
           get_episode_detail raw_episode_id episode_id s
           = match meta_get (py "entity_ids") (item_metadata episode) with
             | Some (MStr ids) =>
               DetailOf
                 (mkEpisodeDetail
                    episode
                    (filter (belongs raw_episode_id episode_id) (log_lines s))
                    (entities_of s (split_on (fun c => (c =? comma)%N) [] ids)))
             | None =>
               DetailOf
                 (mkEpisodeDetail
                    episode
                    (filter (belongs raw_episode_id episode_id) (log_lines s))
                    [])
             | Some _ => EntityIdsNotText
             end
         end)
  /\ (forall l, is_object l = false
                <-> (exists raw, l = LineUndecodable raw)
                    \/ (exists raw, l = LineNotObject raw)).
Proof.
  unfold get_episode_detail. fold (log_lines s). split; [|split].
  - intros ->. reflexivity.
  - intros episode ->.
    destruct (find (fun l => negb (is_object l)) (log_lines s)) as [l|] eqn:F.
    + rewrite (messages_of_stops raw_episode_id episode_id (log_lines s) l [] F).
      apply find_some in F as [_ F].
      destruct l; simpl in F; try discriminate F; reflexivity.
    + rewrite messages_of_objects by exact F.
      destruct (meta_get (py "entity_ids") (item_metadata episode)) as [[ids|n|t]|];
        reflexivity.
  - intro l. split.
    + destruct l as [m|raw|raw|raw|raw|raw|raw t]; simpl; try discriminate; intros _;
        [left | right]; now exists raw.
    + intros [[raw ->]|[raw ->]]; reflexivity.
Qed.

Lemma split_on_piece (sep : char -> bool) (x rest : str) :
  forall cur,
    forallb (fun c => negb (sep c)) x = true ->
    split_on sep cur (x ++ rest) = split_on sep (rev x ++ cur) rest.
Proof.
  induction x as [|c x IH]; intros cur H; simpl in *; [reflexivity|].
  apply andb_true_iff in H as [Hc Hx]. apply negb_true_iff in Hc. rewrite Hc.
  rewrite IH by exact Hx. now rewrite <- app_assoc.
Qed.

(** [",".join(ids).split(",")] gives the ids back when there is at least
    one and none holds a comma. *)
Lemma split_join_commas (ids : list str) :
  ids <> [] ->
  Forall (fun i => ~ In comma i) ids ->
  split_on (fun c => (c =? comma)%N) [] (join (py ",") ids) = ids.
Proof.
  assert (P : forall x : str, ~ In comma x ->
                forallb (fun c => negb (c =? comma)%N) x = true).
  { intros x H. apply forallb_forall. intros c Hc. apply negb_true_iff.
    apply N.eqb_neq. intros ->. contradiction. }
  induction ids as [|i ids IH]; intros Hne F; [congruence|].
  inversion F as [|? ? Hi Hids]; subst.
  destruct ids as [|j ids].
  - simpl. rewrite <- (app_nil_r i) at 1. rewrite split_on_piece by now apply P.
    simpl. now rewrite app_nil_r, rev_involutive.
  - change (join (py ",") (i :: j :: ids))
      with (i ++ comma :: join (py ",") (j :: ids)).
    rewrite split_on_piece by now apply P. cbn [split_on].
    rewrite N.eqb_refl, app_nil_r, rev_involutive. f_equal.
    apply IH; [discriminate | assumption].
Qed.

Lemma entities_of_split_join (s : Manager) (ids : list str) :
  Forall (fun i => ~ In comma i) ids ->
  entities_of s (split_on (fun c => (c =? comma)%N) [] (join (py ",") ids))
  = entities_of s ids.
Proof.
  intro F. destruct ids as [|i ids]; [reflexivity|].
  rewrite split_join_commas; [reflexivity | discriminate | assumption].
Qed.

(** X13: what [close_episode] archives, [get_episode_detail] gives back.
    When every line of the log is a JSON object, then after an episode
    with a new id was closed, its detail is the record with the summary as
    content and the metadata of the closing, the lines of the log that
    carry its id, and the entities its id list names (none holding a
    comma), looked up in that order, the project store first. *)
Theorem closed_episode_detail_round_trip (env : Env)
  (raw_episode_id : str -> option str) (summary : option str) (now : Time)
  (ep : Episode) (v : Vector) (s : Manager) :
  current_episode s = Some ep ->
  encoder env (summary_or_generated summary ep (current_messages s)) = Returned v ->
  VectorStore.get (project_store s) (ep_id ep) = None ->
  Forall (fun i => ~ In comma i) (ep_entity_ids ep) ->
  find (fun l => negb (is_object l)) (log_lines s) = None ->
  get_episode_detail raw_episode_id (ep_id ep) (fst (close_episode env summary now s))
  = DetailOf
      (mkEpisodeDetail
         (mkItem (ep_id ep) (summary_or_generated summary ep (current_messages s))
                 (episode_metadata ep (current_messages s) now) None)
         (filter (belongs raw_episode_id (ep_id ep)) (log_lines s))
         (entities_of (fst (close_episode env summary now s)) (ep_entity_ids ep))).
Proof.
  intros C E G F L.
  rewrite (close_episode_returned env summary now ep v s C E). cbn [fst].
  set (s' := after_close ep _ v now s).
  set (d := mkDoc (ep_id ep) v (summary_or_generated summary ep (current_messages s))
                  (episode_metadata ep (current_messages s) now)).
  assert (Fresh : ~ In (ep_id ep) (coll_ids (project_store s))).
  { apply find_has_id_none. unfold VectorStore.get, coll_get_id in G.
    destruct (find (has_id (ep_id ep)) (project_store s)); [discriminate | reflexivity]. }
  assert (P : project_store s' = project_store s ++ [d]).
  { unfold s', after_close. cbn [project_store]. now apply coll_add_fresh. }
  assert (Get : VectorStore.get (project_store s') (ep_id ep) = Some (item_of_doc d)).
  { rewrite P. unfold VectorStore.get, coll_get_id. rewrite find_has_id_app.
    apply find_has_id_none in Fresh. rewrite Fresh. unfold has_id, d; simpl.
    rewrite str_eqb_refl. reflexivity. }
  assert (Log : log_lines s' = log_lines s) by reflexivity.
  rewrite (get_episode_detail_found raw_episode_id (ep_id ep) s' (item_of_doc d)
             (join (py ",") (ep_entity_ids ep)) Get);
    [| rewrite Log; exact L | reflexivity].
  rewrite Log. rewrite entities_of_split_join by exact F. reflexivity.
Qed.

Lemma closed_episode_detail_round_trip_witness :
  get_episode_detail (fun _ => None) (ep_id working_episode)
                     (fst (close_episode healthy_env None (minutes 5) working_manager))
  = DetailOf
      (mkEpisodeDetail
         (mkItem (ep_id working_episode)
                 (summary_or_generated None working_episode
                                       (current_messages working_manager))
                 (episode_metadata working_episode (current_messages working_manager)
                                   (minutes 5)) None)
         (filter (belongs (fun _ => None) (ep_id working_episode))
                 (log_lines working_manager))
         (entities_of (fst (close_episode healthy_env None (minutes 5) working_manager))
                      (ep_entity_ids working_episode))).
Proof.
  apply (closed_episode_detail_round_trip healthy_env (fun _ => None) None (minutes 5)
           working_episode [0%Z] working_manager).
  - reflexivity.
  - reflexivity.
  - reflexivity.
  - repeat constructor; vm_compute; intuition discriminate.
  - reflexivity.
Defined.

(** X20: [clear_message_cache] empties the log whatever it holds, lines
    that are not JSON included, and reports how many lines there were; the
    messages in memory, the recovery document, the queue and both stores
    stay as they are.  Afterwards [cleanup_old_messages] finds nothing to
    remove or keep, and no archived episode has messages any more. *)
Theorem clear_message_cache_empties_the_log (raw_episode_id : str -> option str)
  (s : Manager) (lines : list cache_line) :
  cache_file s = Some lines ->
  clear_message_cache s
  = (set_cache_file (Some []) s, Returned (mkClearReport (py "cleared") (List.length lines)))
  /\ (forall days now,
         snd (cleanup_old_messages days now (set_cache_file (Some []) s))
         = Returned (mkCleanupReport (py "cleaned") (Some days) 0 0))
  /\ (forall episode_id d,
         get_episode_detail raw_episode_id episode_id (set_cache_file (Some []) s)
         = DetailOf d ->
         ed_messages d = [])
  /\ clear_message_cache (set_cache_file (Some []) s)
     = (set_cache_file (Some []) s, Returned (mkClearReport (py "cleared") 0)).
Proof.
  intro C. destruct s as [us ps cf pf sf ce cm pe ud]. simpl in C. subst cf.
  split; [reflexivity|]. split; [reflexivity|]. split; [|reflexivity].
  intros episode_id d. unfold get_episode_detail. simpl.
  destruct (VectorStore.get ps episode_id) as [episode|]; [|discriminate].
  destruct (meta_get (py "entity_ids") (item_metadata episode)) as [[ids|n|t]|];
    intro H; try discriminate; injection H as <-; reflexivity.
Qed.

Lemma clear_message_cache_empties_the_log_witness :
  clear_message_cache working_manager
  = (set_cache_file (Some []) working_manager,
     Returned (mkClearReport (py "cleared") 2)).
Proof.
  apply (proj1 (clear_message_cache_empties_the_log
                  (fun _ => None) working_manager
                  [LineMessage working_message; LineNoTimestamp (py "{}")] eq_refl)).
Defined.
(** ** The pending queue *)

Lemma without_candidate_spec (candidate_id : str) (ps : list Candidate) (c : Candidate) :
  In c (without_candidate candidate_id ps) <-> In c ps /\ cand_id c <> candidate_id.
Proof.
  unfold without_candidate. rewrite filter_In, negb_true_iff, str_eqb_neq. tauto.
Qed.

Lemma without_candidate_twice (candidate_id : str) (ps : list Candidate) :
  without_candidate candidate_id (without_candidate candidate_id ps)
  = without_candidate candidate_id ps.
Proof.
  unfold without_candidate. induction ps as [|p ps IH]; simpl; [reflexivity|].
  destruct (negb (str_eqb (cand_id p) candidate_id)) eqn:E; simpl; rewrite ?E, IH;
    reflexivity.
Qed.

(** X14: [reject_candidate] and [confirm_entity] take off the queue every
    candidate with the id given and no other, keep the order of the rest,
    and write the shortened queue to the pending file before anything
    else.  [reject_candidate] changes nothing else, and rejecting again
    changes nothing at all.  [confirm_entity] shortens the queue before it
    calls [add_entity]: when the encoder raises, the call raises, no store
    is changed, and the candidate is gone from the queue and from the
    file all the same. *)
Theorem confirm_and_reject_shorten_the_queue (env : Env)
  (candidate_id entity_type content : str) (now : Time) (s : Manager) :
  let rest := without_candidate candidate_id (pending_entities s) in
  let rejected := set_pending_file (Some (Parsed rest)) (set_pending_entities rest s) in
  (forall c, In c rest <-> In c (pending_entities s) /\ cand_id c <> candidate_id)
  /\ reject_candidate candidate_id s = (rejected, Returned tt)
  /\ reject_candidate candidate_id rejected = (rejected, Returned tt)
  /\ confirm_entity env candidate_id entity_type content now s
     = add_entity env entity_type content None [] now rejected
  /\ pending_entities (fst (confirm_entity env candidate_id entity_type content now s))
     = rest
  /\ pending_file (fst (confirm_entity env candidate_id entity_type content now s))
     = Some (Parsed rest)
  /\ (forall e, encoder env content = Raised e ->
        confirm_entity env candidate_id entity_type content now s
        = (set_uuid_drawn (S (uuid_drawn s)) rejected, Raised e)).
Proof.
  intros rest rejected.
  assert (Rj : reject_candidate candidate_id s = (rejected, Returned tt)).
  { destruct s. reflexivity. }
  assert (Cf : confirm_entity env candidate_id entity_type content now s
               = add_entity env entity_type content None [] now rejected).
  { destruct s. reflexivity. }
  split; [intro c; apply without_candidate_spec|].
  split; [exact Rj|]. split.
  { unfold rejected, rest. destruct s as [us ps cf pf sf ce cm pe ud].
    unfold reject_candidate, bind, modify, _save_pending_entities. simpl.
    now rewrite without_candidate_twice. }
  split; [exact Cf|]. rewrite Cf.
  destruct (encoder env content) as [v|e] eqn:E.
  - rewrite (add_entity_returned env entity_type content None [] now v rejected E).
    split; [|split]; try (destruct s; reflexivity). intros e' E'. discriminate.
  - rewrite (add_entity_raised env entity_type content None [] now e rejected E).
    split; [|split]; try (destruct s; reflexivity).
    intros e' E'. injection E' as <-. destruct s; reflexivity.
Qed.

(** ** Which candidates are promoted at once *)

Lemma threshold_by_rule (tr : str * Rule) :
  In tr DETECTION_RULES ->
  Qle_bool AUTO_CONFIRM_THRESHOLD (min_confidence (snd tr)) = false
  /\ Qle_bool AUTO_CONFIRM_THRESHOLD (min_confidence (snd tr) + PATTERN_BONUS)
     = negb (mem (fst tr) USER_LEVEL_TYPES)
  /\ (mem (fst tr) USER_LEVEL_TYPES = false
      <-> fst tr = py "Decision" \/ fst tr = py "Architecture" \/ fst tr = py "File").
Proof.
  unfold DETECTION_RULES. intro H. simpl in H.
  repeat (destruct H as [<-|H]; [vm_compute; intuition discriminate|]).
  contradiction.
Qed.

Lemma detected_candidate_threshold (env : Env) (base : nat) (now : Time)
      (content : str) (c : Candidate) :
  In c (_detect_candidates env base now content) ->
  (detection_method c = py "pattern" \/ detection_method c = py "keyword")
  /\ Qle_bool AUTO_CONFIRM_THRESHOLD (confidence c)
     = (str_eqb (detection_method c) (py "pattern")
        && negb (mem (cand_type c) USER_LEVEL_TYPES))
  /\ In (cand_type c) (map fst DETECTION_RULES).
Proof.
  intro H.
  destruct (detect_ok env base now content DETECTION_RULES rule_types_differ)
    as (_ & J & _ & _).
  unfold justified in J. rewrite Forall_forall in J.
  destruct (J c H) as [tr [Htr [P|K]]].
  - destruct P as (Ty & Me & Co & _). rewrite Me, Co, Ty.
    destruct (threshold_by_rule tr Htr) as (_ & B & _). rewrite B.
    split; [now left|]. split; [reflexivity|]. now apply in_map.
  - destruct K as (Ty & Me & Co & _). rewrite Me, Co, Ty.
    destruct (threshold_by_rule tr Htr) as (A & _ & _). rewrite A.
    split; [now right|]. split; [reflexivity|]. now apply in_map.
Qed.

(** X15: which detected candidates are promoted without being asked
    about.  Of the candidates [_detect_candidates] builds from the rule
    table, exactly the ones a pattern produced for the types Decision,
    Architecture and File reach the threshold 0.85.  No candidate found
    by keywords does, and no Preference, Concept or Habit does: these
    always wait in the pending queue. *)
Theorem only_project_patterns_reach_threshold (env : Env) (base : nat) (now : Time)
  (content : str) :
  forall c, In c (_detect_candidates env base now content) ->
    (Qle_bool AUTO_CONFIRM_THRESHOLD (confidence c) = true
     <-> detection_method c = py "pattern"
         /\ (cand_type c = py "Decision" \/ cand_type c = py "Architecture"
             \/ cand_type c = py "File"))
    /\ (detection_method c = py "keyword" ->
        Qle_bool AUTO_CONFIRM_THRESHOLD (confidence c) = false)
    /\ (mem (cand_type c) USER_LEVEL_TYPES = true ->
        Qle_bool AUTO_CONFIRM_THRESHOLD (confidence c) = false).
Proof.
  intros c H.
  destruct (detected_candidate_threshold env base now content c H) as (M & T & Ty).
  rewrite T. split; [|split].
  - rewrite andb_true_iff, negb_true_iff, str_eqb_eq.
    apply in_map_iff in Ty as [tr [E Htr]].
    destruct (threshold_by_rule tr Htr) as (_ & _ & U). rewrite E in U.
    rewrite U. tauto.
  - intros ->. reflexivity.
  - intros ->. now rewrite andb_false_r.
Qed.
(** ** What a cached message can change *)

Lemma add_entity_project_level (env : Env) (entity_type content : str)
      (reason : option str) (related_ids : list str) (now : Time) (s : Manager) :
  mem entity_type USER_LEVEL_TYPES = false ->
  user_store (fst (add_entity env entity_type content reason related_ids now s))
  = user_store s.
Proof.
  intro U. destruct (encoder env content) as [v|e] eqn:E.
  - rewrite (add_entity_returned env entity_type content reason related_ids now v s E).
    unfold after_add_entity. cbn [fst user_store]. now rewrite U.
  - rewrite (add_entity_raised env entity_type content reason related_ids now e s E).
    destruct s; reflexivity.
Qed.

Lemma add_entity_queue (env : Env) (entity_type content : str)
      (reason : option str) (related_ids : list str) (now : Time) (s : Manager) :
  pending_entities (fst (add_entity env entity_type content reason related_ids now s))
  = pending_entities s.
Proof.
  destruct (encoder env content) as [v|e] eqn:E.
  - rewrite (add_entity_returned env entity_type content reason related_ids now v s E).
    reflexivity.
  - rewrite (add_entity_raised env entity_type content reason related_ids now e s E).
    destruct s; reflexivity.
Qed.

(** The candidates that stay below the threshold. *)
Lemma route_all_effect (env : Env) (now : Time) (cs : list Candidate) :
  forall s,
    Forall (fun c => Qle_bool AUTO_CONFIRM_THRESHOLD (confidence c) = true ->
                     mem (cand_type c) USER_LEVEL_TYPES = false) cs ->
    user_store (fst (route_all env now cs s)) = user_store s
    /\ (snd (route_all env now cs s) = Returned tt ->
        pending_entities (fst (route_all env now cs s))
        = pending_entities s
            ++ filter (fun c => negb (Qle_bool AUTO_CONFIRM_THRESHOLD (confidence c))) cs).
Proof.
  induction cs as [|c cs IH]; intros s F.
  - simpl. split; [reflexivity|]. intros _. now rewrite app_nil_r.
  - inversion F as [|? ? Hc Hcs]; subst.
    cbn [route_all filter]. unfold bind at 1 2 3.
    assert (R : user_store (fst (route env now c s)) = user_store s
                /\ pending_entities (fst (route env now c s))
                   = pending_entities s
                       ++ (if negb (Qle_bool AUTO_CONFIRM_THRESHOLD (confidence c))
                           then [c] else [])).
    { unfold route. destruct (Qle_bool AUTO_CONFIRM_THRESHOLD (confidence c)) eqn:T.
      - unfold bind.
        pose proof (add_entity_project_level env (cand_type c) (extracted_content c)
                      (Some (auto_reason c)) [] now s (Hc eq_refl)) as U.
        pose proof (add_entity_queue env (cand_type c) (extracted_content c)
                      (Some (auto_reason c)) [] now s) as Q.
        destruct (add_entity env (cand_type c) (extracted_content c)
                             (Some (auto_reason c)) [] now s) as [s' [a|e]];
          simpl in *; rewrite app_nil_r; now split.
      - destruct s; simpl. split; reflexivity. }
    destruct R as [RU RQ].
    destruct (route env now c s) as [s' [[]|e]]; cbn [fst snd] in *.
    + destruct (IH s' Hcs) as [IU IQ]. split; [now rewrite IU|].
      intro H. rewrite (IQ H), RQ.
      destruct (negb (Qle_bool AUTO_CONFIRM_THRESHOLD (confidence c)));
        now rewrite <- app_assoc.
    + split; [exact RU | discriminate].
Qed.

Lemma detected_candidates_route (env : Env) (base : nat) (now : Time) (content : str) :
  Forall (fun c => Qle_bool AUTO_CONFIRM_THRESHOLD (confidence c) = true ->
                   mem (cand_type c) USER_LEVEL_TYPES = false)
         (_detect_candidates env base now content).
Proof.
  apply Forall_forall. intros c H T.
  destruct (detected_candidate_threshold env base now content c H) as (_ & E & _).
  rewrite T in E. symmetry in E. apply andb_true_iff in E as [_ E].
  now apply negb_true_iff in E.
Qed.

Lemma detect_and_process_effect (env : Env) (content : str) (now : Time) (s : Manager) :
  user_store (fst (_detect_and_process_entities env content now s)) = user_store s
  /\ (snd (_detect_and_process_entities env content now s) = Returned tt ->
      pending_entities (fst (_detect_and_process_entities env content now s))
      = pending_entities s
          ++ filter (fun c => negb (Qle_bool AUTO_CONFIRM_THRESHOLD (confidence c)))
                    (_detect_candidates env (uuid_drawn s) now content)
      /\ pending_file (fst (_detect_and_process_entities env content now s))
         = Some (Parsed (pending_entities
                           (fst (_detect_and_process_entities env content now s))))).
Proof.
  remember (_detect_and_process_entities env content now s) as r eqn:Hr.
  unfold _detect_and_process_entities, detect_candidates, bind at 1 in Hr.
  set (cs := _detect_candidates env (uuid_drawn s) now content) in *.
  set (s1 := set_uuid_drawn (uuid_drawn s + List.length cs) s) in *.
  assert (U1 : user_store s1 = user_store s) by (destruct s; reflexivity).
  assert (Q1 : pending_entities s1 = pending_entities s) by (destruct s; reflexivity).
  unfold bind in Hr.
  destruct (route_all_effect env now cs s1
              (detected_candidates_route env (uuid_drawn s) now content)) as [RU RQ].
  destruct (route_all env now cs s1) as [s' [[]|e]]; cbn [fst snd] in *.
  - specialize (RQ eq_refl). rewrite U1 in RU. rewrite Q1 in RQ.
    rewrite Hr. destruct s'. cbn in *. subst. repeat split.
  - rewrite U1 in RU. rewrite Hr. split; [exact RU | discriminate].
Qed.

(** X16: caching a message never writes to the user store.  Whatever the
    role and the text, and whether the call returns or raises, the user
    store is as before: what detection promotes at once is project-level.
    When the call returns for a user message, every detected candidate
    below the threshold, so every Preference, Concept and Habit, has been
    appended to the pending queue in the order of detection, and the queue
    has been written to the pending file.  A message of another role
    changes neither store nor the queue. *)
Theorem cache_message_never_writes_user_store (env : Env) (role content : str)
  (now : Time) (s : Manager) :
  user_store (fst (cache_message env role content now s)) = user_store s
  /\ (forall m, str_eqb role (py "user") = true ->
        snd (cache_message env role content now s) = Returned m ->
        pending_entities (fst (cache_message env role content now s))
        = pending_entities s
            ++ filter (fun c => negb (Qle_bool AUTO_CONFIRM_THRESHOLD (confidence c)))
                      (_detect_candidates env (S (uuid_drawn s)) now content)
        /\ pending_file (fst (cache_message env role content now s))
           = Some (Parsed (pending_entities (fst (cache_message env role content now s))))
        /\ forall c, In c (_detect_candidates env (S (uuid_drawn s)) now content) ->
                     mem (cand_type c) USER_LEVEL_TYPES = true ->
                     In c (pending_entities (fst (cache_message env role content now s))))
  /\ (str_eqb role (py "user") = false ->
      project_store (fst (cache_message env role content now s)) = project_store s
      /\ pending_entities (fst (cache_message env role content now s)) = pending_entities s
      /\ pending_file (fst (cache_message env role content now s)) = pending_file s
      /\ current_episode (fst (cache_message env role content now s)) = current_episode s).
Proof.
  set (msg := mkMessage (py "msg_" ++ uuid4_hex8 env (uuid_drawn s)) role
                        (_clean_content env content 2000) now
                        (option_map ep_id (current_episode s))).
  set (s2 := set_current_messages
               (current_messages s ++ [msg])
               (set_cache_file (append_line (LineMessage msg) (cache_file s))
                               (set_uuid_drawn (S (uuid_drawn s)) s))).
  assert (R : cache_message env role content now s
              = bind (if str_eqb role (py "user")
                      then _detect_and_process_entities env content now
                      else ret tt)
                     (fun _ => bind _save_active_episode (fun _ => ret msg)) s2).
  { unfold s2, msg. destruct s. reflexivity. }
  assert (U2 : user_store s2 = user_store s) by (destruct s; reflexivity).
  assert (Q2 : pending_entities s2 = pending_entities s) by (destruct s; reflexivity).
  assert (D2 : uuid_drawn s2 = S (uuid_drawn s)) by (destruct s; reflexivity).
  remember (cache_message env role content now s) as r eqn:Hr.
  clear Hr. rename R into Hr.
  destruct (str_eqb role (py "user")) eqn:Role.
  - destruct (detect_and_process_effect env content now s2) as [DU DQ].
    rewrite D2 in DQ. unfold bind at 1 in Hr.
    destruct (_detect_and_process_entities env content now s2) as [s3 [[]|e]];
      cbn [fst snd] in *.
    + destruct (DQ eq_refl) as [DQ1 DQ2]. rewrite U2 in DU. rewrite Q2 in DQ1.
      assert (F : user_store (fst r) = user_store s3
                  /\ pending_entities (fst r) = pending_entities s3
                  /\ pending_file (fst r) = pending_file s3).
      { subst r. destruct s3. repeat split. }
      destruct F as (FU & FQ & FF).
      split; [now rewrite FU|]. split; [|discriminate].
      intros m _ _. rewrite FQ, FF, DQ2, DQ1.
      split; [reflexivity|]. split; [reflexivity|].
      intros c Hc Hu. apply in_or_app. right. apply filter_In. split; [assumption|].
      apply negb_true_iff.
      destruct (detected_candidate_threshold env (S (uuid_drawn s)) now content c Hc)
        as (_ & E & _).
      rewrite E, Hu. now rewrite andb_false_r.
    + subst r. cbn [fst snd]. rewrite U2 in DU.
      split; [exact DU|]. split; [|discriminate].
      intros m _ H. discriminate.
  - subst r. unfold bind, ret, _save_active_episode, modify. cbn [fst snd].
    split; [destruct s; reflexivity|]. split; [discriminate|].
    intros _. destruct s; repeat split.
Qed.
(** ** Listing episodes by time *)

Lemma insert_by_created_at_perm (reverse : bool) (x : Item) (l : list Item) :
  Permutation (insert_by_created_at reverse x l) (x :: l).
Proof.
  induction l as [|y l IH]; simpl; [apply Permutation_refl|].
  destruct ((if reverse then get_created_at x <? get_created_at y
             else get_created_at y <? get_created_at x)%Z).
  - apply perm_trans with (y :: x :: l); [now apply perm_skip | apply perm_swap].
  - apply Permutation_refl.
Qed.

Lemma sorted_by_created_at_perm (reverse : bool) (l : list Item) :
  Permutation (sorted_by_created_at reverse l) l.
Proof.
  induction l as [|x l IH]; simpl; [constructor|].
  apply perm_trans with (x :: sorted_by_created_at reverse l);
    [apply insert_by_created_at_perm | now apply perm_skip].
Qed.

Lemma insert_by_created_at_sorted (reverse : bool) (x : Item) (l : list Item) :
  StronglySorted (in_order reverse) l ->
  StronglySorted (in_order reverse) (insert_by_created_at reverse x l).
Proof.
  induction l as [|y l IH]; simpl; intro S.
  - constructor; constructor.
  - inversion S as [|? ? Sl Fy]; subst.
    destruct ((if reverse then get_created_at x <? get_created_at y
               else get_created_at y <? get_created_at x)%Z) eqn:C.
    + constructor; [now apply IH|].
      apply Forall_forall. intros z Hz.
      apply (Permutation_in _ (insert_by_created_at_perm reverse x l)) in Hz.
      destruct Hz as [<-|Hz].
      * unfold in_order. destruct reverse; apply Z.ltb_lt in C; lia.
      * rewrite Forall_forall in Fy. now apply Fy.
    + constructor; [assumption|]. constructor.
      * unfold in_order. destruct reverse; apply Z.ltb_ge in C; lia.
      * rewrite Forall_forall in *. intros z Hz. specialize (Fy z Hz).
        unfold in_order in *. destruct reverse; apply Z.ltb_ge in C; lia.
Qed.

Lemma sorted_by_created_at_sorted (reverse : bool) (l : list Item) :
  StronglySorted (in_order reverse) (sorted_by_created_at reverse l).
Proof.
  induction l as [|x l IH]; simpl; [constructor | now apply insert_by_created_at_sorted].
Qed.

Lemma strongly_sorted_firstn (A : Type) (R : A -> A -> Prop) (n : nat) (l : list A) :
  StronglySorted R l ->
  StronglySorted R (firstn n l)
  /\ forall a b, In a (firstn n l) -> In b (skipn n l) -> R a b.
Proof.
  revert n. induction l as [|x l IH]; intros n S.
  - rewrite firstn_nil, skipn_nil. split; [constructor | intros a b []].
  - inversion S as [|? ? Sl Fx]; subst. destruct n as [|n]; simpl.
    + split; [constructor | intros a b []].
    + destruct (IH n Sl) as [S1 S2]. split.
      * constructor; [assumption|]. rewrite Forall_forall in *.
        intros z Hz. apply Fx. now apply in_firstn in Hz.
      * intros a b [<-|Ha] Hb.
        -- rewrite Forall_forall in Fx. apply Fx.
           rewrite <- (firstn_skipn n l). apply in_or_app. now right.
        -- now apply S2.
Qed.

(** X17: [list_all_episodes] returns at most [limit] completed Episode
    records of the project store, sorted by creation time: newest first
    when the order is ["desc"], oldest first for every other order word.
    It looks at the first [2 * limit] completed episodes in store order
    only; among those, none that is left out comes before one that is
    returned. *)
Theorem list_all_episodes_sorted_by_time (order : str) (limit : nat) (s : Manager) :
  exists episodes,
    list_all_episodes order limit s = (s, Returned episodes)
    /\ List.length episodes <= limit
    /\ StronglySorted (in_order (str_eqb order (py "desc"))) episodes
    /\ (forall e, In e episodes ->
          In e (VectorStore.get_by_type (project_store s) (py "Episode") (limit * 2)
                                        (py "completed"))
          /\ meta_get (py "type") (item_metadata e) = Some (MStr (py "Episode"))
          /\ meta_get (py "status") (item_metadata e) = Some (MStr (py "completed")))
    /\ (forall e x,
          In e episodes ->
          In x (VectorStore.get_by_type (project_store s) (py "Episode") (limit * 2)
                                        (py "completed")) ->
          ~ In x episodes ->
          in_order (str_eqb order (py "desc")) e x).
Proof.
  set (considered := VectorStore.get_by_type (project_store s) (py "Episode") (limit * 2)
                                             (py "completed")).
  set (sorted := sorted_by_created_at (str_eqb order (py "desc")) considered).
  exists (firstn limit sorted).
  destruct (strongly_sorted_firstn Item (in_order (str_eqb order (py "desc"))) limit sorted
              (sorted_by_created_at_sorted _ considered)) as [S1 S2].
  assert (P : forall e, In e sorted <-> In e considered).
  { intro e. split; apply Permutation_in;
      [|apply Permutation_sym]; apply sorted_by_created_at_perm. }
  split; [reflexivity|]. split; [apply firstn_le_length|]. split; [exact S1|]. split.
  - intros e He. apply in_firstn in He. apply P in He. split; [exact He|].
    unfold considered, VectorStore.get_by_type, coll_get_where in He.
    apply in_map_iff in He as [d [<- Hd]]. apply in_firstn in Hd.
    apply filter_In in Hd as [_ M]. unfold where_opt_matches in M.
    now apply type_and_status_matches in M.
  - intros e x He Hx Hn. apply S2; [exact He|].
    apply P in Hx. rewrite <- (firstn_skipn limit sorted) in Hx.
    apply in_app_or in Hx as [Hx|Hx]; [contradiction | exact Hx].
Qed.

(** ** Counting the queue *)

Lemma count_of_bump (t u : str) (d : list (str * nat)) :
  count_of t (bump u d) = (if str_eqb t u then S (count_of t d) else count_of t d).
Proof.
  unfold count_of. induction d as [|[k n] d IH]; simpl.
  - destruct (str_eqb t u); reflexivity.
  - destruct (str_eqb u k) eqn:Euk; simpl.
    + apply str_eqb_eq in Euk. subst k. destruct (str_eqb t u); reflexivity.
    + destruct (str_eqb t k) eqn:Etk; simpl.
      * apply str_eqb_eq in Etk. subst k.
        destruct (str_eqb t u) eqn:Etu; [|reflexivity].
        apply str_eqb_eq in Etu. subst u. rewrite str_eqb_refl in Euk. discriminate.
      * exact IH.
Qed.

Lemma bump_keys (u : str) (d : list (str * nat)) :
  NoDup (map fst d) ->
  NoDup (map fst (bump u d))
  /\ (forall k, In k (map fst (bump u d)) <-> k = u \/ In k (map fst d))
  /\ list_sum (map snd (bump u d)) = S (list_sum (map snd d))
  /\ (Forall (fun kv => 0 < snd kv) d -> Forall (fun kv => 0 < snd kv) (bump u d)).
Proof.
  induction d as [|[k n] d IH]; simpl; intro N.
  - split; [repeat constructor; simpl; tauto|].
    split; [intro k; simpl; intuition congruence|].
    split; [reflexivity|].
    intros _. repeat constructor.
  - inversion N as [|? ? Hk Hd]; subst. destruct (IH Hd) as (I1 & I2 & I3 & I4).
    destruct (str_eqb u k) eqn:E; simpl.
    + apply str_eqb_eq in E. subst k.
      split; [exact N|]. split; [intro k; simpl; intuition congruence|]. split; [reflexivity|].
      intro F. inversion F; subst. constructor; [simpl; lia | assumption].
    + apply str_eqb_neq in E.
      split; [constructor; [|assumption]; rewrite I2; intros [->|H]; [congruence|contradiction]|].
      split; [intro k0; simpl; rewrite I2; intuition congruence|].
      split; [rewrite I3; lia|].
      intro F. inversion F; subst. constructor; [assumption | now apply I4].
Qed.

Lemma pending_by_type_spec (pending : list Candidate) :
  forall d,
    NoDup (map fst d) -> Forall (fun kv => 0 < snd kv) d ->
    let d' := fold_left (fun d p => bump (cand_type p) d) pending d in
    NoDup (map fst d')
    /\ Forall (fun kv => 0 < snd kv) d'
    /\ list_sum (map snd d') = list_sum (map snd d) + List.length pending
    /\ forall t, count_of t d'
                 = count_of t d + List.length (filter (of_type t) pending).
Proof.
  induction pending as [|p pending IH]; intros d N F; simpl.
  - split; [assumption|]. split; [assumption|]. split; [lia|]. intro t. lia.
  - destruct (bump_keys (cand_type p) d N) as (B1 & _ & B3 & B4).
    destruct (IH (bump (cand_type p) d) B1 (B4 F)) as (I1 & I2 & I3 & I4).
    split; [assumption|]. split; [assumption|]. split.
    + rewrite I3, B3. lia.
    + intro t. rewrite I4, count_of_bump. unfold of_type at 2.
      destruct (str_eqb t (cand_type p)) eqn:E.
      * apply str_eqb_eq in E. subst t. rewrite str_eqb_refl. simpl. lia.
      * destruct (str_eqb (cand_type p) t) eqn:E'; [|lia].
        apply str_eqb_eq in E'. subst t. rewrite str_eqb_refl in E. discriminate.
Qed.

(** X18: the counts of [get_stats] add up.  It changes nothing; the
    total is the length of the pending queue, each type is listed once
    with the number of queued candidates of that type, never with 0, a
    type that is not listed has none, and the counts by type sum to the
    total.  The two store counts are the numbers of records. *)
Theorem get_stats_counts_the_queue (is_encoder_ready : bool) (s : Manager) :
  exists stats,
    get_stats is_encoder_ready s = (s, Returned stats)
    /\ st_pending_total stats = List.length (pending_entities s)
    /\ NoDup (map fst (st_pending_by_type stats))
    /\ (forall t, count_of t (st_pending_by_type stats)
                  = List.length (filter (of_type t) (pending_entities s)))
    /\ Forall (fun kv => 0 < snd kv) (st_pending_by_type stats)
    /\ list_sum (map snd (st_pending_by_type stats)) = st_pending_total stats
    /\ st_project_count stats = List.length (project_store s)
    /\ st_user_count stats = List.length (user_store s)
    /\ st_current_messages stats = List.length (current_messages s)
    /\ st_encoder_ready stats = is_encoder_ready.
Proof.
  eexists. split; [cbv beta iota zeta delta [get_stats bind gets ret]; reflexivity|].
  cbn [st_pending_total st_pending_by_type st_project_count
    st_user_count st_current_messages st_encoder_ready].
  destruct (pending_by_type_spec (pending_entities s) [] (NoDup_nil _) (Forall_nil _))
    as (P1 & P2 & P3 & P4).
  split; [reflexivity|]. split; [assumption|]. split; [intro t; now rewrite P4|].
  split; [assumption|]. split; [now rewrite P3|]. repeat split.
Qed.
(** ** Deprecating an entity *)

Lemma meta_get_set_same (k : str) (v : meta_value) (md : metadata) :
  meta_get k (meta_set k v md) = Some v.
Proof.
  induction md as [|[k' v'] md IH]; simpl.
  - now rewrite str_eqb_refl.
  - destruct (str_eqb k k') eqn:E; simpl; rewrite E; [reflexivity | exact IH].
Qed.

Lemma meta_get_set_other (k k' : str) (v : meta_value) (md : metadata) :
  k <> k' -> meta_get k (meta_set k' v md) = meta_get k md.
Proof.
  intro H. apply str_eqb_neq in H.
  induction md as [|[k0 v0] md IH]; simpl.
  - now rewrite H.
  - destruct (str_eqb k' k0) eqn:E; simpl.
    + apply str_eqb_eq in E. subst k0. now rewrite H.
    + destruct (str_eqb k k0); [reflexivity | exact IH].
Qed.

Lemma meta_get_app (k : str) (a b : metadata) :
  meta_get k (a ++ b)
  = match meta_get k a with
    | Some v => Some v
    | None => meta_get k b
    end.
Proof.
  induction a as [|[k0 v0] a IH]; simpl; [reflexivity|].
  destruct (str_eqb k k0); [reflexivity | exact IH].
Qed.

(** Writing [new] key by key over [old]: the last binding of a key wins. *)
Lemma meta_get_written_over (k : str) (new : metadata) :
  forall old,
    meta_get k (fold_left (fun acc kv => meta_set (fst kv) (snd kv) acc) new old)
    = match meta_get k (rev new) with
      | Some v => Some v
      | None => meta_get k old
      end.
Proof.
  induction new as [|[k0 v0] new IH]; intro old; simpl; [reflexivity|].
  rewrite IH, meta_get_app. destruct (meta_get k (rev new)); [reflexivity|].
  simpl. destruct (str_eqb k k0) eqn:E.
  - apply str_eqb_eq in E. subst k0. apply meta_get_set_same.
  - apply str_eqb_neq in E. now apply meta_get_set_other.
Qed.

Lemma meta_get_in (k : str) (v : meta_value) (md : metadata) :
  NoDup (map fst md) -> (meta_get k md = Some v <-> In (k, v) md).
Proof.
  induction md as [|[k0 v0] md IH]; simpl; intro N.
  - split; [discriminate | intros []].
  - inversion N as [|? ? Hk Hmd]; subst. destruct (str_eqb k k0) eqn:E.
    + apply str_eqb_eq in E. subst k0. split.
      * intro H. injection H as ->. now left.
      * intros [H|H]; [congruence|]. exfalso. apply Hk.
        change k with (fst (k, v)). now apply in_map.
    + apply str_eqb_neq in E. rewrite (IH Hmd). split.
      * intro H. now right.
      * intros [H|H]; [congruence | exact H].
Qed.

Lemma meta_get_rev (k : str) (md : metadata) :
  NoDup (map fst md) -> meta_get k (rev md) = meta_get k md.
Proof.
  intro N.
  assert (N' : NoDup (map fst (rev md))).
  { rewrite map_rev. apply NoDup_rev. exact N. }
  destruct (meta_get k (rev md)) as [v|] eqn:A.
  - apply (meta_get_in k v _ N') in A. rewrite <- in_rev in A.
    apply (meta_get_in k v _ N) in A. now rewrite A.
  - destruct (meta_get k md) as [v|] eqn:B; [|reflexivity].
    apply (meta_get_in k v _ N) in B. rewrite in_rev in B.
    apply (meta_get_in k v _ N') in B. congruence.
Qed.

Lemma meta_set_keys (k : str) (v : meta_value) (md : metadata) :
  NoDup (map fst md) -> NoDup (map fst (meta_set k v md)).
Proof.
  intro N.
  assert (K : forall j, In j (map fst (meta_set k v md)) -> j = k \/ In j (map fst md)).
  { induction md as [|[k0 v0] md IH]; simpl.
    - intros j [<-|[]]. now left.
    - inversion N; subst. destruct (str_eqb k k0) eqn:E; simpl.
      + intros j H. now right.
      + intros j [<-|H]; [right; now left|].
        destruct (IH H2 j H) as [->|H']; [now left | right; now right]. }
  clear K. induction md as [|[k0 v0] md IH]; simpl.
  - repeat constructor. intros [].
  - inversion N as [|? ? Hk Hmd]; subst. destruct (str_eqb k k0) eqn:E; simpl.
    + exact N.
    + constructor; [|now apply IH]. intro H. apply Hk.
      apply str_eqb_neq in E. clear IH N Hk Hmd.
      induction md as [|[k1 v1] md IH]; simpl in *.
      * destruct H as [H|[]]. congruence.
      * destruct (str_eqb k k1); simpl in *; [exact H|].
        destruct H as [H|H]; [now left | right; now apply IH].
Qed.

Lemma deprecated_metadata_keys (md : metadata) (superseded_by : option str) (now : Time) :
  NoDup (map fst md) -> NoDup (map fst (deprecated_metadata md superseded_by now)).
Proof.
  intro N. unfold deprecated_metadata.
  destruct superseded_by as [[|c rest]|]; repeat apply meta_set_keys; exact N.
Qed.

Lemma meta_get_set_none (k k' : str) (v : meta_value) (md : metadata) :
  meta_get k (meta_set k' v md) = None -> meta_get k md = None.
Proof.
  intro H. destruct (str_eqb k k') eqn:E.
  - apply str_eqb_eq in E. subst k'. rewrite meta_get_set_same in H. discriminate.
  - apply str_eqb_neq in E. now rewrite meta_get_set_other in H.
Qed.

(** What the record holds after [collection.update] wrote the deprecated
    metadata over its own. *)
Lemma deprecated_metadata_written (k : str) (md : metadata) (superseded_by : option str)
      (now : Time) :
  NoDup (map fst md) ->
  meta_get k (fold_left (fun acc kv => meta_set (fst kv) (snd kv) acc)
                        (deprecated_metadata md superseded_by now) md)
  = meta_get k (deprecated_metadata md superseded_by now).
Proof.
  intro N. rewrite meta_get_written_over.
  rewrite meta_get_rev by now apply deprecated_metadata_keys.
  destruct (meta_get k (deprecated_metadata md superseded_by now)) eqn:G; [reflexivity|].
  unfold deprecated_metadata in G.
  destruct superseded_by as [[|c rest]|];
    repeat (apply meta_get_set_none in G); exact G.
Qed.

Lemma find_has_id_map (f : Doc -> Doc) (c : Collection) (j : str) :
  (forall d, doc_id (f d) = doc_id d) ->
  find (has_id j) (map f c) = option_map f (find (has_id j) c).
Proof.
  intro H. induction c as [|d c IH]; simpl; [reflexivity|].
  unfold has_id at 1 3. rewrite H. destruct (str_eqb j (doc_id d)); [reflexivity | exact IH].
Qed.

Lemma find_has_id_id (c : Collection) (j : str) (d : Doc) :
  find (has_id j) c = Some d -> doc_id d = j.
Proof.
  intro H. apply find_some in H as [_ H]. unfold has_id in H.
  apply str_eqb_eq in H. now symmetry.
Qed.

(** One store after [update(entity_id, metadata=...)] with the deprecated
    metadata of the record found. *)
Lemma update_deprecates (encoder : str -> outcome Vector) (c : Collection)
      (entity_id : str) (superseded_by : option str) (now : Time) (ent : Item) :
  VectorStore.get c entity_id = Some ent ->
  NoDup (map fst (item_metadata ent)) ->
  exists c',
    VectorStoreUpdates.update encoder c entity_id None
      (Some (deprecated_metadata (item_metadata ent) superseded_by now)) = Returned c'
    /\ (forall j, j <> entity_id -> VectorStore.get c' j = VectorStore.get c j)
    /\ exists ent', VectorStore.get c' entity_id = Some ent'
                    /\ deprecated_from ent ent' superseded_by now.
Proof.
  intros G N. unfold VectorStoreUpdates.update.
  assert (Shape : exists kv rest,
             deprecated_metadata (item_metadata ent) superseded_by now = kv :: rest).
  { destruct (deprecated_metadata (item_metadata ent) superseded_by now) as [|kv rest] eqn:E.
    - exfalso.
      assert (S : meta_get (py "status")
                    (deprecated_metadata (item_metadata ent) superseded_by now) <> None).
      { unfold deprecated_metadata. destruct superseded_by as [[|c0 rest]|];
          rewrite ?(meta_get_set_other (py "status") (py "superseded_by"))
            by (vm_compute; discriminate);
          rewrite (meta_get_set_other (py "status") (py "deprecated_at"))
            by (vm_compute; discriminate);
          rewrite meta_get_set_same; discriminate. }
      rewrite E in S. now apply S.
    - now exists kv, rest. }
  destruct Shape as (kv & rest & Shape). rewrite Shape. rewrite <- Shape.
  eexists. split; [reflexivity|].
  unfold VectorStore.get, coll_get_id, coll_update in *.
  set (f := fun d : Doc => if has_id entity_id d then _ else d).
  assert (Hf : forall d, doc_id (f d) = doc_id d).
  { intro d. unfold f. destruct (has_id entity_id d); reflexivity. }
  split.
  - intros j Hj. rewrite (find_has_id_map f c j Hf).
    destruct (find (has_id j) c) as [d|] eqn:F; [|reflexivity]. simpl.
    unfold f. pose proof (find_has_id_id c j d F) as I.
    unfold has_id. rewrite I. apply not_eq_sym in Hj. apply str_eqb_neq in Hj.
    now rewrite Hj.
  - rewrite (find_has_id_map f c entity_id Hf).
    destruct (find (has_id entity_id) c) as [d|] eqn:F; [|discriminate].
    simpl in G. injection G as <-. simpl. eexists. split; [reflexivity|].
    pose proof (find_has_id_id c entity_id d F) as I.
    unfold f, has_id. rewrite I, str_eqb_refl.
    unfold deprecated_from, item_of_doc. cbn [item_id item_content item_metadata
      doc_id doc_content doc_metadata].
    cbn [item_metadata item_of_doc] in N.
    assert (W : forall k, meta_get k
                 (fold_left (fun acc kv0 => meta_set (fst kv0) (snd kv0) acc)
                            (deprecated_metadata (doc_metadata d) superseded_by now)
                            (doc_metadata d))
               = meta_get k (deprecated_metadata (doc_metadata d) superseded_by now)).
    { intro k. now apply deprecated_metadata_written. }
    assert (St : meta_get (py "status")
                   (deprecated_metadata (doc_metadata d) superseded_by now)
                 = Some (MStr (py "deprecated"))).
    { unfold deprecated_metadata. destruct superseded_by as [[|c0 r0]|];
        rewrite ?(meta_get_set_other (py "status") (py "superseded_by"))
          by (vm_compute; discriminate);
        rewrite (meta_get_set_other (py "status") (py "deprecated_at"))
          by (vm_compute; discriminate);
        apply meta_get_set_same. }
    split; [congruence|]. split; [reflexivity|]. split; [now rewrite W|].
    split; [|split; [|split]].
    + rewrite W. unfold deprecated_metadata. destruct superseded_by as [[|c0 r0]|];
        rewrite ?(meta_get_set_other (py "deprecated_at") (py "superseded_by"))
          by (vm_compute; discriminate);
        apply meta_get_set_same.
    + intros c0 r0 ->. rewrite W. unfold deprecated_metadata. apply meta_get_set_same.
    + intros k K1 K2 K3. rewrite W. unfold deprecated_metadata.
      destruct superseded_by as [[|c0 r0]|].
      * rewrite !meta_get_set_other by assumption. reflexivity.
      * destruct K3 as [K3|[K3|K3]]; try discriminate.
        rewrite !meta_get_set_other by assumption. reflexivity.
      * rewrite !meta_get_set_other by assumption. reflexivity.
    + unfold active_status. cbn [where_matches]. rewrite W, St. reflexivity.
Qed.

(** X19: [deprecate_entity] marks one record and never needs the encoder.
    It looks the id up in the project store first and in the user store
    only if the project store has none.  The record found keeps its id
    and content; its status becomes ["deprecated"], the time of the call
    and the successor (if a non-empty one is named) are written, every
    other key is as before, and the record no longer passes the filter
    for active entities.  Every other id, in both stores, is found as
    before; for an id neither store holds nothing changes.  The call
    returns whatever the encoder would do. *)
Theorem deprecate_entity_marks_one_record (env : Env) (entity_id : str)
  (superseded_by : option str) (now : Time) (s : Manager) :
  (forall ent, VectorStore.get (project_store s) entity_id = Some ent
               \/ VectorStore.get (user_store s) entity_id = Some ent ->
               NoDup (map fst (item_metadata ent))) ->
  snd (deprecate_entity env entity_id superseded_by now s) = Returned tt
  /\ (forall j, j <> entity_id ->
        VectorStore.get (project_store (fst (deprecate_entity env entity_id superseded_by
                                                               now s))) j
        = VectorStore.get (project_store s) j
        /\ VectorStore.get (user_store (fst (deprecate_entity env entity_id superseded_by
                                                              now s))) j
           = VectorStore.get (user_store s) j)
  /\ match VectorStore.get (project_store s) entity_id,
           VectorStore.get (user_store s) entity_id with
     | Some ent, _ =>
       user_store (fst (deprecate_entity env entity_id superseded_by now s)) = user_store s
       /\ exists ent',
           VectorStore.get (project_store (fst (deprecate_entity env entity_id
                                                                 superseded_by now s)))
                           entity_id = Some ent'
           /\ deprecated_from ent ent' superseded_by now
     | None, Some ent =>
       project_store (fst (deprecate_entity env entity_id superseded_by now s))
       = project_store s
       /\ exists ent',
           VectorStore.get (user_store (fst (deprecate_entity env entity_id
                                                              superseded_by now s)))
                           entity_id = Some ent'
           /\ deprecated_from ent ent' superseded_by now
     | None, None => fst (deprecate_entity env entity_id superseded_by now s) = s
     end.
Proof.
  intro Dict. remember (deprecate_entity env entity_id superseded_by now s) as r eqn:Hr.
  unfold deprecate_entity, bind, gets, lift, modify, ret in Hr.
  destruct (VectorStore.get (project_store s) entity_id) as [ent|] eqn:GP.
  - destruct (update_deprecates (encoder env) (project_store s) entity_id superseded_by now
                                ent GP (Dict ent (or_introl eq_refl)))
      as (c' & U & Others & ent' & G' & D).
    rewrite U in Hr. subst r. destruct s; cbn in *.
    split; [reflexivity|]. split; [|split; [reflexivity|]].
    + intros j Hj. split; [now apply Others | reflexivity].
    + exists ent'. now split.
  - destruct (VectorStore.get (user_store s) entity_id) as [ent|] eqn:GU.
    + destruct (update_deprecates (encoder env) (user_store s) entity_id superseded_by now
                                  ent GU (Dict ent (or_intror eq_refl)))
        as (c' & U & Others & ent' & G' & D).
      rewrite U in Hr. subst r. destruct s; cbn in *.
      split; [reflexivity|]. split; [|split; [reflexivity|]].
      * intros j Hj. split; [reflexivity | now apply Others].
      * exists ent'. now split.
    + subst r. cbn. split; [reflexivity|]. split; [|reflexivity].
      intros j Hj. split; reflexivity.
Qed.

Lemma deprecate_entity_marks_one_record_witness :
  snd (deprecate_entity crashed_env (py "ent_2") (Some (py "ent_3")) 7%Z sample_manager)
  = Returned tt.
Proof.
  apply (deprecate_entity_marks_one_record crashed_env (py "ent_2") (Some (py "ent_3")) 7%Z
           sample_manager).
  intros ent [H|H].
  - injection H as <-. repeat constructor; simpl; intuition discriminate.
  - discriminate H.
Defined.
(** ** The session monitor closes the episode *)

Lemma init_fresh_disk (env : Env) (started : Time) (ep : Episode)
      (messages : list Message) (user project : Collection)
      (cache : option (list cache_line))
      (pending : option (file_content (list Candidate))) (drawn : nat) :
  (started - last_activity ep messages < minutes STALE_EPISODE_MINUTES)%Z ->
  exists queue,
    __init__ env started
            (on_disk user project cache pending (Some (Parsed (Some ep, messages))) drawn)
    = (mkManager user project cache pending (Some (Parsed (Some ep, messages)))
                 (Some ep) messages queue drawn, Returned tt).
Proof.
  intro F.
  exists (match pending with Some (Parsed ps) => ps | _ => [] end).
  unfold __init__, _load_active_episode, _load_pending_entities, _close_stale_episode,
    on_disk, bind, gets, ret.
  destruct pending as [[ps|]|];
    cbv beta iota delta [set_pending_entities set_current_messages set_current_episode
                         user_store project_store cache_file pending_file state_file
                         current_episode current_messages pending_entities uuid_drawn];
    (replace (minutes STALE_EPISODE_MINUTES <=? started - last_activity ep messages)%Z
      with false by (symmetry; apply Z.leb_gt; exact F));
    reflexivity.
Qed.

(** X21: what the session monitor leaves when it closes an episode that
    is not stale.  An episode without messages is discarded: the recovery
    document is cleared and nothing is archived, so the project store is
    as before and the encoder is not needed.  An episode with messages is
    archived under the monitor's own summary as a completed Episode and
    the recovery document is cleared; if the encoder raises, the error is
    swallowed and the episode stays in the recovery document, stores
    untouched.  The user store and the message log are never changed. *)
Theorem monitor_discards_empty_archives_rest (env : Env) (reason : str)
  (started closing : Time) (ep : Episode) (messages : list Message)
  (user project : Collection) (cache : option (list cache_line))
  (pending : option (file_content (list Candidate))) (drawn : nat) :
  (started - last_activity ep messages < minutes STALE_EPISODE_MINUTES)%Z ->
  let disk := on_disk user project cache pending (Some (Parsed (Some ep, messages))) drawn in
  let after := SessionMonitor.close_episode env reason started closing disk in
  let summary := SessionMonitor.generate_summary (Some ep) messages reason in
  user_store after = user
  /\ cache_file after = cache
  /\ pending_file after = pending
  /\ match messages with
     | [] =>
       project_store after = project
       /\ state_file after = Some (Parsed (None, []))
       /\ SessionMonitor.episode_still_active after = false
     | _ :: _ =>
       match encoder env summary with
       | Returned v =>
         project_store after
         = coll_add project
                    (mkDoc (ep_id ep) v summary (episode_metadata ep messages closing))
         /\ state_file after = Some (Parsed (None, []))
         /\ SessionMonitor.episode_still_active after = false
       | Raised _ =>
         project_store after = project
         /\ state_file after = Some (Parsed (Some ep, messages))
       end
     end.
Proof.
  intros F disk after summary.
  destruct (init_fresh_disk env started ep messages user project cache pending drawn F)
    as [queue I].
  set (s1 := mkManager user project cache pending (Some (Parsed (Some ep, messages)))
                       (Some ep) messages queue drawn) in *.
  assert (A : SessionMonitor.closing_steps env reason started closing disk
              = if is_empty messages
                then (set_state_file (Some (Parsed (None, messages)))
                                     (set_current_episode None s1), Returned tt)
                else bind (close_episode env (Some summary) closing)
                          (fun _ => ret tt) s1).
  { unfold SessionMonitor.closing_steps. unfold bind at 1. fold disk in I. rewrite I.
    unfold s1. destruct messages; reflexivity. }
  assert (Ne : messages <> [] ->
               summary_or_generated (Some summary) ep messages = summary).
  { intro Hm. unfold summary_or_generated.
    assert (S : exists c rest, summary = c :: rest).
    { unfold summary, SessionMonitor.generate_summary.
      destruct messages as [|m ms]; [congruence|]. cbn [join app].
      destruct (py "## " ++ ep_title ep) as [|c rest] eqn:E.
      - apply (f_equal (@List.length _)) in E. rewrite length_app in E.
        vm_compute in E. discriminate.
      - eexists; eexists; reflexivity. }
    destruct S as (c & rest & ->). reflexivity. }
  unfold after, SessionMonitor.close_episode. rewrite A. clear A.
  destruct messages as [|m ms].
  - cbn. repeat split.
  - cbv beta iota delta [is_empty]. unfold bind.
    specialize (Ne ltac:(discriminate)).
    destruct (encoder env summary) as [v|e] eqn:E.
    + rewrite (close_episode_returned env (Some summary) closing ep v s1 eq_refl);
        cbn [current_messages s1]; rewrite Ne; [|exact E].
      unfold after_close. cbn. repeat split.
    + rewrite (close_episode_raised env (Some summary) closing ep e s1 eq_refl);
        cbn [current_messages s1]; rewrite ?Ne; [|exact E].
      cbn. repeat split.
Qed.

Lemma monitor_discards_empty_archives_rest_witness :
  project_store (SessionMonitor.close_episode healthy_env (py "terminal_closed")
                                              (minutes 10) (minutes 11) idle_disk) = []
  /\ state_file (SessionMonitor.close_episode healthy_env (py "terminal_closed")
                                              (minutes 10) (minutes 11) idle_disk)
     = Some (Parsed (None, [])).
Proof.
  pose proof (monitor_discards_empty_archives_rest
                healthy_env (py "terminal_closed") (minutes 10) (minutes 11)
                idle_episode [] [] [] None None 0) as H.
  cbv zeta in H. destruct H as (_ & _ & _ & P & S & _).
  - vm_compute. reflexivity.
  - split; [exact P | exact S].
Defined.

(** ** The summary of an episode closed without one *)

Lemma join_length_bound (sep : str) (n : nat) (parts : list str) :
  parts <> [] ->
  Forall (fun p => List.length p <= n) parts ->
  List.length (join sep parts) + List.length sep
  <= List.length parts * (List.length sep + n).
Proof.
  induction parts as [|p parts IH]; intros Ne F; [congruence|].
  inversion F as [|? ? Hp Hps]; subst.
  destruct parts as [|q parts].
  - simpl. lia.
  - specialize (IH ltac:(discriminate) Hps).
    change (join sep (p :: q :: parts)) with (p ++ sep ++ join sep (q :: parts)).
    rewrite !length_app. cbn [List.length] in *. lia.
Qed.

Lemma last_n_length (A : Type) (n : nat) (xs : list A) :
  List.length (last_n n xs) <= n.
Proof. unfold last_n. rewrite length_skipn. lia. Qed.

Lemma last_n_app (A : Type) (older recent : list A) :
  last_n (List.length recent) (older ++ recent) = recent.
Proof.
  unfold last_n. rewrite length_app.
  replace (List.length older + List.length recent - List.length recent)
    with (List.length older + 0) by lia.
  rewrite skipn_app, Nat.add_0_r, skipn_all.
  replace (List.length older - List.length older) with 0 by lia. reflexivity.
Qed.

(** X22: the summary [close_episode] writes when it is given none is
    made from the title and the last five messages only, each cut to 100
    characters: messages before the last five do not change it, and
    however long the episode was, the summary is at most 536 characters
    longer than the title. *)
Theorem generated_summary_uses_last_five (ep : Episode) (older recent : list Message) :
  (List.length recent = 5 ->
   _generate_summary ep (older ++ recent) = _generate_summary ep recent)
  /\ List.length (_generate_summary ep (older ++ recent))
     <= List.length (ep_title ep) + 536.
Proof.
  split.
  - intro L. unfold _generate_summary.
    destruct recent as [|r recent]; [discriminate|].
    destruct (older ++ r :: recent) as [|x xs] eqn:E.
    + destruct older; discriminate.
    + rewrite <- E.
      replace (last_n 5 (older ++ r :: recent)) with (r :: recent)
        by (rewrite <- L; symmetry; apply last_n_app).
      replace (last_n 5 (r :: recent)) with (r :: recent)
        by (rewrite <- L; symmetry; apply (last_n_app Message [] (r :: recent))).
      reflexivity.
  - generalize (older ++ recent) as messages. intro messages.
    unfold _generate_summary. destruct messages as [|m ms]; [lia|].
    set (recent5 := last_n 5 (m :: ms)).
    set (line := fun msg : Message =>
                   py "- " ++ role_label (m_role msg) ++ py ": "
                      ++ firstn 100 (m_content msg)).
    assert (Ll : Forall (fun p => List.length p <= 106) (map line recent5)).
    { apply Forall_forall. intros p Hp. apply in_map_iff in Hp as [msg [<- _]].
      unfold line. rewrite !length_app.
      assert (R : List.length (role_label (m_role msg)) = 2).
      { unfold role_label. destruct (str_eqb (m_role msg) (py "user")); reflexivity. }
      rewrite R. pose proof (firstn_le_length 100 (m_content msg)) as T.
      change (List.length (py "- ")) with 2. change (List.length (py ": ")) with 2. lia. }
    pose proof (last_n_length Message 5 (m :: ms)) as L5. fold recent5 in L5.
    destruct (map line recent5) as [|l ls] eqn:M.
    + cbn [join]. rewrite length_app. change (List.length (py ":")) with 1. lia.
    + change (join [newline] ((ep_title ep ++ py ":") :: l :: ls))
        with ((ep_title ep ++ py ":") ++ [newline] ++ join [newline] (l :: ls)).
      rewrite !length_app. change (List.length (py ":")) with 1.
      pose proof (join_length_bound [newline] 106 (l :: ls) ltac:(discriminate) Ll) as J.
      assert (K : List.length (l :: ls) <= 5).
      { rewrite <- M, length_map. exact L5. }
      cbn [List.length] in *.
      assert (B : List.length (join [newline] (l :: ls)) + 1 <= 5 * (1 + 106)).
      { eapply Nat.le_trans; [exact J|]. apply Nat.mul_le_mono_r. exact K. }
      change (5 * (1 + 106)) with 535 in B. lia.
Qed.

Lemma only_project_patterns_reach_threshold_witness :
  In (hd confident_candidate
         (_detect_candidates healthy_env 0 0%Z (py "我决定采用微服务架构")))
     (_detect_candidates healthy_env 0 0%Z (py "我决定采用微服务架构"))
  /\ Qle_bool AUTO_CONFIRM_THRESHOLD
              (confidence (hd confident_candidate
                              (_detect_candidates healthy_env 0 0%Z
                                                  (py "我决定采用微服务架构"))))
     = true.
Proof.
  assert (H : In (hd confident_candidate
                     (_detect_candidates healthy_env 0 0%Z (py "我决定采用微服务架构")))
                 (_detect_candidates healthy_env 0 0%Z (py "我决定采用微服务架构"))).
  { vm_compute. left. reflexivity. }
  split; [exact H|].
  apply (proj1 (only_project_patterns_reach_threshold
                  healthy_env 0 0%Z (py "我决定采用微服务架构") _ H)).
  vm_compute. split; [reflexivity | left; reflexivity].
Defined.
